(** * twse_scraper: ingestion, normalisation and accumulation pipeline

    A shallow embedding of [twse_scraper.py] and the verification of its
    specification.  Python text is a list of Unicode code points, a pandas
    table is a list of column labels with positional rows of cells,
    exceptions are an error monad, and the file system is an explicit
    state that is threaded through the persistence functions. *)

From Stdlib Require Import ZArith NArith List Bool Lia String Ascii Sorted Permutation.
From stdpp Require Import gmap list.

Local Open Scope N_scope.

(** ** Python [str]: sequences of code points *)

Definition pystr := list N.

(** [utf8] decodes the UTF-8 bytes of a literal of this file into code
    points; it is only used to write the literals of the source. *)
Fixpoint utf8_decode (bs : list N) : pystr :=
  match bs with
  | [] => []
  | b :: r =>
      if b <? 128 then b :: utf8_decode r
      else if b <? 224 then
        match r with
        | b1 :: r1 => ((b - 192) * 64 + (b1 - 128)) :: utf8_decode r1
        | _ => []
        end
      else if b <? 240 then
        match r with
        | b1 :: b2 :: r2 =>
            ((b - 224) * 4096 + (b1 - 128) * 64 + (b2 - 128)) :: utf8_decode r2
        | _ => []
        end
      else
        match r with
        | b1 :: b2 :: b3 :: r3 =>
            ((b - 240) * 262144 + (b1 - 128) * 4096 + (b2 - 128) * 64 + (b3 - 128))
              :: utf8_decode r3
        | _ => []
        end
  end.

Definition utf8 (s : string) : pystr :=
  utf8_decode (List.map N_of_ascii (list_ascii_of_string s)).

(** [str.isspace] on one code point (the Unicode white space of CPython). *)
Definition isspace (c : N) : bool :=
  ((9 <=? c) && (c <=? 13)) || ((28 <=? c) && (c <=? 32))
  || (c =? 133) || (c =? 160) || (c =? 5760)
  || ((8192 <=? c) && (c <=? 8202))
  || (c =? 8232) || (c =? 8233) || (c =? 8239) || (c =? 8287) || (c =? 12288).

Fixpoint lstrip (s : pystr) : pystr :=
  match s with
  | [] => []
  | c :: s' => if isspace c then lstrip s' else s
  end.

Definition rstrip (s : pystr) : pystr := rev (lstrip (rev s)).

(** [s.strip()] *)
Definition strip (s : pystr) : pystr := rstrip (lstrip s).

(** [s.split(sep)] for a one-character separator. *)
Fixpoint split (sep : N) (s : pystr) : list pystr :=
  match s with
  | [] => [[]]
  | c :: s' =>
      if c =? sep then [] :: split sep s'
      else match split sep s' with
           | l :: ls => (c :: l) :: ls
           | [] => [[c]]
           end
  end.

(** [sep.join(parts)] *)
Fixpoint join (sep : pystr) (parts : list pystr) : pystr :=
  match parts with
  | [] => []
  | [p] => p
  | p :: ps => p ++ sep ++ join sep ps
  end.

Fixpoint startswith (p s : pystr) : bool :=
  match p, s with
  | [], _ => true
  | _ :: _, [] => false
  | a :: p', b :: s' => (a =? b) && startswith p' s'
  end.

(** [needle in hay] *)
Fixpoint contains (needle hay : pystr) : bool :=
  startswith needle hay
  || match hay with
     | [] => false
     | _ :: hay' => contains needle hay'
     end.

(** [s.replace(c, '')] for a one-character [c]. *)
Definition remove_char (c : N) (s : pystr) : pystr :=
  List.filter (fun x => negb (x =? c)) s.

(** truth value of a string: [if s:] *)
Definition truthy (s : pystr) : bool :=
  match s with [] => false | _ :: _ => true end.

Definition pystr_eqb (a b : pystr) : bool := bool_decide (a = b).

(** [str(n)] for an integer. *)
Fixpoint digits_of (fuel : nat) (n : N) (acc : pystr) : pystr :=
  match fuel with
  | O => acc
  | S fuel' =>
      let acc' := (48 + n mod 10) :: acc in
      if n <? 10 then acc' else digits_of fuel' (n / 10) acc'
  end.

Definition str_of_N (n : N) : pystr := digits_of (S (N.to_nat (N.log2 n))) n [].

Definition str_of_Z (z : Z) : pystr :=
  match z with
  | Zneg p => 45 :: str_of_N (Npos p)
  | _ => str_of_N (Z.to_N z)
  end.

(** zero-padded decimal of width [w], as in the format specs [02d] and
    the four-digit year of [strftime]. *)
Definition zfill (w : nat) (s : pystr) : pystr :=
  repeat 48 (w - length s)%nat ++ s.

(** ** Literals of the source *)

Definition NL : N := 10.
Definition COMMA : N := 44.
Definition EQUALS : N := 61.
Definition DQUOTE : N := 34.

Definition s_id : pystr := Eval cbv in utf8 "證券代號".
Definition s_name : pystr := Eval cbv in utf8 "證券名稱".
Definition s_total : pystr := Eval cbv in utf8 "計".
Definition s_shares : pystr := Eval cbv in utf8 "股數".
Definition s_tpex_id : pystr := Eval cbv in utf8 "代號".
Definition s_tpex_name : pystr := Eval cbv in utf8 "名稱".
Definition s_trust : pystr := Eval cbv in utf8 "投信".
Definition s_foreign : pystr := Eval cbv in utf8 "外資".
Definition s_dealer : pystr := Eval cbv in utf8 "自營商".
Definition s_buy : pystr := Eval cbv in utf8 "買進股數".
Definition s_sell : pystr := Eval cbv in utf8 "賣出股數".
Definition s_net : pystr := Eval cbv in utf8 "買賣超股數".
Definition s_date : pystr := Eval cbv in utf8 "日期".
Definition s_listed : pystr := Eval cbv in utf8 "上市".
Definition s_unit : pystr := Eval cbv in utf8 "(股)".

(** ** Exceptions *)

Inductive exn : Set :=
| KeyError | IndexError | ValueError | TypeError | AttributeError
| OSError                (* storage failures *)
| LibError.              (* csv.Error, pandas ParserError, EmptyDataError, ... *)

Inductive result (A : Type) : Type :=
| Ok (a : A)
| Raise (e : exn).
Arguments Ok {A} a.
Arguments Raise {A} e.

#[global] Instance result_ret : MRet result := @Ok.
#[global] Instance result_bind : MBind result :=
  fun A B f m => match m with Ok a => f a | Raise e => Raise e end.

Fixpoint traverse {A B} (f : A -> result B) (l : list A) : result (list B) :=
  match l with
  | [] => Ok []
  | x :: l' => y ← f x; ys ← traverse f l'; Ok (y :: ys)
  end.

(** ** Cells, series and tables *)

Record date : Set := Date { year : N; month : N; day : N }.

(** A cell of a table: a missing value ([NaN], [None], [NaT]), text, a
    number, or a timestamp at midnight of a calendar day. *)
Inductive cell : Set :=
| NaN
| Str (s : pystr)
| Num (z : Z)
| Ts (d : date).

#[global] Instance date_eq_dec : EqDecision date.
Proof. solve_decision. Defined.
#[global] Instance cell_eq_dec : EqDecision cell.
Proof. solve_decision. Defined.

Definition isna (c : cell) : bool :=
  match c with NaN => true | _ => false end.

(** [strftime('%Y-%m-%d')], [strftime('%Y%m%d')] and the ROC date of the
    over-the-counter publisher. *)
Definition DASH : N := 45.
Definition SLASH : N := 47.
Definition strftime_dash (d : date) : pystr :=
  zfill 4 (str_of_N (year d)) ++ [DASH] ++ zfill 2 (str_of_N (month d))
    ++ [DASH] ++ zfill 2 (str_of_N (day d)).
Definition strftime_plain (d : date) : pystr :=
  zfill 4 (str_of_N (year d)) ++ zfill 2 (str_of_N (month d))
    ++ zfill 2 (str_of_N (day d)).
Definition roc_date (d : date) : pystr :=
  str_of_Z (Z.of_N (year d) - 1911) ++ [SLASH] ++ zfill 2 (str_of_N (month d))
    ++ [SLASH] ++ zfill 2 (str_of_N (day d)).

(** [Series.astype(str)] on one cell. *)
Definition astype_str (c : cell) : pystr :=
  match c with
  | NaN => [110; 97; 110]
  | Str s => s
  | Num z => str_of_Z z
  | Ts d => strftime_dash d
  end.

Definition Series := list cell.

Record DataFrame : Type := mkDF { columns : list pystr; rows : list (list cell) }.

(** [pd.DataFrame()] *)
Definition empty_df : DataFrame := mkDF [] [].

(** [df.empty]: some axis has length 0. *)
Definition df_empty (df : DataFrame) : bool :=
  match columns df, rows df with
  | _ :: _, _ :: _ => false
  | _, _ => true
  end.

(** positions of a label among the column labels *)
Fixpoint positions_from {A} `{EqDecision A} (i : nat) (x : A) (l : list A) : list nat :=
  match l with
  | [] => []
  | y :: l' =>
      if decide (x = y) then i :: positions_from (S i) x l'
      else positions_from (S i) x l'
  end.
Definition positions {A} `{EqDecision A} (x : A) (l : list A) : list nat :=
  positions_from 0 x l.

(** the position of a label that selects one column: a missing label is a
    [KeyError]; a repeated label selects a sub-table, on which the series
    operations that follow ([.str], assignment to one column) raise. *)
Definition unique_index {A} `{EqDecision A} (x : A) (l : list A) : result nat :=
  match positions x l with
  | [] => Raise KeyError
  | [i] => Ok i
  | _ :: _ :: _ => Raise AttributeError
  end.

Definition cell_at (i : nat) (row : list cell) : cell := default NaN (row !! i).

(** [df[col]] used as a series *)
Definition getitem (df : DataFrame) (col : pystr) : result Series :=
  i ← unique_index col (columns df);
  Ok (List.map (cell_at i) (rows df)).

Fixpoint zip_rows (f : list cell -> cell -> list cell)
  (rs : list (list cell)) (s : Series) : list (list cell) :=
  match rs, s with
  | r :: rs', v :: s' => f r v :: zip_rows f rs' s'
  | _, _ => []
  end.

(** [df[col] = series], the series having the index of [df]; on a table
    without columns the series brings its index. *)
Definition setitem (df : DataFrame) (col : pystr) (s : Series) : DataFrame :=
  match columns df with
  | [] => mkDF [col] (List.map (fun v => [v]) s)
  | _ :: _ =>
      match positions col (columns df) with
      | [] => mkDF (columns df ++ [col]) (zip_rows (fun r v => r ++ [v]) (rows df) s)
      | i :: _ => mkDF (columns df) (zip_rows (fun r v => <[i := v]> r) (rows df) s)
      end
  end.

(** [df[col] = scalar] *)
Definition setitem_scalar (df : DataFrame) (col : pystr) (v : cell) : DataFrame :=
  setitem df col (List.map (fun _ => v) (rows df)).

(** [df[mask]] for a boolean series *)
Fixpoint boolean_index_rows (rs : list (list cell)) (mask : list bool) : list (list cell) :=
  match rs, mask with
  | r :: rs', b :: mask' =>
      if b then r :: boolean_index_rows rs' mask' else boolean_index_rows rs' mask'
  | _, _ => []
  end.
Definition boolean_index (df : DataFrame) (mask : list bool) : DataFrame :=
  mkDF (columns df) (boolean_index_rows (rows df) mask).

(** [df.dropna(subset=[col])] *)
Definition dropna_subset (df : DataFrame) (col : pystr) : result DataFrame :=
  match positions col (columns df) with
  | [] => Raise KeyError
  | ps => Ok (mkDF (columns df)
                (List.filter (fun r => forallb (fun i => negb (isna (cell_at i r))) ps)
                   (rows df)))
  end.

(** [df.dropna(how='all')] *)
Definition dropna_all (df : DataFrame) : DataFrame :=
  mkDF (columns df) (List.filter (fun r => negb (forallb isna r)) (rows df)).

(** [df.rename(columns=mapping)] *)
Fixpoint assoc (k : pystr) (m : list (pystr * pystr)) : option pystr :=
  match m with
  | [] => None
  | (a, b) :: m' => if decide (k = a) then Some b else assoc k m'
  end.
Definition rename_columns (m : list (pystr * pystr)) (df : DataFrame) : DataFrame :=
  mkDF (List.map (fun c => default c (assoc c m)) (columns df)) (rows df).

(** [df.columns = labels] (one label for each column) *)
Definition set_columns (labels : list pystr) (df : DataFrame) : DataFrame :=
  mkDF labels (rows df).

(** [df[labels]]: the columns carrying the labels, in the order of the
    labels; a label that no column carries is a [KeyError]. *)
Definition select_columns (df : DataFrame) (labels : list pystr) : result DataFrame :=
  ps ← traverse (fun c => match positions c (columns df) with
                          | [] => Raise KeyError
                          | p => Ok p
                          end) labels;
  let idx := concat ps in
  Ok (mkDF (List.map (fun i => default [] (columns df !! i)) idx)
        (List.map (fun r => List.map (fun i => cell_at i r) idx) (rows df))).

(** [col in df.columns] *)
Definition has_column (df : DataFrame) (col : pystr) : bool :=
  bool_decide (col ∈ columns df).

(** ** The source parsers *)

Definition s_trust_buy : pystr := Eval cbv in utf8 "投信_買進股數".
Definition s_trust_sell : pystr := Eval cbv in utf8 "投信_賣出股數".
Definition s_trust_net : pystr := Eval cbv in utf8 "投信_買賣超股數".
Definition s_foreign_group : pystr := Eval cbv in utf8 "外資及陸資".
Definition s_foreign_buy : pystr := Eval cbv in utf8 "外資_買進股數".
Definition s_foreign_sell : pystr := Eval cbv in utf8 "外資_賣出股數".
Definition s_foreign_net : pystr := Eval cbv in utf8 "外資_買賣超股數".
Definition s_dealer_self : pystr := Eval cbv in utf8 "自營商(自行買賣)".
Definition s_dealer_hedge : pystr := Eval cbv in utf8 "自營商(避險)".
Definition s_dealer_self_buy : pystr := Eval cbv in utf8 "自營商_自行買賣_買進股數".
Definition s_dealer_self_sell : pystr := Eval cbv in utf8 "自營商_自行買賣_賣出股數".
Definition s_dealer_self_net : pystr := Eval cbv in utf8 "自營商_自行買賣_買賣超股數".
Definition s_dealer_hedge_buy : pystr := Eval cbv in utf8 "自營商_避險_買進股數".
Definition s_dealer_hedge_sell : pystr := Eval cbv in utf8 "自營商_避險_賣出股數".
Definition s_dealer_hedge_net : pystr := Eval cbv in utf8 "自營商_避險_買賣超股數".

Definition columns_to_keep : list pystr := Eval cbv in
  [ utf8 "證券代號"; utf8 "證券名稱";
    utf8 "外資及陸資買進股數"; utf8 "外資及陸資賣出股數"; utf8 "外資及陸資買賣超股數";
    utf8 "投信買進股數"; utf8 "投信賣出股數"; utf8 "投信買賣超股數";
    utf8 "自營商(自行買賣)買進股數"; utf8 "自營商(自行買賣)賣出股數";
    utf8 "自營商(自行買賣)買賣超股數";
    utf8 "自營商(避險)買進股數"; utf8 "自營商(避險)賣出股數";
    utf8 "自營商(避險)買賣超股數" ].

(** the lines of [csv_content.strip().split('\n')] *)
Definition text_lines (csv_content : pystr) : list pystr :=
  split NL (strip csv_content).

(** [[line for line in csv_content.strip().split('\n') if line.strip()]] *)
Definition nonblank_lines (csv_content : pystr) : list pystr :=
  List.filter (fun line => truthy (strip line)) (text_lines csv_content).

(** index of the first line that carries both marker tokens *)
Fixpoint find_header (tok1 tok2 : pystr) (i : nat) (lines : list pystr) : option nat :=
  match lines with
  | [] => None
  | line :: rest =>
      if contains tok1 line && contains tok2 line then Some i
      else find_header tok1 tok2 (S i) rest
  end.

(** [s.strip()] followed by the two [replace] calls that delete the
    equals signs and the double quotes *)
Definition clean_label (s : pystr) : pystr :=
  remove_char DQUOTE (remove_char EQUALS (strip s)).

(** the loop that builds the two-level column keys: [current_top_level]
    is carried from left to right, [header_line_2[i]] raises [IndexError]
    past the end of the second header line. *)
Fixpoint build_columns (current_top_level : pystr)
  (header_line_1 header_line_2 : list pystr) : result (list (pystr * pystr)) :=
  match header_line_1 with
  | [] => Ok []
  | h :: header_line_1' =>
      let top_level := clean_label h in
      let current_top_level :=
        if truthy top_level then top_level else current_top_level in
      match header_line_2 with
      | [] => Raise IndexError
      | h2 :: header_line_2' =>
          let sub_level := clean_label h2 in
          rest ← build_columns current_top_level header_line_1' header_line_2';
          Ok ((current_top_level, sub_level) :: rest)
      end
  end.

(** a table whose columns are labelled by (group, sub) pairs *)
Record MultiFrame : Type :=
  mkMF { mcolumns : list (pystr * pystr); mrows : list (list cell) }.

Definition pad_row (width : nat) (r : list cell) : list cell :=
  r ++ repeat NaN (width - length r)%nat.

(** [pd.DataFrame(data_rows, columns=pd.MultiIndex.from_tuples(columns))]:
    the rows are laid out in a block as wide as the longest row, shorter
    rows are completed with [None]; the block must be as wide as the
    column index.  An empty list of tuples cannot make a [MultiIndex]. *)
Definition make_multi (data_rows : list (list pystr))
  (columns : list (pystr * pystr)) : result MultiFrame :=
  match columns with
  | [] => Raise TypeError
  | _ :: _ =>
      match data_rows with
      | [] => Ok (mkMF columns [])
      | _ :: _ =>
          let width := foldr Nat.max 0%nat (List.map (@length pystr) data_rows) in
          if Nat.eqb width (length columns)
          then Ok (mkMF columns (List.map (fun r => pad_row width (List.map Str r)) data_rows))
          else Raise ValueError
      end
  end.

(** [df_multi[(group, sub)]] *)
Definition getitem_multi (df_multi : MultiFrame) (key : pystr * pystr) : result Series :=
  i ← unique_index key (mcolumns df_multi);
  Ok (List.map (cell_at i) (mrows df_multi)).

Section Parsers.

(** The library calls whose results the parsers consume are parameters:
    the properties below hold whatever these calls return.
    - [read_csv text] is [pd.read_csv(io.StringIO(text), thousands=',')];
    - [csv_reader line] is [list(csv.reader(io.StringIO(line)))];
    - [to_numeric s] is the value [pd.to_numeric(_, errors='coerce')]
      gives to the text [s] ([None]: not a number). *)
Variable read_csv : pystr -> result DataFrame.
Variable csv_reader : pystr -> result (list (list pystr)).
Variable to_numeric : pystr -> option Z.

Definition coerce_numeric (s : pystr) : cell :=
  match to_numeric s with
  | Some z => Num z
  | None => NaN
  end.

(** [list(csv.reader(io.StringIO(line)))[0]] *)
Definition first_record (line : pystr) : result (list pystr) :=
  rs ← csv_reader line;
  match rs with
  | [] => Raise IndexError
  | r :: _ => Ok r
  end.

(** [lines[i]] *)
Definition line_at (lines : list pystr) (i : nat) : result pystr :=
  match lines !! i with
  | Some l => Ok l
  | None => Raise IndexError
  end.

(** [df = df[~df[col].astype(str).str.contains('計')]] *)
Definition drop_totals (df : DataFrame) (col : pystr) : result DataFrame :=
  s ← getitem df col;
  Ok (boolean_index df (List.map (fun v => negb (contains s_total (astype_str v))) s)).

(** [df[col] = df[col].astype(str).str.strip()] *)
Definition strip_column (df : DataFrame) (col : pystr) : result DataFrame :=
  s ← getitem df col;
  Ok (setitem df col (List.map (fun v => Str (strip (astype_str v))) s)).

(** the loop [for col in df.columns: if '股數' in str(col): df[col] =
    pd.to_numeric(df[col].astype(str).str.replace(',', ''), errors='coerce')] *)
Fixpoint numeric_columns (cols : list pystr) (df : DataFrame) : result DataFrame :=
  match cols with
  | [] => Ok df
  | col :: rest =>
      if contains s_shares col then
        s ← getitem df col;
        numeric_columns rest
          (setitem df col
             (List.map (fun v => coerce_numeric (remove_char COMMA (astype_str v))) s))
      else numeric_columns rest df
  end.

(** the assignments [df[out] = df_multi[key]], in order *)
Fixpoint assign_from_multi (df_multi : MultiFrame)
  (fields : list (pystr * (pystr * pystr))) (df : DataFrame) : result DataFrame :=
  match fields with
  | [] => Ok df
  | (out, key) :: rest =>
      s ← getitem_multi df_multi key;
      assign_from_multi df_multi rest (setitem df out s)
  end.

Definition key_fields : list (pystr * (pystr * pystr)) :=
  [ (s_id, (s_id, s_id)); (s_name, (s_name, s_name)) ].

Definition foreign_fields : list (pystr * (pystr * pystr)) :=
  [ (s_foreign_buy, (s_foreign_group, s_buy));
    (s_foreign_sell, (s_foreign_group, s_sell));
    (s_foreign_net, (s_foreign_group, s_net)) ].

Definition dealer_fields : list (pystr * (pystr * pystr)) :=
  [ (s_dealer_self_buy, (s_dealer_self, s_buy));
    (s_dealer_self_sell, (s_dealer_self, s_sell));
    (s_dealer_self_net, (s_dealer_self, s_net));
    (s_dealer_hedge_buy, (s_dealer_hedge, s_buy));
    (s_dealer_hedge_sell, (s_dealer_hedge, s_sell));
    (s_dealer_hedge_net, (s_dealer_hedge, s_net)) ].

(** the branch [name in ['外資', '自營商']]: the header is read by hand *)
Definition parse_two_level (lines : list pystr) (header_row_index : nat)
  (name : pystr) : result DataFrame :=
  l1 ← line_at lines header_row_index;
  header_line_1 ← first_record l1;
  l2 ← line_at lines (header_row_index + 1);
  header_line_2 ← first_record l2;
  data_rows ← traverse first_record (drop (header_row_index + 2) lines);
  columns ← build_columns [] header_line_1 header_line_2;
  df_multi ← make_multi data_rows columns;
  df ← assign_from_multi df_multi key_fields empty_df;
  if decide (name = s_foreign) then assign_from_multi df_multi foreign_fields df
  else if decide (name = s_dealer) then assign_from_multi df_multi dealer_fields df
  else Ok df.

(** the branch [name == '投信'] *)
Definition parse_flat (lines : list pystr) (header_row_index : nat) : result DataFrame :=
  df ← read_csv (join [NL] (drop header_row_index lines));
  let df := set_columns (List.map clean_label (columns df)) df in
  Ok (rename_columns
        [ (s_buy, s_trust_buy); (s_sell, s_trust_sell); (s_net, s_trust_net) ] df).

(** the body of [parse_twse_csv], inside its [try] *)
Definition parse_twse_body (csv_content name : pystr) : result DataFrame :=
  let lines := nonblank_lines csv_content in
  if (length lines <? 2)%nat then Ok empty_df else
  match find_header s_id s_name 0 lines with
  | None => Ok empty_df
  | Some header_row_index =>
      df ← (if decide (name = s_trust) then parse_flat lines header_row_index
            else if decide (name = s_foreign \/ name = s_dealer)
                 then parse_two_level lines header_row_index name
                 else Ok empty_df);
      df ← drop_totals df s_id;
      df ← dropna_subset df s_id;
      df ← strip_column df s_id;
      numeric_columns (columns df) df
  end.

(** [parse_twse_csv]: every exception of the body is logged and answered
    with an empty table. *)
Definition parse_twse_csv (csv_content name : pystr) : result DataFrame :=
  match parse_twse_body csv_content name with
  | Ok df => Ok df
  | Raise _ => Ok empty_df
  end.

(** the loop over [columns_to_keep]: the labels to select, and the
    renaming of the labels that carry the unit suffix *)
Fixpoint choose_columns (df : DataFrame) (keep : list pystr)
  : list pystr * list (pystr * pystr) :=
  match keep with
  | [] => ([], [])
  | col_base :: rest =>
      let '(final_columns_to_select, rename_map_suffix) := choose_columns df rest in
      if has_column df col_base
      then (col_base :: final_columns_to_select, rename_map_suffix)
      else if has_column df (col_base ++ s_unit)
           then ((col_base ++ s_unit) :: final_columns_to_select,
                 (col_base ++ s_unit, col_base) :: rename_map_suffix)
           else (final_columns_to_select, rename_map_suffix)
  end.

(** the body of [parse_tpex_csv], inside its [try] *)
Definition parse_tpex_body (csv_content : pystr) : result DataFrame :=
  let lines := text_lines csv_content in
  if (length lines <? 2)%nat then Ok empty_df else
  match find_header s_tpex_id s_tpex_name 0 lines with
  | None => Ok empty_df
  | Some header_row_index =>
      df ← read_csv (join [NL] (drop header_row_index lines));
      let df := set_columns (List.map strip (columns df)) df in
      let df := dropna_all df in
      df ← drop_totals df s_tpex_id;
      df ← dropna_subset df s_tpex_id;
      let df := rename_columns [ (s_tpex_id, s_id); (s_tpex_name, s_name) ] df in
      df ← strip_column df s_id;
      let '(final_columns_to_select, rename_map_suffix) :=
        choose_columns df columns_to_keep in
      df ← select_columns df final_columns_to_select;
      Ok (rename_columns rename_map_suffix df)
  end.

Definition parse_tpex_csv (csv_content : pystr) : result DataFrame :=
  match parse_tpex_body csv_content with
  | Ok df => Ok df
  | Raise _ => Ok empty_df
  end.

End Parsers.

(** ** Reference behaviour of the library calls

    The examples below run the parsers with these instances: the record
    reader of the [csv] module in its default dialect, integer coercion,
    and a small table reader. *)

Inductive csv_state : Set :=
| START_RECORD | START_FIELD | IN_FIELD | IN_QUOTED_FIELD
| QUOTE_IN_QUOTED_FIELD | EAT_CRNL.

Record csv_parser : Type := mkCsv {
  cstate : csv_state;
  cfield : pystr;               (* characters of the open field, reversed *)
  cfields : list pystr;         (* fields of the open record, reversed *)
  crecords : list (list pystr)  (* finished records, reversed *)
}.

Definition CR : N := 13.

Definition save_field (p : csv_parser) (s : csv_state) : csv_parser :=
  mkCsv s [] (rev (cfield p) :: cfields p) (crecords p).
Definition add_char (c : N) (p : csv_parser) (s : csv_state) : csv_parser :=
  mkCsv s (c :: cfield p) (cfields p) (crecords p).
Definition set_state (p : csv_parser) (s : csv_state) : csv_parser :=
  mkCsv s (cfield p) (cfields p) (crecords p).

(** one step of the reader; [None] is the end-of-line event *)
Definition csv_process_char (p : csv_parser) (c : option N) : result csv_parser :=
  let is_nl := match c with Some x => (x =? NL) || (x =? CR) | None => false end in
  let after_eol := match c with None => START_RECORD | Some _ => EAT_CRNL end in
  let start_field :=
    match c with
    | None => Ok (save_field p START_RECORD)
    | Some x =>
        if is_nl then Ok (save_field p EAT_CRNL)
        else if x =? DQUOTE then Ok (set_state p IN_QUOTED_FIELD)
        else if x =? COMMA then Ok (save_field p START_FIELD)
        else Ok (add_char x p IN_FIELD)
    end in
  match cstate p with
  | START_RECORD =>
      match c with
      | None => Ok p
      | Some _ => if is_nl then Ok (set_state p EAT_CRNL) else start_field
      end
  | START_FIELD => start_field
  | IN_FIELD =>
      match c with
      | None => Ok (save_field p START_RECORD)
      | Some x =>
          if is_nl then Ok (save_field p EAT_CRNL)
          else if x =? COMMA then Ok (save_field p START_FIELD)
          else Ok (add_char x p IN_FIELD)
      end
  | IN_QUOTED_FIELD =>
      match c with
      | None => Ok p
      | Some x =>
          if x =? DQUOTE then Ok (set_state p QUOTE_IN_QUOTED_FIELD)
          else Ok (add_char x p IN_QUOTED_FIELD)
      end
  | QUOTE_IN_QUOTED_FIELD =>
      match c with
      | None => Ok (save_field p START_RECORD)
      | Some x =>
          if x =? DQUOTE then Ok (add_char x p IN_QUOTED_FIELD)
          else if x =? COMMA then Ok (save_field p START_FIELD)
          else if is_nl then Ok (save_field p after_eol)
          else Ok (add_char x p IN_FIELD)
      end
  | EAT_CRNL =>
      match c with
      | None => Ok (set_state p START_RECORD)
      | Some _ => if is_nl then Ok p else Raise LibError
      end
  end.

(** the end of a line of the underlying text: the end-of-line event, and
    the record is handed out when the reader is back at [START_RECORD] *)
Definition csv_end_of_line (p : csv_parser) : result csv_parser :=
  p ← csv_process_char p None;
  match cstate p with
  | START_RECORD => Ok (mkCsv START_RECORD [] [] (rev (cfields p) :: crecords p))
  | _ => Ok p
  end.

Fixpoint csv_run (text : pystr) (line_open : bool) (p : csv_parser)
  : result (list (list pystr)) :=
  match text with
  | [] =>
      p ← (if line_open then csv_end_of_line p else Ok p);
      match cstate p with
      | START_RECORD => Ok (rev (crecords p))
      | _ =>
          let p := save_field p START_RECORD in
          Ok (rev (rev (cfields p) :: crecords p))
      end
  | c :: text' =>
      p ← csv_process_char p (Some c);
      if c =? NL then p ← csv_end_of_line p; csv_run text' false p
      else csv_run text' true p
  end.

(** [list(csv.reader(io.StringIO(text)))] in the default dialect *)
Definition csv_excel (text : pystr) : result (list (list pystr)) :=
  csv_run text false (mkCsv START_RECORD [] [] []).

Fixpoint digits_value (s : pystr) (acc : N) : option N :=
  match s with
  | [] => Some acc
  | c :: s' =>
      if (48 <=? c) && (c <=? 57) then digits_value s' (acc * 10 + (c - 48))
      else None
  end.

(** integers in decimal notation, with an optional sign *)
Definition to_numeric_int (s : pystr) : option Z :=
  match strip s with
  | [] => None
  | 45 :: ((_ :: _) as ds) => z ← digits_value ds 0; Some (- Z.of_N z)%Z
  | 43 :: ((_ :: _) as ds) => z ← digits_value ds 0; Some (Z.of_N z)
  | ds => z ← digits_value ds 0; Some (Z.of_N z)
  end.

(** a table reader for the examples: the first record is the header, the
    other records are completed to its width, an empty field is missing,
    and a column whose fields are all integers (with thousands commas) is
    numeric. *)
Definition read_cell (numeric : bool) (s : pystr) : cell :=
  match s with
  | [] => NaN
  | _ :: _ =>
      if numeric then
        match to_numeric_int (remove_char COMMA s) with
        | Some z => Num z
        | None => Str s
        end
      else Str s
  end.

Definition column_is_numeric (body : list (list pystr)) (i : nat) : bool :=
  forallb (fun r => match r !! i with
                    | Some s =>
                        match s, to_numeric_int (remove_char COMMA s) with
                        | _ :: _, None => false
                        | _, _ => true
                        end
                    | None => true
                    end) body.

Definition read_csv_simple (text : pystr) : result DataFrame :=
  recs ← csv_excel text;
  match List.filter (fun r => negb (bool_decide (r = []))) recs with
  | [] => Raise LibError
  | header :: body =>
      if forallb (fun r => (length r <=? length header)%nat) body then
        let numeric := List.map (column_is_numeric body) (seq 0 (length header)) in
        Ok (mkDF header
              (List.map (fun r =>
                 List.map (fun i => read_cell (default false (numeric !! i))
                                      (default [] (r !! i)))
                   (seq 0 (length header))) body))
      else Raise LibError
  end.

Definition twse_ref := parse_twse_csv read_csv_simple csv_excel to_numeric_int.
Definition tpex_ref := parse_tpex_csv read_csv_simple.

(** ** The table merger *)

(** order of cells used when pandas sorts: numbers, text and timestamps
    in their own order, missing values last *)
Fixpoint pystr_leb (a b : pystr) : bool :=
  match a, b with
  | [], _ => true
  | _ :: _, [] => false
  | x :: a', y :: b' => (x <? y) || ((x =? y) && pystr_leb a' b')
  end.

Definition date_leb (a b : date) : bool :=
  (year a <? year b)
  || ((year a =? year b)
      && ((month a <? month b) || ((month a =? month b) && (day a <=? day b)))).

Definition cell_rank (c : cell) : nat :=
  match c with Num _ => 0 | Str _ => 1 | Ts _ => 2 | NaN => 3 end.

Definition cell_leb (a b : cell) : bool :=
  match a, b with
  | Num x, Num y => (x <=? y)%Z
  | Str x, Str y => pystr_leb x y
  | Ts x, Ts y => date_leb x y
  | _, _ => (cell_rank a <=? cell_rank b)%nat
  end.

Fixpoint insert_sorted {A} (le : A -> A -> bool) (x : A) (l : list A) : list A :=
  match l with
  | [] => [x]
  | y :: l' => if le x y then x :: l else y :: insert_sorted le x l'
  end.

(** a stable sort *)
Definition sort_by {A} (le : A -> A -> bool) (l : list A) : list A :=
  foldr (insert_sorted le) [] l.

Definition key_of (i1 i2 : nat) (r : list cell) : cell * cell :=
  (cell_at i1 r, cell_at i2 r).

Definition key_leb (a b : cell * cell) : bool :=
  if decide (a.1 = b.1) then cell_leb a.2 b.2 else cell_leb a.1 b.1.

Definition s_x : pystr := Eval cbv in utf8 "_x".
Definition s_y : pystr := Eval cbv in utf8 "_y".

Definition is_key (k1 k2 c : pystr) : bool :=
  bool_decide (c = k1) || bool_decide (c = k2).

(** the cells of a row away from the key columns *)
Fixpoint nonkey_cells (k1 k2 : pystr) (cols : list pystr) (r : list cell) : list cell :=
  match cols with
  | [] => []
  | c :: cols' =>
      let rest := nonkey_cells k1 k2 cols' (tail r) in
      if is_key k1 k2 c then rest else cell_at 0 r :: rest
  end.

(** a row of the right table, laid out under the columns of the left
    table: its key under the key columns, missing elsewhere *)
Definition right_only_cells (k1 k2 : pystr) (lcols : list pystr) (key : cell * cell)
  : list cell :=
  List.map (fun c => if bool_decide (c = k1) then key.1
                     else if bool_decide (c = k2) then key.2 else NaN) lcols.

(** [pd.merge(left, right, on=[k1, k2], how='outer')].  The key labels
    select one column on each side.  A label that both sides carry away
    from the keys gets the suffixes [_x] and [_y]; a suffixed label that
    repeats another label of its side is refused.  The rows are the
    matching pairs, the unmatched rows of each side completed with
    missing values, sorted by key. *)
Definition pd_merge (k1 k2 : pystr) (left right : DataFrame) : result DataFrame :=
  match positions k1 (columns left), positions k2 (columns left),
        positions k1 (columns right), positions k2 (columns right) with
  | [l1], [l2], [r1], [r2] =>
      let rcols := List.filter (fun c => negb (is_key k1 k2 c)) (columns right) in
      let overlap c := bool_decide (c ∈ columns left) && bool_decide (c ∈ rcols) in
      let llabels := List.map (fun c => if overlap c then c ++ s_x else c) (columns left) in
      let rlabels := List.map (fun c => if overlap c then c ++ s_y else c) rcols in
      let fresh_dup (old new : list pystr) :=
        existsb (fun i => bool_decide (default [] (new !! i) ∈ take i new)
                          && negb (bool_decide (default [] (old !! i) ∈ take i old)))
          (seq 0 (length new)) in
      if fresh_dup (columns left) llabels || fresh_dup rcols rlabels
      then Raise LibError
      else
        let width_r := length rcols in
        let from_left :=
          flat_map (fun l =>
            match List.filter (fun r => bool_decide (key_of r1 r2 r = key_of l1 l2 l))
                    (rows right) with
            | [] => [l ++ repeat NaN width_r]
            | ms => List.map (fun r => l ++ nonkey_cells k1 k2 (columns right) r) ms
            end) (rows left) in
        let from_right :=
          flat_map (fun r =>
            if bool_decide (key_of r1 r2 r ∈ List.map (key_of l1 l2) (rows left)) then []
            else [right_only_cells k1 k2 (columns left) (key_of r1 r2 r)
                    ++ nonkey_cells k1 k2 (columns right) r]) (rows right) in
        Ok (mkDF (llabels ++ rlabels)
              (sort_by (fun a b => key_leb (key_of l1 l2 a) (key_of l1 l2 b))
                 (from_left ++ from_right)))
  | [], _, _, _ | _, [], _, _ | _, _, [], _ | _, _, _, [] => Raise KeyError
  | _, _, _, _ => Raise ValueError
  end.

(** [col.fillna(0)] on every column labelled [col] *)
Fixpoint fillna_row (col : pystr) (cols : list pystr) (r : list cell) : list cell :=
  match cols, r with
  | c :: cols', v :: r' =>
      (if bool_decide (c = col) && isna v then Num 0 else v) :: fillna_row col cols' r'
  | _, _ => r
  end.

Definition fillna_column (df : DataFrame) (col : pystr) : DataFrame :=
  mkDF (columns df) (List.map (fillna_row col (columns df)) (rows df)).

(** the loop [for col in merged_df.columns: if '股數' in str(col): ...] *)
Fixpoint fillna_shares (cols : list pystr) (df : DataFrame) : DataFrame :=
  match cols with
  | [] => df
  | col :: rest =>
      if contains s_shares col then fillna_shares rest (fillna_column df col)
      else fillna_shares rest df
  end.

(** the loop [for df in valid_dfs[1:]: merged_df = pd.merge(...)] *)
Fixpoint merge_all (merged_df : DataFrame) (dfs : list DataFrame) : result DataFrame :=
  match dfs with
  | [] => Ok merged_df
  | df :: rest => m ← pd_merge s_id s_name merged_df df; merge_all m rest
  end.

Definition merge_dataframes (dfs : list DataFrame) : result DataFrame :=
  match dfs with
  | [] => Ok empty_df
  | _ :: _ =>
      let valid_dfs :=
        List.filter (fun df => has_column df s_id && has_column df s_name) dfs in
      match valid_dfs with
      | [] => Ok empty_df
      | first :: rest =>
          merged_df ← merge_all first rest;
          Ok (fillna_shares (columns merged_df) merged_df)
      end
  end.

(** ** Storage

    The file system is a map from paths to file contents, a set of
    directories, the list of the writes that reached it, and the faults
    the environment has in store for the coming operations (none when the
    list is empty).  A file holds a table: reading a file back gives the
    table that was written, the CSV text in between is not modelled. *)

Inductive fault : Set :=
| NoFault
| FailBefore               (* the operation fails before it changes anything *)
| FailAfter (k : nat).     (* a write fails after [k] rows went to the file *)

Record FS : Type := mkFS {
  files : gmap (list N) DataFrame;
  dirs : gset (list N);
  writes : list pystr;
  faults : list fault
}.

Definition next_fault (st : FS) : fault * FS :=
  match faults st with
  | [] => (NoFault, st)
  | f :: fs => (f, mkFS (files st) (dirs st) (writes st) fs)
  end.

(** a path that starts at the root *)
Definition absolute (s : pystr) : bool :=
  match s with
  | c :: _ => c =? SLASH
  | [] => false
  end.

(** [p / s]: an absolute right operand replaces the left one.  (The
    normalisation of [pathlib], which drops [.] components and repeated
    slashes, is not modelled: the properties that depend on the shape of
    a path are stated for names that need none, see [plain_name].) *)
Definition path_join (p s : pystr) : pystr :=
  if absolute s then s else p ++ [SLASH] ++ s.

(** a name of one path component: not empty, without a slash, and
    neither [.] nor [..] *)
Definition plain_name (s : pystr) : Prop :=
  s <> [] /\ Forall (fun c => c <> SLASH) s /\ s <> [46] /\ s <> [46; 46].

(** a directory to which [pathlib] joins a name by writing a slash
    between the two: neither empty nor [.], and not ending in a slash *)
Definition plain_dir (p : pystr) : Prop :=
  p <> [] /\ p <> [46] /\ last p <> Some SLASH.

(** the ancestors of a path, from the outermost: its prefixes before a
    slash (the root directory is the empty prefix of an absolute path) *)
Fixpoint prefixes_at_slash (acc p : pystr) : list pystr :=
  match p with
  | [] => []
  | c :: p' =>
      (if c =? SLASH then [rev acc] else []) ++ prefixes_at_slash (c :: acc) p'
  end.

(** the directory a path lies in *)
Definition parent (p : pystr) : pystr := default [] (last (prefixes_at_slash [] p)).

(** [p.exists()] *)
Definition path_exists (p : pystr) (st : FS) : bool :=
  bool_decide (p ∈ dom (files st)) || bool_decide (p ∈ dirs st).

(** no path is both a regular file and a directory *)
Definition consistent (st : FS) : Prop :=
  forall q, q ∈ dom (files st) -> q ∉ dirs st.

(** a regular file stands at the path or at one of its ancestors *)
Definition file_on_path (p : pystr) (st : FS) : bool :=
  bool_decide (p ∈ dom (files st))
  || existsb (fun q => bool_decide (q ∈ dom (files st))) (prefixes_at_slash [] p).

(** [p.mkdir(parents=True, exist_ok=True)]: the directory and its
    missing ancestors are created; a regular file at the path
    ([FileExistsError]) or at an ancestor ([NotADirectoryError]) makes
    the call fail. *)
Definition mkdir (p : pystr) (st : FS) : result unit * FS :=
  let '(f, st) := next_fault st in
  if file_on_path p st then (Raise OSError, st)
  else match f with
       | NoFault =>
           (Ok tt, mkFS (files st)
                     (dirs st ∪ {[ p ]} ∪ list_to_set (prefixes_at_slash [] p))
                     (writes st ++ [p]) (faults st))
       | _ => (Raise OSError, st)
       end.

(** [df.to_csv(p, index=False, encoding='utf-8-sig')]: the file is
    opened for writing at [p] itself, which empties it, and the rows are
    written to it one after the other. *)
Definition to_csv (df : DataFrame) (p : pystr) (st : FS) : result unit * FS :=
  if negb (bool_decide (parent p ∈ dirs st)) || bool_decide (p ∈ dirs st)
  then (Raise OSError, st)
  else
    let '(f, st) := next_fault st in
    match f with
    | NoFault =>
        (Ok tt, mkFS (<[p := df]> (files st)) (dirs st) (writes st ++ [p]) (faults st))
    | FailBefore => (Raise OSError, st)
    | FailAfter k =>
        (Raise OSError,
         mkFS (<[p := mkDF (columns df) (take k (rows df))]> (files st))
           (dirs st) (writes st ++ [p]) (faults st))
    end.

(** [pd.read_csv(p, parse_dates=['日期'])].  A file holds the table that
    reading it gives: the types that pandas infers again from the text
    of the file (a text of digits comes back as a number) are not
    modelled, so the cells of a stored table stand for the values as
    they are read. *)
Definition read_csv_dates (p : pystr) (st : FS) : result DataFrame * FS :=
  let '(f, st) := next_fault st in
  match f, files st !! p with
  | NoFault, Some df =>
      if has_column df s_date then (Ok df, st) else (Raise ValueError, st)
  | _, _ => (Raise OSError, st)
  end.

(** ** The accumulator *)

(** the cells of a row under other columns: [reindex] of [pd.concat] *)
Definition reindex_row (from to : list pystr) (r : list cell) : list cell :=
  List.map (fun c => match positions c from with
                     | i :: _ => cell_at i r
                     | [] => NaN
                     end) to.

(** [pd.concat([a, b], ignore_index=True)]: the columns are those of [a]
    followed by the new ones of [b]; tables whose labels differ are
    aligned by label, which needs labels without repetition. *)
Definition pd_concat (a b : DataFrame) : result DataFrame :=
  if decide (columns a = columns b) then Ok (mkDF (columns a) (rows a ++ rows b))
  else if bool_decide (NoDup (columns a)) && bool_decide (NoDup (columns b)) then
    let cols := columns a
                  ++ List.filter (fun c => negb (bool_decide (c ∈ columns a))) (columns b) in
    Ok (mkDF cols (List.map (reindex_row (columns a) cols) (rows a)
                     ++ List.map (reindex_row (columns b) cols) (rows b)))
  else Raise ValueError.

Fixpoint keep_last {K} `{EqDecision K} (key : list cell -> K) (rs : list (list cell))
  : list (list cell) :=
  match rs with
  | [] => []
  | r :: rs' =>
      if bool_decide (key r ∈ List.map key rs') then keep_last key rs'
      else r :: keep_last key rs'
  end.

(** [df.drop_duplicates(subset=[col], keep='last')] *)
Definition drop_duplicates_last (df : DataFrame) (col : pystr) : result DataFrame :=
  match positions col (columns df) with
  | [] => Raise KeyError
  | ps => Ok (mkDF (columns df)
                (keep_last (fun r => List.map (fun i => cell_at i r) ps) (rows df)))
  end.

(** [df.sort_values(by=col)]: one column carries the label; values of
    different kinds cannot be compared; missing values go last.  (The
    order among equal values is that of a stable sort.) *)
Definition same_kind (s : Series) : bool :=
  match List.filter (fun c => negb (isna c)) s with
  | [] => true
  | c :: cs => forallb (fun d => Nat.eqb (cell_rank d) (cell_rank c)) cs
  end.

Definition sort_values (df : DataFrame) (col : pystr) : result DataFrame :=
  match positions col (columns df) with
  | [] => Raise KeyError
  | [i] =>
      if same_kind (List.map (cell_at i) (rows df))
      then Ok (mkDF (columns df)
                 (sort_by (fun a b => cell_leb (cell_at i a) (cell_at i b)) (rows df)))
      else Raise TypeError
  | _ :: _ :: _ => Raise ValueError
  end.

Definition s_csv : pystr := Eval cbv in utf8 ".csv".

(** the body of [update_accumulation_file], inside its [try] *)
Definition update_accumulation_body (stock_id : pystr) (new_data_df : DataFrame)
  (stock_dir : pystr) (st : FS) : result unit * FS :=
  let accumulation_file := path_join stock_dir (stock_id ++ s_csv) in
  let '(combined, st) :=
    if path_exists accumulation_file st then
      let '(existing, st) := read_csv_dates accumulation_file st in
      (existing_df ← existing; pd_concat existing_df new_data_df, st)
    else (Ok new_data_df, st) in
  match (combined_df ← combined;
         deduped ← drop_duplicates_last combined_df s_date;
         sort_values deduped s_date) with
  | Raise e => (Raise e, st)
  | Ok combined_df => to_csv combined_df accumulation_file st
  end.

(** [update_accumulation_file]: an exception of the body is logged and
    the function returns. *)
Definition update_accumulation_file (stock_id : pystr) (new_data_df : DataFrame)
  (stock_dir : pystr) (st : FS) : FS :=
  snd (update_accumulation_body stock_id new_data_df stock_dir st).

(** ** The day orchestrator *)

Definition url_foreign : pystr := Eval cbv in utf8 "https://www.twse.com.tw/rwd/zh/fund/TWT38U".
Definition url_trust : pystr := Eval cbv in utf8 "https://www.twse.com.tw/rwd/zh/fund/TWT44U".
Definition url_dealer : pystr := Eval cbv in utf8 "https://www.twse.com.tw/rwd/zh/fund/TWT43U".
Definition TWSE_SOURCES : list (pystr * pystr) :=
  [ (s_foreign, url_foreign); (s_trust, url_trust); (s_dealer, url_dealer) ].
Definition TPEX_SOURCE_URL : pystr :=
  Eval cbv in utf8 "https://www.tpex.org.tw/web/stock/3insti/daily_trade/3itrade_hedge_result.php".
Definition encodings_to_try : list pystr :=
  Eval cbv in [ utf8 "utf-8-sig"; utf8 "utf-8"; utf8 "big5"; utf8 "cp950" ].

Section Orchestrator.

Variable read_csv : pystr -> result DataFrame.
Variable csv_reader : pystr -> result (list (list pystr)).
Variable to_numeric : pystr -> option Z.

(** the directory of the script, the answers of the network
    ([Raise]: a request exception), and the codecs ([None]: the bytes do
    not decode) *)
Variable ROOT_DIR : pystr.
Variable session_get : pystr -> list (pystr * pystr) -> result (list N).
Variable bytes_decode : pystr -> list N -> option pystr.

Definition TWSE_DATA_DIR : pystr :=
  path_join (path_join ROOT_DIR (utf8 "data")) (utf8 "twse_raw").
Definition TPEX_DATA_DIR : pystr :=
  path_join (path_join ROOT_DIR (utf8 "data")) (utf8 "tpex_raw").

Fixpoint try_decodings (encodings : list pystr) (content_bytes : list N) : option pystr :=
  match encodings with
  | [] => None
  | encoding :: rest =>
      match bytes_decode encoding content_bytes with
      | Some text => Some text
      | None => try_decodings rest content_bytes
      end
  end.

Definition decode_content (content_bytes : list N) : option pystr :=
  try_decodings encodings_to_try content_bytes.

Definition fetch_data (url : pystr) (params : list (pystr * pystr)) : option (list N) :=
  match session_get url params with
  | Raise _ => None
  | Ok content => if (length content <? 200)%nat then None else Some content
  end.

(** [fetch_data] and [decode_content] under the test
    [content_bytes and (content_str := decode_content(content_bytes))] *)
Definition fetch_text (url : pystr) (params : list (pystr * pystr)) : option pystr :=
  match fetch_data url params with
  | Some ((_ :: _) as content_bytes) =>
      match decode_content content_bytes with
      | Some ((_ :: _) as content_str) => Some content_str
      | _ => None
      end
  | _ => None
  end.

Fixpoint fetch_twse (params : list (pystr * pystr)) (sources : list (pystr * pystr))
  : result (list DataFrame) :=
  match sources with
  | [] => Ok []
  | (name, url) :: rest =>
      match fetch_text url params with
      | Some content_str =>
          df ← parse_twse_csv read_csv csv_reader to_numeric content_str name;
          twse_dfs ← fetch_twse params rest;
          Ok (if df_empty df then twse_dfs else df :: twse_dfs)
      | None => fetch_twse params rest
      end
  end.

(** the loop of [process_day] over the share-count columns of the
    over-the-counter table *)
Fixpoint numeric_fill_columns (cols : list pystr) (df : DataFrame) : result DataFrame :=
  match cols with
  | [] => Ok df
  | col :: rest =>
      if contains s_shares col then
        s ← getitem df col;
        numeric_fill_columns rest
          (setitem df col
             (List.map (fun v =>
                match coerce_numeric to_numeric (remove_char COMMA (astype_str v)) with
                | NaN => Num 0
                | c => c
                end) s))
      else numeric_fill_columns rest df
  end.

(** the first half of [process_day]: the two market tables of the day *)
Definition market_tables (target_date : date) : result (DataFrame * DataFrame) :=
  let date_str_twse := strftime_plain target_date in
  let date_str_tpex := roc_date target_date in
  let params_twse := [ (utf8 "date", date_str_twse); (utf8 "response", utf8 "csv") ] in
  twse_dfs ← fetch_twse params_twse TWSE_SOURCES;
  twse_market_df ←
    match twse_dfs with
    | [] => Ok empty_df
    | _ :: _ =>
        m ← merge_dataframes twse_dfs;
        Ok (if df_empty m then m else setitem_scalar m s_date (Ts target_date))
    end;
  let params_tpex :=
    [ (utf8 "d", date_str_tpex); (utf8 "t", utf8 "D"); (utf8 "o", utf8 "csv") ] in
  tpex_market_df ←
    match fetch_text TPEX_SOURCE_URL params_tpex with
    | Some content_str =>
        m ← parse_tpex_csv read_csv content_str;
        if df_empty m then Ok m
        else let m := setitem_scalar m s_date (Ts target_date) in
             numeric_fill_columns (columns m) m
    | None => Ok empty_df
    end;
  Ok (twse_market_df, tpex_market_df).

(** one turn of the loop [for stock_id, market_type in stock_map.items()] *)
Definition persist_stock (target_date : date) (twse_market_df tpex_market_df : DataFrame)
  (stock_id market_type : pystr) (st : FS) : result FS :=
  let base_dir := if decide (market_type = s_listed) then TWSE_DATA_DIR else TPEX_DATA_DIR in
  let market_df := if decide (market_type = s_listed) then twse_market_df else tpex_market_df in
  if df_empty market_df then Ok st else
  ids ← getitem market_df s_id;
  let stock_df :=
    boolean_index market_df (List.map (fun v => bool_decide (v = Str stock_id)) ids) in
  if df_empty stock_df then Ok st else
  let stock_dir := path_join base_dir stock_id in
  let daily_file := path_join stock_dir (strftime_dash target_date ++ s_csv) in
  if path_exists daily_file st then Ok st else
  match mkdir stock_dir st with
  | (Raise _, st) => Ok st
  | (Ok _, st) =>
      match to_csv stock_df daily_file st with
      | (Raise _, st) => Ok st
      | (Ok _, st) => Ok (update_accumulation_file stock_id stock_df stock_dir st)
      end
  end.

Fixpoint persist_all (target_date : date) (twse_market_df tpex_market_df : DataFrame)
  (stock_map : list (pystr * pystr)) (st : FS) : result FS :=
  match stock_map with
  | [] => Ok st
  | (stock_id, market_type) :: rest =>
      st ← persist_stock target_date twse_market_df tpex_market_df stock_id market_type st;
      persist_all target_date twse_market_df tpex_market_df rest st
  end.

Definition process_day (target_date : date) (stock_map : list (pystr * pystr)) (st : FS)
  : result FS :=
  '(twse_market_df, tpex_market_df) ← market_tables target_date;
  if df_empty twse_market_df && df_empty tpex_market_df then Ok st
  else persist_all target_date twse_market_df tpex_market_df stock_map st.

End Orchestrator.

(** ** Vocabulary of the specification *)

(** the number of lines of a text that are not blank *)
Definition count_nonblank (ls : list pystr) : nat :=
  length (List.filter (fun line => truthy (strip line)) ls).

Definition few_nonblank_lines (text : pystr) : Prop :=
  (count_nonblank (split NL text) < 2)%nat.

(** no line of the text carries both marker tokens *)
Definition no_header_line (tok1 tok2 text : pystr) : Prop :=
  forall line, In line (split NL text) ->
    ~ (contains tok1 line = true /\ contains tok2 line = true).

(** [l] occurs inside [l'] *)
Definition infix_of (l l' : pystr) : Prop := exists u v, l' = u ++ l ++ v.

(** the lines [a] of a trimmed text against the lines [b] of the text *)
Definition lines_within (a b : list pystr) : Prop :=
  count_nonblank a = count_nonblank b
  /\ forall l, In l a -> exists l', In l' b /\ infix_of l l'.

(** the identifier of a row: a text without the subtotal marker that is
    trimmed of surrounding white space *)
Definition identifier_ok (c : cell) : Prop :=
  exists s, c = Str s /\ contains s_total s = false /\ strip s = s.

(** the same, and moreover not blank *)
Definition identifier_ok_nonblank (c : cell) : Prop :=
  exists s, c = Str s /\ contains s_total s = false /\ strip s = s
            /\ truthy (strip s) = true.

(** every row of the table satisfies [P] under the identifier column *)
Definition id_column (P : cell -> Prop) (df : DataFrame) : Prop :=
  forall i r, columns df !! i = Some s_id -> In r (rows df) -> P (cell_at i r).

(** the group label in force at column [i] of the first header line: the
    nearest label at or before [i] that is not blank, none giving the
    empty label *)
Definition nearest_group (groups : list pystr) (i : nat) : pystr :=
  default [] (last (List.filter truthy (take (S i) groups))).

(** the flat (group, sub) key of every column of a two-level header *)
Definition flat_keys (header_line_1 header_line_2 : list pystr) : list (pystr * pystr) :=
  List.map (fun i => (nearest_group (List.map clean_label header_line_1) i,
                      clean_label (default [] (header_line_2 !! i))))
    (seq 0 (length header_line_1)).

(** the output fields of a two-level source and the keys they are looked
    up with *)
Definition two_level_fields (name : pystr) : list (pystr * (pystr * pystr)) :=
  key_fields ++ (if decide (name = s_foreign) then foreign_fields
                 else if decide (name = s_dealer) then dealer_fields else []).

(** the cells of a data record at the looked-up positions *)
Definition pick_fields (idxs : list nat) (r : list pystr) : list cell :=
  List.map (fun i => match r !! i with Some s => Str s | None => NaN end) idxs.

(** the date of a row, read under the date column *)
Definition date_cell (cols : list pystr) (r : list cell) : cell :=
  match positions s_date cols with
  | i :: _ => cell_at i r
  | [] => NaN
  end.

Definition rows_for_date (df : DataFrame) (d : date) : list (list cell) :=
  List.filter (fun r => bool_decide (date_cell (columns df) r = Ts d)) (rows df).

Definition date_le (cols : list pystr) (a b : list cell) : Prop :=
  cell_leb (date_cell cols a) (date_cell cols b) = true.

(** the rows are in ascending order of date *)
Definition sorted_by_date (df : DataFrame) : Prop :=
  StronglySorted (date_le (columns df)) (rows df).

(** every row has one cell for every column *)
Definition rectangular (df : DataFrame) : Prop :=
  Forall (fun r => length r = length (columns df)) (rows df).

(** a table of dated rows: distinct labels, among them the date label,
    and a calendar date in every row *)
Definition history_table (df : DataFrame) : Prop :=
  NoDup (columns df) /\ rectangular df /\ In s_date (columns df)
  /\ forall r, In r (rows df) -> exists d, date_cell (columns df) r = Ts d.

(** the table of the single row [r], dated [d] *)
Definition single_date_row (df : DataFrame) (d : date) (r : list cell) : Prop :=
  history_table df /\ rows df = [r] /\ date_cell (columns df) r = Ts d.

(** the storage answers without faults, the directory of the history
    file [acc] exists, and the file, when present, holds dated rows *)
Definition storage_ready (st : FS) (acc : pystr) : Prop :=
  faults st = [] /\ (parent acc ∈ dirs st) /\ (acc ∉ dirs st)
  /\ forall E, files st !! acc = Some E -> history_table E.

(** the columns of [pd.concat([a, b])] *)
Definition concat_columns (a b : list pystr) : list pystr :=
  a ++ List.filter (fun c => negb (bool_decide (c ∈ a))) b.

(** the pure part of the accumulator: concatenate, keep the last row of
    every date, sort by date *)
Definition accumulate (existing_df new_data_df : DataFrame) : result DataFrame :=
  combined_df ← pd_concat existing_df new_data_df;
  deduped ← drop_duplicates_last combined_df s_date;
  sort_values deduped s_date.

Definition first_write (new_data_df : DataFrame) : result DataFrame :=
  deduped ← drop_duplicates_last new_data_df s_date;
  sort_values deduped s_date.

(** the table a successful update leaves in the history file *)
Definition new_content (new_data_df : DataFrame) (existing : option DataFrame)
  : result DataFrame :=
  match existing with
  | Some existing_df => accumulate existing_df new_data_df
  | None => first_write new_data_df
  end.

(** ** Sample storage *)

Definition day1 : date := Date 2024 1 2.
Definition day2 : date := Date 2024 1 3.
Definition day3 : date := Date 2024 1 4.
Definition s_2330 : pystr := Eval cbv in utf8 "2330".
Definition dir_2330 : pystr := Eval cbv in utf8 "data/twse_raw/2330".
Definition acc_2330 : pystr := Eval cbv in path_join dir_2330 (s_2330 ++ s_csv).

Definition history_2330 : DataFrame :=
  mkDF [ s_id; s_foreign_net; s_date ]
    [ [ Str s_2330; Num 10; Ts day1 ]; [ Str s_2330; Num 20; Ts day2 ] ].

Definition row_day2 : list cell := [ Str s_2330; Num 25; Ts day2 ].
Definition row_day3 : list cell := [ Str s_2330; Num 30; Ts day3 ].
Definition new_day2 : DataFrame := mkDF [ s_id; s_foreign_net; s_date ] [ row_day2 ].
Definition new_day3 : DataFrame := mkDF [ s_id; s_foreign_net; s_date ] [ row_day3 ].

(** the storage holding the history of the security, under given faults *)
Definition storage_2330 (fl : list fault) : FS :=
  mkFS {[ acc_2330 := history_2330 ]} {[ dir_2330 ]} [] fl.

(** the daily snapshot file of a security for a date *)
Definition daily_file_of (ROOT_DIR : pystr) (target_date : date)
  (stock_id market_type : pystr) : pystr :=
  path_join
    (path_join (if decide (market_type = s_listed) then TWSE_DATA_DIR ROOT_DIR
                else TPEX_DATA_DIR ROOT_DIR) stock_id)
    (strftime_dash target_date ++ s_csv).

(** a directory of the script (a path that [pathlib] leaves as it is) *)
Definition root_here : pystr := Eval cbv in utf8 "scraper".
Definition daily_2330 : pystr := Eval cbv in daily_file_of root_here day2 s_2330 s_listed.
Definition market_day2 : DataFrame := mkDF [ s_id; s_foreign_net; s_date ] [ row_day2 ].

(** a storage in which the snapshot of the security for the day exists *)
Definition storage_with_snapshot : FS :=
  mkFS {[ daily_2330 := market_day2;
          path_join (path_join (TWSE_DATA_DIR root_here) s_2330) (s_2330 ++ s_csv)
            := history_2330 ]}
    {[ path_join (TWSE_DATA_DIR root_here) s_2330 ]} [] [].

(** the rows after the loop of the merger over the share-count columns *)
Fixpoint fillna_shares_row (todo cols : list pystr) (r : list cell) : list cell :=
  match todo with
  | [] => r
  | col :: rest =>
      if contains s_shares col then fillna_shares_row rest cols (fillna_row col cols r)
      else fillna_shares_row rest cols r
  end.

(** the cell of a row under a label; missing when no column carries it *)
Fixpoint cell_under (cols : list pystr) (r : list cell) (c : pystr) : cell :=
  match cols, r with
  | c' :: cols', v :: r' => if decide (c = c') then v else cell_under cols' r' c
  | _, _ => NaN
  end.

(** two tables have the same content: the same columns in some order,
    and the same rows in some order, a row being the cells it has under
    the labels *)
Definition same_content (a b : DataFrame) : Prop :=
  Permutation (columns a) (columns b)
  /\ exists rs, Permutation rs (rows b)
       /\ Forall2 (fun r r' => forall c,
                     cell_under (columns a) r c = cell_under (columns b) r' c)
            (rows a) rs.

Definition nonkey_columns (df : DataFrame) : list pystr :=
  List.filter (fun c => negb (is_key s_id s_name c)) (columns df).

(** a table that can take part in a merge: distinct labels, among them
    the two join keys, and rectangular *)
Definition keyed_table (df : DataFrame) : Prop :=
  NoDup (columns df) /\ rectangular df /\ In s_id (columns df) /\ In s_name (columns df).

(** tables that all carry the join keys and whose other labels are
    pairwise distinct *)
Definition mergeable (dfs : list DataFrame) : Prop :=
  Forall keyed_table dfs /\ NoDup (concat (List.map nonkey_columns dfs)).

(** *** Rows as records

    The record of a row maps every label to the cell under it, missing
    cells left out.  The outer join is stated on records: [outer_join]
    on whole tables, [otimes] on the rows of one key. *)

Fixpoint view (cols : list pystr) (r : list cell) : gmap (list N) cell :=
  match cols, r with
  | c :: cols', v :: r' =>
      if isna v then delete c (view cols' r') else <[c := v]> (view cols' r')
  | _, _ => ∅
  end.

Definition cell_opt (v : cell) : option cell := if isna v then None else Some v.

Definition keyv (m : gmap (list N) cell) : option cell * option cell :=
  (m !! s_id, m !! s_name).

Definition grp (k : option cell * option cell) (X : list (gmap (list N) cell))
  : list (gmap (list N) cell) :=
  List.filter (fun m => bool_decide (keyv m = k)) X.

Definition cross (G H : list (gmap (list N) cell)) : list (gmap (list N) cell) :=
  flat_map (fun g => List.map (fun h => g ∪ h) H) G.

Definition otimes (G H : list (gmap (list N) cell)) : list (gmap (list N) cell) :=
  match G, H with
  | [], _ => H
  | _, [] => G
  | _ :: _, _ :: _ => cross G H
  end.

Definition outer_join (A B : list (gmap (list N) cell)) : list (gmap (list N) cell) :=
  flat_map (fun l => match grp (keyv l) B with
                     | [] => [l]
                     | ms => List.map (fun r => l ∪ r) ms
                     end) A
  ++ flat_map (fun r => if bool_decide (keyv r ∈ List.map keyv A) then [] else [r]) B.

(** the zero cells the merger adds under the share-count columns *)
Definition zero_fill (cols : list pystr) : gmap (list N) cell :=
  list_to_map (List.map (fun c => (c, Num 0)) (List.filter (contains s_shares) cols)).

(** the records of the rows of a table *)
Definition views (df : DataFrame) : list (gmap (list N) cell) :=
  List.map (view (columns df)) (rows df).

(** the join of the rows of one key over a list of tables *)
Definition bigotimes (gs : list (list (gmap (list N) cell))) : list (gmap (list N) cell) :=
  foldr otimes [] gs.

(** records of two lists can be united in either order *)
Definition commute (G H : list (gmap (list N) cell)) : Prop :=
  forall g h, In g G -> In h H -> g ∪ h = h ∪ g.

(** the rows of key [k] of a table, with the labels of the table away
    from the keys *)
Definition group_ok (k : option cell * option cell)
  (p : list pystr * list (gmap (list N) cell)) : Prop :=
  forall g, In g p.2 ->
    keyv g = k /\ forall c, is_Some (g !! c) -> c = s_id \/ c = s_name \/ In c p.1.

Definition key_group (k : option cell * option cell) (df : DataFrame)
  : list pystr * list (gmap (list N) cell) :=
  (nonkey_columns df, grp k (views df)).

(** ** Orders and records *)

(** the order a boolean comparison decides *)
Definition leR {A : Type} (le : A -> A -> bool) (a b : A) : Prop := le a b = true.

(** a row as a record, and the pair of join keys of one *)
Abbreviation Row := (gmap (list N) cell).
Abbreviation Key := (option cell * option cell)%type.

(** ** Sample documents and tables *)

(** a document without a header line, and one with a single line of text *)
Definition text_no_header : pystr := Eval cbv in
  utf8 "查無資料" ++ [NL] ++ utf8 "a,b,c" ++ [NL] ++ utf8 "1,2,3".

Definition text_one_line : pystr := Eval cbv in
  [NL; 32] ++ utf8 "證券代號,證券名稱,買進股數" ++ [13; NL; NL].

(** a two-level document, read under a source name of no branch *)
Definition text_foreign_bad_name : pystr := Eval cbv in
  utf8 "證券代號,證券名稱,外資及陸資,," ++ [NL]
  ++ utf8 "證券代號,證券名稱,買進股數,賣出股數,買賣超股數" ++ [NL]
  ++ utf8 "2330,台積電,1000,500,500".

(** a two-level document whose second data record has no identifier *)
Definition text_foreign : pystr := Eval cbv in
  utf8 "證券代號,證券名稱,外資及陸資,," ++ [13; NL]
  ++ utf8 "證券代號,證券名稱,買進股數,賣出股數,買賣超股數" ++ [13; NL]
  ++ utf8 "2330,台積電,1000,500,500" ++ [13; NL]
  ++ utf8 ",未編號,7,3,4" ++ [13; NL]
  ++ utf8 "合計,,1007,503,504" ++ [13; NL].

Definition out_foreign : DataFrame := Eval vm_compute in
  mkDF [ s_id; s_name; s_foreign_buy; s_foreign_sell; s_foreign_net ]
    [ [ Str (utf8 "2330"); Str (utf8 "台積電"); Num 1000; Num 500; Num 500 ];
      [ Str []; Str (utf8 "未編號"); Num 7; Num 3; Num 4 ] ].

(** the same records in a single-header document of the trust source *)
Definition text_trust : pystr := Eval cbv in
  utf8 "證券代號,證券名稱,買進股數,賣出股數,買賣超股數" ++ [13; NL]
  ++ utf8 "2330,台積電,1000,500,500" ++ [13; NL]
  ++ utf8 ",未編號,7,3,4" ++ [13; NL]
  ++ utf8 "合計,,1007,503,504" ++ [13; NL].

Definition out_trust : DataFrame := Eval vm_compute in
  mkDF [ s_id; s_name; s_trust_buy; s_trust_sell; s_trust_net ]
    [ [ Str (utf8 "2330"); Str (utf8 "台積電"); Num 1000; Num 500; Num 500 ] ].

(** two tables of one source each *)
Definition s_2317 : pystr := Eval cbv in utf8 "2317".
Definition s_tsmc : pystr := Eval cbv in utf8 "TSMC".
Definition s_honhai : pystr := Eval cbv in utf8 "HonHai".

Definition trust_sample : DataFrame :=
  mkDF [s_id; s_name; s_trust_net]
       [ [Str s_2330; Str s_tsmc; Num 5] ].

Definition foreign_sample : DataFrame :=
  mkDF [s_id; s_name; s_foreign_net]
       [ [Str s_2317; Str s_honhai; Num 7];
         [Str s_2330; Str s_tsmc; Num (-3)] ].

Definition merged_sample : DataFrame :=
  mkDF [s_id; s_name; s_trust_net; s_foreign_net]
       [ [Str s_2317; Str s_honhai; Num 0; Num 7];
         [Str s_2330; Str s_tsmc; Num 5; Num (-3)] ].

(** ** Paths of a security *)

(** the directory of a security, and its history file *)
Definition stock_dir_of (ROOT_DIR stock_id market_type : pystr) : pystr :=
  path_join (if decide (market_type = s_listed) then TWSE_DATA_DIR ROOT_DIR
             else TPEX_DATA_DIR ROOT_DIR) stock_id.

Definition history_file_of (ROOT_DIR stock_id market_type : pystr) : pystr :=
  path_join (stock_dir_of ROOT_DIR stock_id market_type) (stock_id ++ s_csv).

(** the paths [process_day] may write for a security on a date *)
Definition paths_of (ROOT_DIR : pystr) (target_date : date) (stock_id market_type : pystr)
  : list pystr :=
  [ stock_dir_of ROOT_DIR stock_id market_type;
    daily_file_of ROOT_DIR target_date stock_id market_type;
    history_file_of ROOT_DIR stock_id market_type ].

(** ** Answers of the network *)

(** a request that gives [process_day] nothing to parse: it fails, its
    body is shorter than 200 bytes, or no codec of the list decodes it *)
Definition no_answer (session_get : pystr -> list (pystr * pystr) -> result (list N))
  (bytes_decode : pystr -> list N -> option pystr)
  (url : pystr) (params : list (pystr * pystr)) : Prop :=
  match session_get url params with
  | Raise _ => True
  | Ok content =>
      (length content < 200)%nat
      \/ forall encoding, In encoding encodings_to_try -> bytes_decode encoding content = None
  end.

(** ** Turns of the persistence loop that do nothing *)

(** the conditions under which the loop of [process_day] passes over a
    security: its market table is empty or has no row for it, its daily
    snapshot exists, or a file stands where its directory or an ancestor
    of it should be *)
Definition skips (ROOT_DIR : pystr) (target_date : date)
  (twse_market_df tpex_market_df : DataFrame) (stock_id market_type : pystr) (st : FS)
  : Prop :=
  let market_df := if decide (market_type = s_listed) then twse_market_df
                   else tpex_market_df in
  df_empty market_df = true
  \/ exists ids,
       getitem market_df s_id = Ok ids
       /\ (df_empty (boolean_index market_df
                       (List.map (fun v => bool_decide (v = Str stock_id)) ids)) = true
           \/ path_exists (daily_file_of ROOT_DIR target_date stock_id market_type) st = true
           \/ file_on_path (stock_dir_of ROOT_DIR stock_id market_type) st = true).

(** ** A sample network

    Only the publisher of the foreign-investor table answers; its body
    is the UTF-8 text of a two-level document of more than 200 bytes. *)

Definition bytes_of (s : string) : list N :=
  List.map N_of_ascii (list_ascii_of_string s).

Definition body_foreign : list N := Eval cbv in
  bytes_of "證券代號,證券名稱,外資及陸資,," ++ [13; NL]
  ++ bytes_of "證券代號,證券名稱,買進股數,賣出股數,買賣超股數" ++ [13; NL]
  ++ bytes_of "2330,台積電,1000,500,500" ++ [13; NL]
  ++ bytes_of "2317,鴻海,2000,100,1900" ++ [13; NL]
  ++ bytes_of "2454,聯發科,,40,-40" ++ [13; NL]
  ++ bytes_of "合計,,3000,640,2360" ++ [13; NL].

Definition session_sample (url : pystr) (params : list (pystr * pystr)) : result (list N) :=
  if decide (url = url_foreign) then Ok body_foreign else Raise OSError.

Definition decode_sample (encoding : pystr) (content_bytes : list N) : option pystr :=
  if decide (encoding = utf8 "utf-8-sig" \/ encoding = utf8 "utf-8")
  then Some (utf8_decode content_bytes) else None.

(** the day of the sample storage, run on a storage that holds one
    file of another origin *)
Definition s_notes : pystr := Eval cbv in utf8 "./notes.csv".
Definition storage_notes : FS := mkFS {[ s_notes := market_day2 ]} ∅ [] [].

Definition process_day_sample (stock_map : list (pystr * pystr)) (st : FS) : result FS :=
  process_day read_csv_simple csv_excel to_numeric_int root_here
    session_sample decode_sample day2 stock_map st.

Definition s_otc : pystr := Eval cbv in utf8 "上櫃".
Definition stock_map_sample : list (pystr * pystr) := [ (s_2330, s_listed); (s_2317, s_otc) ].

Definition snapshot_2330 : DataFrame :=
  mkDF [ s_id; s_name; s_foreign_buy; s_foreign_sell; s_foreign_net; s_date ]
       [ [ Str s_2330; Str (utf8 "台積電"); Num 1000; Num 500; Num 500; Ts day2 ] ].

(** the storage after the day *)
Definition storage_day2 : FS :=
  mkFS {[ s_notes := market_day2;
          daily_2330 := snapshot_2330;
          history_file_of root_here s_2330 s_listed := snapshot_2330 ]}
       {[ utf8 "scraper"; utf8 "scraper/data"; utf8 "scraper/data/twse_raw";
          stock_dir_of root_here s_2330 s_listed ]}
       [ stock_dir_of root_here s_2330 s_listed; daily_2330;
         history_file_of root_here s_2330 s_listed ]
       [].

(** the listed market table of the sample day *)
Definition market_sample : DataFrame :=
  mkDF [ s_id; s_name; s_foreign_buy; s_foreign_sell; s_foreign_net; s_date ]
       [ [ Str s_2330; Str (utf8 "台積電"); Num 1000; Num 500; Num 500; Ts day2 ];
         [ Str s_2317; Str (utf8 "鴻海"); Num 2000; Num 100; Num 1900; Ts day2 ];
         [ Str (utf8 "2454"); Str (utf8 "聯發科"); Num 0; Num 40; Num (-40); Ts day2 ] ].

(** ** Cells after the merger *)

(** what the merger leaves of a cell under the label [c]: a missing
    share count becomes zero *)
Definition fill_zero (c : pystr) (v : cell) : cell :=
  if contains s_shares c && isna v then Num 0 else v.

(** the pair of join keys of a row *)
Definition key_cells (cols : list pystr) (r : list cell) : cell * cell :=
  (cell_under cols r s_id, cell_under cols r s_name).

(** ** Share counts *)

(** a number or a missing value *)
Definition numeric_cell (c : cell) : Prop :=
  match c with
  | Num _ | NaN => True
  | _ => False
  end.

(** every cell under a share-count column satisfies [P] *)
Definition shares_column (P : cell -> Prop) (df : DataFrame) : Prop :=
  forall i c r, columns df !! i = Some c -> contains s_shares c = true ->
                In r (rows df) -> P (cell_at i r).

(** an over-the-counter document with a unit suffix, a column to drop
    and a subtotal line *)
Definition text_tpex : pystr := Eval cbv in
  utf8 "代號,名稱,外資及陸資買進股數(股),投信買進股數,備註" ++ [13; NL]
  ++ utf8 "6488,環球晶,1000,20,x" ++ [13; NL]
  ++ utf8 "5347, 世界,abc,,y" ++ [13; NL]
  ++ utf8 "合計,,1000,20," ++ [13; NL].

Definition out_tpex : DataFrame :=
  mkDF [ s_id; s_name; utf8 "外資及陸資買進股數"; utf8 "投信買進股數" ]
       [ [ Str (utf8 "6488"); Str (utf8 "環球晶"); Str (utf8 "1000"); Num 20 ];
         [ Str (utf8 "5347"); Str (utf8 " 世界"); Str (utf8 "abc"); NaN ] ].

(** the sample network of the over-the-counter publisher *)
Definition body_tpex : list N := Eval cbv in
  bytes_of "代號,名稱,外資及陸資買進股數(股),外資及陸資賣出股數(股),投信買進股數,備註"
  ++ [13; NL]
  ++ bytes_of "6488,環球晶,1000,30,20,x" ++ [13; NL]
  ++ bytes_of "5347, 世界,abc,7,,y" ++ [13; NL]
  ++ bytes_of "3105,穩懋,50,60,70,z" ++ [13; NL]
  ++ bytes_of "8069,元太,1,2,3,w" ++ [13; NL]
  ++ bytes_of "合計,,1051,99,93," ++ [13; NL].

Definition session_tpex (url : pystr) (params : list (pystr * pystr)) : result (list N) :=
  if decide (url = TPEX_SOURCE_URL) then Ok body_tpex else Raise OSError.

Definition market_tpex : DataFrame :=
  mkDF [ s_id; s_name; utf8 "外資及陸資買進股數"; utf8 "外資及陸資賣出股數";
         utf8 "投信買進股數"; s_date ]
       [ [ Str (utf8 "6488"); Str (utf8 "環球晶"); Num 1000; Num 30; Num 20; Ts day2 ];
         [ Str (utf8 "5347"); Str (utf8 " 世界"); Num 0; Num 7; Num 0; Ts day2 ];
         [ Str (utf8 "3105"); Str (utf8 "穩懋"); Num 50; Num 60; Num 70; Ts day2 ];
         [ Str (utf8 "8069"); Str (utf8 "元太"); Num 1; Num 2; Num 3; Ts day2 ] ].

(** a number *)
Definition number_cell (c : cell) : Prop := exists z, c = Num z.

(** ** The rows of a security *)

(** [twse_market_df if market_type == '上市' else tpex_market_df] *)
Definition market_of (market_type : pystr) (twse_market_df tpex_market_df : DataFrame)
  : DataFrame :=
  if decide (market_type = s_listed) then twse_market_df else tpex_market_df.

(** [market_df[market_df['證券代號'] == stock_id]], given the identifier
    column [ids] of the market table *)
Definition stock_rows (market_df : DataFrame) (stock_id : pystr) (ids : Series) : DataFrame :=
  boolean_index market_df (List.map (fun v => bool_decide (v = Str stock_id)) ids).

(** * Properties *)

(** ** Text *)

Example s_id_points : s_id = [35657; 21048; 20195; 34399].
Proof. reflexivity. Qed.

Example split_lines :
  split NL (utf8 "a,b" ++ [NL] ++ [NL] ++ utf8 "c") = [utf8 "a,b"; []; utf8 "c"].
Proof. reflexivity. Qed.

Example strip_ideographic_space :
  strip ([12288; 32] ++ utf8 "2330" ++ [13; 10]) = utf8 "2330".
Proof. reflexivity. Qed.

Example str_of_Z_ex : str_of_Z (-1203) = utf8 "-1203" /\ str_of_Z 0 = utf8 "0".
Proof. split; reflexivity. Qed.

Lemma isspace_NL : isspace NL = true.
Proof. reflexivity. Qed.

Lemma lstrip_spec s :
  exists pre, s = pre ++ lstrip s /\ forallb isspace pre = true.
Proof.
  induction s as [|c s IH]; simpl.
  - exists []. split; reflexivity.
  - destruct (isspace c) eqn:Hc.
    + destruct IH as (pre & Hs & Hpre). exists (c :: pre). simpl.
      rewrite Hc, Hpre. split; [congruence | reflexivity].
    + exists []. split; reflexivity.
Qed.

Lemma lstrip_head s c s' : lstrip s = c :: s' -> isspace c = false.
Proof.
  induction s as [|x s IH]; simpl; [discriminate|].
  destruct (isspace x) eqn:Hx; [exact IH|]. intros [= -> _]. exact Hx.
Qed.

Lemma lstrip_nil_iff s : lstrip s = [] <-> forallb isspace s = true.
Proof.
  induction s as [|c s IH]; simpl; [tauto|].
  destruct (isspace c); simpl; [exact IH|]. split; discriminate.
Qed.

Lemma forallb_rev {A} (f : A -> bool) l : forallb f (rev l) = forallb f l.
Proof.
  induction l as [|x l IH]; simpl; [reflexivity|].
  rewrite forallb_app, IH. simpl. rewrite andb_true_r. apply andb_comm.
Qed.

Lemma rstrip_spec s :
  exists suf, s = rstrip s ++ suf /\ forallb isspace suf = true.
Proof.
  unfold rstrip. destruct (lstrip_spec (rev s)) as (pre & Hs & Hpre).
  exists (rev pre). split.
  - rewrite <- rev_app_distr, <- Hs, rev_involutive. reflexivity.
  - rewrite forallb_rev. exact Hpre.
Qed.

Lemma strip_spec t :
  exists pre suf, t = pre ++ strip t ++ suf
    /\ forallb isspace pre = true /\ forallb isspace suf = true.
Proof.
  destruct (lstrip_spec t) as (pre & Ht & Hpre).
  destruct (rstrip_spec (lstrip t)) as (suf & Hl & Hsuf).
  exists pre, suf. unfold strip. rewrite <- Hl. auto.
Qed.

(** a stripped text is empty, or begins and ends with a character that
    is not white space *)
Lemma rstrip_last s m d : rstrip s = m ++ [d] -> isspace d = false.
Proof.
  unfold rstrip. intros H.
  assert (H' : lstrip (rev s) = d :: rev m).
  { rewrite <- (rev_involutive (lstrip (rev s))), H, rev_app_distr. reflexivity. }
  exact (lstrip_head _ _ _ H').
Qed.

Lemma rstrip_head c s' :
  isspace c = false -> exists s'', rstrip (c :: s') = c :: s''.
Proof.
  intros Hc. destruct (rstrip_spec (c :: s')) as (suf & Hs & Hsuf).
  destruct (rstrip (c :: s')) as [|x r] eqn:Hr.
  - simpl in Hs. subst suf. simpl in Hsuf. rewrite Hc in Hsuf. discriminate.
  - simpl in Hs. injection Hs as -> _. eauto.
Qed.

Lemma strip_ends t :
  strip t = [] \/
  exists c m, strip t = c :: m /\ isspace c = false
    /\ exists m' d, strip t = m' ++ [d] /\ isspace d = false.
Proof.
  unfold strip. destruct (lstrip t) as [|c s] eqn:Hl.
  - left. reflexivity.
  - right. pose proof (lstrip_head _ _ _ Hl) as Hc.
    destruct (rstrip_head c s Hc) as (s'' & Hr).
    exists c, s''. split; [exact Hr|]. split; [exact Hc|].
    destruct (exists_last (l := rstrip (c :: s))) as (m' & d & Hm).
    { rewrite Hr. discriminate. }
    exists m', d. split; [exact Hm|]. exact (rstrip_last _ _ _ Hm).
Qed.

Lemma truthy_strip l : truthy (strip l) = negb (forallb isspace l).
Proof.
  destruct (strip_spec l) as (pre & suf & Hl & Hpre & Hsuf).
  destruct (strip_ends l) as [Hn | (c & m & Hs & Hc & _)].
  - rewrite Hn. simpl. rewrite Hl at 1. rewrite Hn. simpl.
    rewrite forallb_app, Hpre, Hsuf. reflexivity.
  - rewrite Hs. simpl. rewrite Hl, Hs. rewrite !forallb_app. simpl.
    rewrite Hc. simpl. rewrite andb_false_r. reflexivity.
Qed.

(** *** [split] *)

Lemma split_nonempty sep s : split sep s <> [].
Proof.
  destruct s as [|c s]; simpl; [discriminate|].
  destruct (c =? sep); [discriminate|]. destruct (split sep s); discriminate.
Qed.

Lemma split_cons sep c s :
  split sep (c :: s) =
    if c =? sep then [] :: split sep s
    else (c :: hd [] (split sep s)) :: tl (split sep s).
Proof.
  simpl. destruct (c =? sep); [reflexivity|].
  pose proof (split_nonempty sep s). destruct (split sep s); [contradiction|reflexivity].
Qed.

Lemma split_snoc sep s c :
  split sep (s ++ [c]) =
    if c =? sep then split sep s ++ [[]]
    else removelast (split sep s) ++ [List.last (split sep s) [] ++ [c]].
Proof.
  induction s as [|x s IH].
  - simpl. destruct (c =? sep); reflexivity.
  - change ((x :: s) ++ [c]) with (x :: (s ++ [c])).
    rewrite !split_cons, IH.
    pose proof (split_nonempty sep s) as Hne.
    destruct (split sep s) as [|l ls] eqn:Hs; [contradiction|].
    destruct (x =? sep), (c =? sep); simpl; try reflexivity.
    all: destruct ls as [|l2 ls]; simpl; try reflexivity.
    all: destruct (removelast (l2 :: ls) ++ [List.last (l2 :: ls) [] ++ [c]]) eqn:E;
      [|reflexivity].
    all: destruct (removelast (l2 :: ls)); discriminate.
Qed.

(** *** Lines of a text and of its trimmed form *)

Lemma infix_refl l : infix_of l l.
Proof. exists [], []. simpl. rewrite app_nil_r. reflexivity. Qed.

Lemma infix_trans a b c : infix_of a b -> infix_of b c -> infix_of a c.
Proof.
  intros (u & v & ->) (u' & v' & ->). exists (u' ++ u), (v ++ v').
  rewrite <- !app_assoc. reflexivity.
Qed.

Lemma lines_within_refl a : lines_within a a.
Proof. split; [reflexivity|]. intros l Hl. exists l. split; [exact Hl | apply infix_refl]. Qed.

Lemma lines_within_trans a b c :
  lines_within a b -> lines_within b c -> lines_within a c.
Proof.
  intros [Hab Iab] [Hbc Ibc]. split; [congruence|].
  intros l Hl. destruct (Iab l Hl) as (l' & Hl' & Hi).
  destruct (Ibc l' Hl') as (l'' & Hl'' & Hi'). exists l''.
  split; [exact Hl'' | eapply infix_trans; eassumption].
Qed.

Lemma truthy_strip_cons_ws c l :
  isspace c = true -> truthy (strip (c :: l)) = truthy (strip l).
Proof. intros Hc. rewrite !truthy_strip. simpl. rewrite Hc. reflexivity. Qed.

Lemma truthy_strip_snoc_ws c l :
  isspace c = true -> truthy (strip (l ++ [c])) = truthy (strip l).
Proof.
  intros Hc. rewrite !truthy_strip, forallb_app. simpl.
  rewrite Hc, !andb_true_r. reflexivity.
Qed.

Lemma lines_cons_ws c m :
  isspace c = true -> lines_within (split NL m) (split NL (c :: m)).
Proof.
  intros Hc. rewrite split_cons.
  pose proof (split_nonempty NL m) as Hne.
  destruct (split NL m) as [|l ls]; [contradiction|].
  destruct (c =? NL).
  - split.
    + unfold count_nonblank. simpl. reflexivity.
    + intros x Hx. exists x. split; [right; exact Hx | apply infix_refl].
  - split.
    + unfold count_nonblank. simpl. rewrite (truthy_strip_cons_ws c l Hc).
      destruct (truthy (strip l)); reflexivity.
    + intros x [<- | Hx].
      * exists (c :: l). split; [left; reflexivity|]. exists [c], []. simpl.
        rewrite app_nil_r. reflexivity.
      * exists x. split; [right; exact Hx | apply infix_refl].
Qed.

Lemma removelast_last_split (ls : list pystr) :
  ls <> [] -> ls = removelast ls ++ [List.last ls []].
Proof. apply app_removelast_last. Qed.

Lemma lines_snoc_ws m c :
  isspace c = true -> lines_within (split NL m) (split NL (m ++ [c])).
Proof.
  intros Hc. rewrite split_snoc.
  pose proof (split_nonempty NL m) as Hne.
  destruct (c =? NL).
  - split.
    + unfold count_nonblank. rewrite List.filter_app, length_app. simpl. lia.
    + intros x Hx. exists x. split; [apply in_or_app; left; exact Hx | apply infix_refl].
  - pose proof (removelast_last_split _ Hne) as Hsplit.
    set (ini := removelast (split NL m)) in *. set (la := List.last (split NL m) []) in *.
    rewrite Hsplit. split.
    + unfold count_nonblank. rewrite !List.filter_app, !length_app. simpl.
      rewrite (truthy_strip_snoc_ws c la Hc).
      destruct (truthy (strip la)); reflexivity.
    + intros x Hx. apply in_app_or in Hx. destruct Hx as [Hx | [<- | []]].
      * exists x. split; [apply in_or_app; left; exact Hx | apply infix_refl].
      * exists (la ++ [c]). split; [apply in_or_app; right; left; reflexivity|].
        exists [], [c]. reflexivity.
Qed.

Lemma lines_prefix pre m :
  forallb isspace pre = true -> lines_within (split NL m) (split NL (pre ++ m)).
Proof.
  induction pre as [|c pre IH]; simpl; intros H.
  - apply lines_within_refl.
  - apply andb_prop in H. destruct H as [Hc Hpre].
    eapply lines_within_trans; [exact (IH Hpre)|]. apply lines_cons_ws. exact Hc.
Qed.

Lemma lines_suffix m suf :
  forallb isspace suf = true -> lines_within (split NL m) (split NL (m ++ suf)).
Proof.
  induction suf as [|c suf IH] using rev_ind; intros H.
  - rewrite app_nil_r. apply lines_within_refl.
  - rewrite forallb_app in H. apply andb_prop in H. destruct H as [Hsuf Hc].
    simpl in Hc. rewrite andb_true_r in Hc.
    eapply lines_within_trans; [exact (IH Hsuf)|].
    rewrite app_assoc. apply lines_snoc_ws. exact Hc.
Qed.

Lemma lines_strip t : lines_within (split NL (strip t)) (split NL t).
Proof.
  destruct (strip_spec t) as (pre & suf & Ht & Hpre & Hsuf).
  rewrite Ht at 2.
  eapply lines_within_trans; [apply (lines_suffix _ suf Hsuf)|].
  apply lines_prefix. exact Hpre.
Qed.

(** *** Substrings *)

Lemma startswith_app n h v : startswith n h = true -> startswith n (h ++ v) = true.
Proof.
  revert h. induction n as [|a n IH]; intros [|b h]; simpl; try reflexivity; try discriminate.
  intros H. apply andb_prop in H. destruct H as [-> H]. simpl. exact (IH _ H).
Qed.

Lemma contains_app_r n h v : contains n h = true -> contains n (h ++ v) = true.
Proof.
  induction h as [|b h IH]; simpl.
  - rewrite orb_false_r. intros H. destruct n; [|discriminate].
    destruct v; reflexivity.
  - intros H. apply orb_prop in H. destruct H as [H | H].
    + change (b :: h ++ v) with ((b :: h) ++ v). rewrite (startswith_app _ _ _ H). reflexivity.
    + rewrite (IH H). apply orb_true_r.
Qed.

Lemma contains_app_l n u h : contains n h = true -> contains n (u ++ h) = true.
Proof.
  intros H. induction u as [|c u IH]; simpl; [exact H|].
  rewrite IH. apply orb_true_r.
Qed.

Lemma contains_infix n l l' : infix_of l l' -> contains n l = true -> contains n l' = true.
Proof. intros (u & v & ->) H. apply contains_app_l, contains_app_r, H. Qed.

Lemma find_header_none tok1 tok2 i lines :
  (forall l, In l lines -> ~ (contains tok1 l = true /\ contains tok2 l = true)) ->
  find_header tok1 tok2 i lines = None.
Proof.
  revert i. induction lines as [|l lines IH]; intros i H; simpl; [reflexivity|].
  destruct (contains tok1 l && contains tok2 l) eqn:E.
  - apply andb_prop in E. exfalso. apply (H l); [left; reflexivity | exact E].
  - apply IH. intros l' Hl'. apply H. right. exact Hl'.
Qed.

Lemma no_header_text_lines tok1 tok2 text :
  no_header_line tok1 tok2 text ->
  forall l, In l (text_lines text) -> ~ (contains tok1 l = true /\ contains tok2 l = true).
Proof.
  intros H l Hl [H1 H2]. destruct (lines_strip text) as [_ Hin].
  destruct (Hin l Hl) as (l' & Hl' & Hi).
  apply (H l' Hl'). split; eapply contains_infix; eassumption.
Qed.

Lemma length_nonblank_lines text :
  length (nonblank_lines text) = count_nonblank (split NL text).
Proof. destruct (lines_strip text) as [H _]. exact H. Qed.

(** a trimmed text of two lines or more has two lines that are not blank *)
Lemma split_head_nonblank c m :
  isspace c = false -> truthy (strip (hd [] (split NL (c :: m)))) = true.
Proof.
  intros Hc. rewrite split_cons.
  destruct (c =? NL) eqn:E.
  - apply N.eqb_eq in E. subst c. discriminate.
  - simpl. rewrite truthy_strip. simpl. rewrite Hc. reflexivity.
Qed.

Lemma split_last_nonblank m d :
  isspace d = false -> truthy (strip (List.last (split NL (m ++ [d])) [])) = true.
Proof.
  intros Hd. rewrite split_snoc.
  destruct (d =? NL) eqn:E.
  - apply N.eqb_eq in E. subst d. discriminate.
  - rewrite last_last, truthy_strip, forallb_app. simpl. rewrite Hd.
    rewrite andb_false_r. reflexivity.
Qed.

Lemma count_nonblank_two (ls : list pystr) :
  (2 <= length ls)%nat ->
  truthy (strip (hd [] ls)) = true ->
  truthy (strip (List.last ls [])) = true ->
  (2 <= count_nonblank ls)%nat.
Proof.
  intros H Ha Hl. destruct ls as [|a [|b ls]]; simpl in H; try lia.
  cbn [hd] in Ha.
  change (List.last (a :: b :: ls) []) with (List.last (b :: ls) []) in Hl.
  unfold count_nonblank.
  set (f := fun line : pystr => truthy (strip line)) in *.
  assert (E : List.filter f (a :: b :: ls) = a :: List.filter f (b :: ls)).
  { change (List.filter f (a :: b :: ls))
      with (if f a then a :: List.filter f (b :: ls) else List.filter f (b :: ls)).
    unfold f at 1. rewrite Ha. reflexivity. }
  rewrite E. clear E.
  assert (In (List.last (b :: ls) []) (b :: ls)) as Hin.
  { clear. revert b. induction ls as [|x ls IH]; intros b; simpl; [auto|].
    right. apply IH. }
  assert (In (List.last (b :: ls) []) (List.filter f (b :: ls))) as Hf.
  { apply List.filter_In. split; [exact Hin | exact Hl]. }
  destruct (List.filter f (b :: ls)); [destruct Hf|].
  simpl. lia.
Qed.

Lemma text_lines_two text :
  (2 <= length (text_lines text))%nat -> (2 <= count_nonblank (split NL text))%nat.
Proof.
  intros H. destruct (lines_strip text) as [<- _]. fold (text_lines text).
  unfold text_lines in *.
  destruct (strip_ends text) as [Hn | (c & m & Hs & Hc & m' & d & Hs' & Hd)].
  - rewrite Hn in H. simpl in H. lia.
  - apply count_nonblank_two; [exact H | |].
    + rewrite Hs. apply split_head_nonblank, Hc.
    + rewrite Hs'. apply split_last_nonblank, Hd.
Qed.

(** ** The parsers: absent data and unknown sources *)

Section ParserTotality.

Variable read_csv : pystr -> result DataFrame.
Variable csv_reader : pystr -> result (list (list pystr)).
Variable to_numeric : pystr -> option Z.

Lemma nonblank_lines_no_header text :
  no_header_line s_id s_name text ->
  find_header s_id s_name 0 (nonblank_lines text) = None.
Proof.
  intros H. apply find_header_none. intros l Hl.
  apply (no_header_text_lines _ _ _ H). unfold nonblank_lines in Hl.
  apply List.filter_In in Hl. tauto.
Qed.

Lemma twse_body_empty_without_header text name :
  few_nonblank_lines text \/ no_header_line s_id s_name text ->
  parse_twse_body read_csv csv_reader to_numeric text name = Ok empty_df.
Proof.
  intros H. unfold parse_twse_body.
  destruct (length (nonblank_lines text) <? 2)%nat eqn:E; [reflexivity|].
  destruct H as [H | H].
  - exfalso. apply Nat.ltb_ge in E. rewrite length_nonblank_lines in E.
    unfold few_nonblank_lines in H. lia.
  - rewrite (nonblank_lines_no_header _ H). reflexivity.
Qed.

Lemma tpex_body_empty_without_header text :
  few_nonblank_lines text \/ no_header_line s_tpex_id s_tpex_name text ->
  parse_tpex_body read_csv text = Ok empty_df.
Proof.
  intros H. unfold parse_tpex_body.
  destruct (length (text_lines text) <? 2)%nat eqn:E; [reflexivity|].
  destruct H as [H | H].
  - exfalso. apply Nat.ltb_ge in E. apply text_lines_two in E.
    unfold few_nonblank_lines in H. lia.
  - rewrite (find_header_none _ _ _ _ (no_header_text_lines _ _ _ H)). reflexivity.
Qed.

(** C8. Absent data is not an error: a text with fewer than two lines
    that are not blank, or without a line that carries both marker
    tokens of the parser (the identifier label and the name label),
    makes [parse_twse_csv] (for every source name) and [parse_tpex_csv]
    return the empty table; no exception reaches the caller. *)
Theorem parsers_empty_not_error (text name : pystr) :
  (few_nonblank_lines text \/ no_header_line s_id s_name text ->
   parse_twse_csv read_csv csv_reader to_numeric text name = Ok empty_df)
  /\ (few_nonblank_lines text \/ no_header_line s_tpex_id s_tpex_name text ->
      parse_tpex_csv read_csv text = Ok empty_df).
Proof.
  split; intros H.
  - unfold parse_twse_csv. rewrite (twse_body_empty_without_header _ _ H). reflexivity.
  - unfold parse_tpex_csv. rewrite (tpex_body_empty_without_header _ H). reflexivity.
Qed.

Lemma getitem_empty col : getitem empty_df col = Raise KeyError.
Proof. reflexivity. Qed.

Lemma twse_body_unknown_source text name :
  name <> s_trust -> name <> s_foreign -> name <> s_dealer ->
  parse_twse_body read_csv csv_reader to_numeric text name = Ok empty_df
  \/ exists e, parse_twse_body read_csv csv_reader to_numeric text name = Raise e.
Proof.
  intros Ht Hf Hd. unfold parse_twse_body.
  destruct (length (nonblank_lines text) <? 2)%nat; [left; reflexivity|].
  destruct (find_header s_id s_name 0 (nonblank_lines text)); [|left; reflexivity].
  right. exists KeyError.
  destruct (decide (name = s_trust)) as [|_]; [contradiction|].
  destruct (decide (name = s_foreign \/ name = s_dealer)) as [[|]|_]; try contradiction.
  reflexivity.
Qed.

(** C10. [parse_twse_csv] is total: for every text and every source
    name it returns a table, no exception reaches its caller; with a
    source name other than the three known ones the table is empty. *)
Theorem parse_twse_csv_total (text name : pystr) :
  (exists df, parse_twse_csv read_csv csv_reader to_numeric text name = Ok df)
  /\ (name <> s_trust -> name <> s_foreign -> name <> s_dealer ->
      parse_twse_csv read_csv csv_reader to_numeric text name = Ok empty_df).
Proof.
  split.
  - unfold parse_twse_csv.
    destruct (parse_twse_body read_csv csv_reader to_numeric text name); eauto.
  - intros Ht Hf Hd. unfold parse_twse_csv.
    destruct (twse_body_unknown_source text name Ht Hf Hd) as [-> | [e ->]]; reflexivity.
Qed.

End ParserTotality.

Lemma parsers_empty_not_error_witness :
  (twse_ref text_no_header s_foreign = Ok empty_df
   /\ tpex_ref text_no_header = Ok empty_df)
  /\ (twse_ref text_one_line s_trust = Ok empty_df
      /\ tpex_ref text_one_line = Ok empty_df).
Proof.
  split; split.
  - apply (parsers_empty_not_error read_csv_simple csv_excel to_numeric_int
             text_no_header s_foreign).
    right. intros line Hl [H1 H2]. vm_compute in Hl.
    repeat (destruct Hl as [<- | Hl]; [vm_compute in H1; discriminate|]). destruct Hl.
  - apply (parsers_empty_not_error read_csv_simple csv_excel to_numeric_int
             text_no_header s_foreign).
    right. intros line Hl [H1 H2]. vm_compute in Hl.
    repeat (destruct Hl as [<- | Hl]; [vm_compute in H1; discriminate|]). destruct Hl.
  - apply (parsers_empty_not_error read_csv_simple csv_excel to_numeric_int
             text_one_line s_trust).
    left. unfold few_nonblank_lines. vm_compute. lia.
  - apply (parsers_empty_not_error read_csv_simple csv_excel to_numeric_int
             text_one_line s_trust).
    left. unfold few_nonblank_lines. vm_compute. lia.
Defined.

Lemma parse_twse_csv_total_witness :
  twse_ref text_foreign_bad_name (utf8 "融資") = Ok empty_df.
Proof.
  apply (parse_twse_csv_total read_csv_simple csv_excel to_numeric_int
           text_foreign_bad_name (utf8 "融資")); vm_compute; discriminate.
Defined.

(** ** Tables *)

Lemma positions_from_spec {A} `{EqDecision A} (x : A) l k p :
  In p (positions_from k x l) <-> exists j, p = (k + j)%nat /\ l !! j = Some x.
Proof.
  revert k. induction l as [|y l IH]; intros k; simpl.
  - split; [intros [] | intros (j & _ & Hj); discriminate].
  - destruct (decide (x = y)) as [->|Hne].
    + simpl. rewrite IH. split.
      * intros [<- | (j & -> & Hj)].
        -- exists 0%nat. split; [lia | reflexivity].
        -- exists (S j). split; [lia | exact Hj].
      * intros (j & -> & Hj). destruct j as [|j].
        -- left. lia.
        -- right. exists j. split; [lia | exact Hj].
    + rewrite IH. split.
      * intros (j & -> & Hj). exists (S j). split; [lia | exact Hj].
      * intros (j & -> & Hj). destruct j as [|j].
        -- simpl in Hj. congruence.
        -- exists j. split; [lia | exact Hj].
Qed.

Lemma positions_spec {A} `{EqDecision A} (x : A) l p :
  In p (positions x l) <-> l !! p = Some x.
Proof.
  unfold positions. rewrite positions_from_spec. split.
  - intros (j & -> & Hj). exact Hj.
  - intros Hp. exists p. split; [reflexivity | exact Hp].
Qed.

Lemma positions_singleton {A} `{EqDecision A} (x : A) l i :
  positions x l = [i] -> l !! i = Some x /\ forall j, l !! j = Some x -> j = i.
Proof.
  intros H. split.
  - apply positions_spec. rewrite H. left. reflexivity.
  - intros j Hj. apply positions_spec in Hj. rewrite H in Hj.
    destruct Hj as [<- | []]. reflexivity.
Qed.

Lemma unique_index_Ok {A} `{EqDecision A} (x : A) l i :
  unique_index x l = Ok i -> positions x l = [i].
Proof.
  unfold unique_index. destruct (positions x l) as [|a [|b t]]; try discriminate.
  intros [= ->]. reflexivity.
Qed.

Lemma zip_rows_map f (rs : list (list cell)) (g : list cell -> cell) :
  zip_rows f rs (List.map g rs) = List.map (fun r => f r (g r)) rs.
Proof. induction rs as [|r rs IH]; simpl; [reflexivity | rewrite IH; reflexivity]. Qed.

Lemma boolean_index_rows_map (p : list cell -> bool) rs :
  boolean_index_rows rs (List.map p rs) = List.filter p rs.
Proof.
  induction rs as [|r rs IH]; simpl; [reflexivity|].
  rewrite IH. reflexivity.
Qed.

Lemma cell_at_insert_eq i v (r : list cell) :
  (i < length r)%nat -> cell_at i (<[i := v]> r) = v.
Proof. intros H. unfold cell_at. rewrite list_lookup_insert_eq; [reflexivity | exact H]. Qed.

Lemma cell_at_insert_ne i j v (r : list cell) :
  i <> j -> cell_at j (<[i := v]> r) = cell_at j r.
Proof. intros H. unfold cell_at. rewrite list_lookup_insert_ne; [reflexivity | exact H]. Qed.

Lemma cell_at_app_l j (r : list cell) v :
  (j < length r)%nat -> cell_at j (r ++ [v]) = cell_at j r.
Proof. intros H. unfold cell_at. rewrite lookup_app_l; [reflexivity | exact H]. Qed.

Lemma cell_at_notna i (r : list cell) : isna (cell_at i r) = false -> (i < length r)%nat.
Proof.
  unfold cell_at. destruct (r !! i) eqn:E; simpl.
  - intros _. eapply lookup_lt_Some. exact E.
  - discriminate.
Qed.

(** *** Trimmed text *)

Lemma lstrip_id c m : isspace c = false -> lstrip (c :: m) = c :: m.
Proof. intros H. simpl. rewrite H. reflexivity. Qed.

Lemma rstrip_id m d : isspace d = false -> rstrip (m ++ [d]) = m ++ [d].
Proof.
  intros H. unfold rstrip. rewrite rev_app_distr. simpl. rewrite H.
  change (d :: rev m) with ([d] ++ rev m). rewrite rev_app_distr, rev_involutive.
  reflexivity.
Qed.

Lemma strip_idempotent s : strip (strip s) = strip s.
Proof.
  destruct (strip_ends s) as [-> | (c & m & Hs & Hc & m' & d & Hs' & Hd)]; [reflexivity|].
  unfold strip at 1. rewrite Hs, (lstrip_id _ _ Hc), <- Hs, Hs'. apply rstrip_id, Hd.
Qed.

Lemma strip_infix s : infix_of (strip s) s.
Proof. destruct (strip_spec s) as (pre & suf & H & _). exists pre, suf. exact H. Qed.

Lemma strip_no_total s : contains s_total s = false -> contains s_total (strip s) = false.
Proof.
  intros H. destruct (contains s_total (strip s)) eqn:E; [|reflexivity].
  rewrite (contains_infix _ _ _ (strip_infix s) E) in H. discriminate.
Qed.

(** ** The parsers: the identifier column *)

Section ParserRows.

Variable read_csv : pystr -> result DataFrame.
Variable csv_reader : pystr -> result (list (list pystr)).
Variable to_numeric : pystr -> option Z.

Lemma rows_drop_totals df col out :
  drop_totals df col = Ok out ->
  exists i, positions col (columns df) = [i] /\ columns out = columns df
    /\ rows out = List.filter (fun r => negb (contains s_total (astype_str (cell_at i r))))
                    (rows df).
Proof.
  unfold drop_totals, getitem. destruct (unique_index col (columns df)) as [i|e] eqn:E;
    simpl; [|discriminate].
  intros [= <-]. exists i. split; [exact (unique_index_Ok _ _ _ E)|].
  split; [reflexivity|]. simpl. rewrite List.map_map. apply boolean_index_rows_map.
Qed.

Lemma rows_dropna_subset df col i out :
  positions col (columns df) = [i] ->
  dropna_subset df col = Ok out ->
  columns out = columns df
  /\ rows out = List.filter (fun r => negb (isna (cell_at i r))) (rows df).
Proof.
  unfold dropna_subset. intros ->. intros [= <-]. split; [reflexivity|]. simpl.
  apply List.filter_ext. intros r. simpl. apply andb_true_r.
Qed.

Lemma setitem_existing df col i s :
  positions col (columns df) = [i] ->
  setitem df col s = mkDF (columns df) (zip_rows (fun r v => <[i := v]> r) (rows df) s).
Proof.
  intros H. unfold setitem. rewrite H.
  destruct (columns df); [discriminate H | reflexivity].
Qed.

Lemma rows_strip_column df col i out :
  positions col (columns df) = [i] ->
  strip_column df col = Ok out ->
  columns out = columns df
  /\ rows out = List.map (fun r => <[i := Str (strip (astype_str (cell_at i r)))]> r) (rows df).
Proof.
  intros H. unfold strip_column, getitem, unique_index. rewrite H. simpl.
  intros [= <-]. rewrite (setitem_existing _ _ _ _ H). split; [reflexivity|]. simpl.
  rewrite List.map_map. apply zip_rows_map.
Qed.

Lemma s_id_not_shares : contains s_shares s_id = false.
Proof. reflexivity. Qed.

(** the numeric coercion leaves the identifier column alone *)
Lemma numeric_columns_id i (P : cell -> Prop) cols df out :
  positions s_id (columns df) = [i] ->
  (forall r, In r (rows df) -> P (cell_at i r)) ->
  numeric_columns to_numeric cols df = Ok out ->
  columns out = columns df /\ (forall r, In r (rows out) -> P (cell_at i r)).
Proof.
  revert df. induction cols as [|col cols IH]; intros df Hi HP; simpl.
  - intros [= <-]. auto.
  - destruct (contains s_shares col) eqn:Hc; [|apply IH; assumption].
    unfold getitem. destruct (unique_index col (columns df)) as [j|e] eqn:Ej;
      simpl; [|discriminate].
    apply unique_index_Ok in Ej. rewrite (setitem_existing _ _ _ _ Ej).
    rewrite List.map_map, zip_rows_map. intros Hrec.
    apply IH in Hrec; [exact Hrec | exact Hi |].
    simpl. intros r Hr. apply in_map_iff in Hr. destruct Hr as (r0 & <- & Hr0).
    assert (j <> i) as Hne.
    { intros ->. apply positions_singleton in Ej, Hi. destruct Ej as [Ej _], Hi as [Hi _].
      rewrite Ej in Hi. injection Hi as ->. rewrite s_id_not_shares in Hc. discriminate. }
    rewrite cell_at_insert_ne; [apply HP, Hr0 | exact Hne].
Qed.

(** the common tail of the parsers of the exchange *)
Lemma twse_tail_id df df1 df2 df3 out :
  drop_totals df s_id = Ok df1 ->
  dropna_subset df1 s_id = Ok df2 ->
  strip_column df2 s_id = Ok df3 ->
  numeric_columns to_numeric (columns df3) df3 = Ok out ->
  id_column identifier_ok out.
Proof.
  intros H1 H2 H3 H4.
  destruct (rows_drop_totals _ _ _ H1) as (i & Hi & Hc1 & Hr1).
  assert (positions s_id (columns df1) = [i]) as Hi1 by (rewrite Hc1; exact Hi).
  destruct (rows_dropna_subset _ _ _ _ Hi1 H2) as (Hc2 & Hr2).
  assert (positions s_id (columns df2) = [i]) as Hi2 by (rewrite Hc2; exact Hi1).
  destruct (rows_strip_column _ _ _ _ Hi2 H3) as (Hc3 & Hr3).
  assert (positions s_id (columns df3) = [i]) as Hi3 by (rewrite Hc3; exact Hi2).
  assert (forall r, In r (rows df3) -> identifier_ok (cell_at i r)) as Hok.
  { intros r Hr. rewrite Hr3 in Hr. apply in_map_iff in Hr.
    destruct Hr as (r0 & <- & Hr0). rewrite Hr2 in Hr0.
    apply List.filter_In in Hr0. destruct Hr0 as [Hr0 Hna].
    rewrite Hr1 in Hr0. apply List.filter_In in Hr0. destruct Hr0 as [_ Htot].
    apply negb_true_iff in Hna, Htot.
    rewrite cell_at_insert_eq by (apply cell_at_notna, Hna).
    eexists. split; [reflexivity|]. split; [apply strip_no_total, Htot|].
    apply strip_idempotent. }
  destruct (numeric_columns_id i identifier_ok _ _ _ Hi3 Hok H4) as (Hc4 & Hr4).
  intros k r Hk Hr. rewrite Hc4 in Hk.
  apply positions_singleton in Hi3. destruct Hi3 as [_ Hu]. rewrite (Hu k Hk).
  apply Hr4, Hr.
Qed.

Lemma id_column_empty P : id_column P empty_df.
Proof. intros i r _ []. Qed.

Lemma twse_id_column text name out :
  parse_twse_csv read_csv csv_reader to_numeric text name = Ok out ->
  id_column identifier_ok out.
Proof.
  unfold parse_twse_csv, parse_twse_body.
  destruct (length (nonblank_lines text) <? 2)%nat.
  { intros [= <-]. apply id_column_empty. }
  destruct (find_header s_id s_name 0 (nonblank_lines text)) as [h|].
  2:{ intros [= <-]. apply id_column_empty. }
  set (branch := if decide (name = s_trust) then _ else _).
  destruct branch as [df|e]; simpl; [|intros [= <-]; apply id_column_empty].
  destruct (drop_totals df s_id) as [df1|e] eqn:H1; simpl;
    [|intros [= <-]; apply id_column_empty].
  destruct (dropna_subset df1 s_id) as [df2|e] eqn:H2; simpl;
    [|intros [= <-]; apply id_column_empty].
  destruct (strip_column df2 s_id) as [df3|e] eqn:H3; simpl;
    [|intros [= <-]; apply id_column_empty].
  destruct (numeric_columns to_numeric (columns df3) df3) as [df4|e] eqn:H4;
    intros [= <-]; [|apply id_column_empty].
  eapply twse_tail_id; eassumption.
Qed.

(** *** The over-the-counter parser *)

Lemma assoc_In k v m : assoc k m = Some v -> In (k, v) m.
Proof.
  induction m as [|[a b] m IH]; simpl; [discriminate|].
  destruct (decide (k = a)) as [->|_].
  - intros [= ->]. left. reflexivity.
  - intros H. right. apply IH, H.
Qed.

Lemma choose_columns_renames df keep a b :
  In (a, b) (snd (choose_columns df keep)) ->
  a = b ++ s_unit /\ has_column df b = false.
Proof.
  induction keep as [|c keep IH]; simpl; [intros []|].
  destruct (choose_columns df keep) as [fin ren]. simpl in IH.
  destruct (has_column df c) eqn:Hc; simpl; [exact IH|].
  destruct (has_column df (c ++ s_unit)); simpl; [|exact IH].
  intros [[= <- <-] | H]; [split; [reflexivity | exact Hc] | apply IH, H].
Qed.

Lemma traverse_positions (cols : list pystr) labels ps :
  traverse (fun c => match positions c cols with
                     | [] => Raise KeyError
                     | p => Ok p
                     end) labels = Ok ps ->
  forall p, In p (concat ps) -> exists c, In c labels /\ cols !! p = Some c.
Proof.
  revert ps. induction labels as [|c labels IH]; intros ps; simpl.
  - intros [= <-] p [].
  - destruct (positions c cols) as [|q qs] eqn:Hq; simpl; [discriminate|].
    match goal with |- context [traverse ?f labels] =>
      destruct (traverse f labels) as [ps'|e] eqn:Ht end; simpl; [|discriminate].
    intros [= <-] p Hp. change (In p ((q :: qs) ++ concat ps')) in Hp.
    apply in_app_or in Hp. destruct Hp as [Hp | Hp].
    + exists c. split; [left; reflexivity|]. apply positions_spec. rewrite Hq. exact Hp.
    + destruct (IH ps' eq_refl p Hp) as (c' & Hc' & Hl). exists c'.
      split; [right; exact Hc' | exact Hl].
Qed.

Lemma rows_select_columns df labels out :
  select_columns df labels = Ok out ->
  exists idx,
    (forall p, In p idx -> exists c, In c labels /\ columns df !! p = Some c)
    /\ columns out = List.map (fun i => default [] (columns df !! i)) idx
    /\ rows out = List.map (fun r => List.map (fun i => cell_at i r) idx) (rows df).
Proof.
  unfold select_columns.
  match goal with |- context [traverse ?f labels] =>
    destruct (traverse f labels) as [ps|e] eqn:Ht end; simpl; [|discriminate].
  intros [= <-]. exists (concat ps). split; [|split; reflexivity].
  exact (traverse_positions _ _ _ Ht).
Qed.

Lemma cell_at_map (f : nat -> cell) idx k p :
  idx !! k = Some p -> cell_at k (List.map f idx) = f p.
Proof.
  intros H. unfold cell_at.
  change (List.map f idx) with (f <$> idx). rewrite list_lookup_fmap, H. reflexivity.
Qed.

Lemma positions_map_rename (ren : pystr -> pystr) cols i0 i :
  positions s_tpex_id cols = [i0] ->
  ren s_tpex_id = s_id ->
  positions s_id (List.map ren cols) = [i] -> i = i0.
Proof.
  intros H0 Hren Hi. apply positions_singleton in H0, Hi.
  destruct H0 as [H0 _], Hi as [_ Hu]. symmetry. apply Hu.
  change (List.map ren cols) with (ren <$> cols). rewrite list_lookup_fmap, H0.
  simpl. rewrite Hren. reflexivity.
Qed.

Lemma tpex_id_column text out :
  parse_tpex_csv read_csv text = Ok out -> id_column identifier_ok out.
Proof.
  unfold parse_tpex_csv, parse_tpex_body.
  destruct (length (text_lines text) <? 2)%nat.
  { intros [= <-]. apply id_column_empty. }
  destruct (find_header s_tpex_id s_tpex_name 0 (text_lines text)) as [h|].
  2:{ intros [= <-]. apply id_column_empty. }
  destruct (read_csv _) as [df0|e]; cbn [mbind result_bind];
    [|intros [= <-]; apply id_column_empty].
  set (df := dropna_all _).
  destruct (drop_totals df s_tpex_id) as [df1|e] eqn:H1; cbn [mbind result_bind];
    [|intros [= <-]; apply id_column_empty].
  destruct (dropna_subset df1 s_tpex_id) as [df2|e] eqn:H2; cbn [mbind result_bind];
    [|intros [= <-]; apply id_column_empty].
  set (ren := [(s_tpex_id, s_id); (s_tpex_name, s_name)]).
  destruct (strip_column (rename_columns ren df2) s_id) as [df3|e] eqn:H3;
    cbn [mbind result_bind]; [|intros [= <-]; apply id_column_empty].
  destruct (choose_columns df3 columns_to_keep) as [fin rmap] eqn:Hch.
  destruct (select_columns df3 fin) as [df4|e] eqn:H4; cbn [mbind result_bind];
    intros [= <-]; [|apply id_column_empty].
  destruct (rows_drop_totals _ _ _ H1) as (i0 & Hi & Hc1 & Hr1).
  assert (positions s_tpex_id (columns df1) = [i0]) as Hi1 by (rewrite Hc1; exact Hi).
  destruct (rows_dropna_subset _ _ _ _ Hi1 H2) as (Hc2 & Hr2).
  assert (positions s_tpex_id (columns df2) = [i0]) as Hi2 by (rewrite Hc2; exact Hi1).
  assert (exists i, positions s_id (columns (rename_columns ren df2)) = [i]) as [i Hi3].
  { unfold strip_column, getitem in H3.
    destruct (unique_index s_id (columns (rename_columns ren df2))) as [i|e] eqn:E;
      [|discriminate]. exists i. apply unique_index_Ok, E. }
  assert (i = i0) as ->.
  { eapply positions_map_rename; [exact Hi2 | | exact Hi3]. reflexivity. }
  destruct (rows_strip_column _ _ _ _ Hi3 H3) as (Hc3 & Hr3).
  assert (positions s_id (columns df3) = [i0]) as Hi4 by (rewrite Hc3; exact Hi3).
  destruct (rows_select_columns _ _ _ H4) as (idx & Hidx & Hc4 & Hr4).
  intros k r Hk Hr. simpl in Hk, Hr.
  change (List.map ?f ?l) with (f <$> l) in Hk.
  rewrite list_lookup_fmap in Hk.
  destruct (columns df4 !! k) as [c'|] eqn:Ek; [|discriminate]. simpl in Hk.
  rewrite Hc4 in Ek. change (List.map ?f ?l) with (f <$> l) in Ek.
  rewrite list_lookup_fmap in Ek.
  destruct (idx !! k) as [p|] eqn:Ep; [|discriminate]. simpl in Ek.
  destruct (Hidx p) as (c & _ & Hcp). { eapply list_elem_of_In, list_elem_of_lookup_2, Ep. }
  assert (c' = c) as ->.
  { injection Ek as <-. unfold pystr in *. rewrite Hcp. reflexivity. }
  clear Ek. injection Hk as Hk.
  assert (p = i0) as ->.
  { apply positions_singleton in Hi4. destruct Hi4 as [Hid Hu]. apply Hu.
    destruct (assoc c rmap) as [v|] eqn:Ea; simpl in Hk.
    - subst v. apply assoc_In in Ea.
      pose proof (choose_columns_renames df3 columns_to_keep c s_id) as Hren.
      rewrite Hch in Hren. destruct (Hren Ea) as [_ Hno].
      unfold has_column in Hno. apply bool_decide_eq_false in Hno.
      exfalso. apply Hno. eapply list_elem_of_lookup_2, Hid.
    - subst c. exact Hcp. }
  rewrite Hr4 in Hr. apply in_map_iff in Hr. destruct Hr as (r3 & <- & Hr3').
  rewrite (cell_at_map _ _ _ _ Ep).
  rewrite Hr3 in Hr3'. apply in_map_iff in Hr3'. destruct Hr3' as (r2 & <- & Hr2').
  simpl in Hr2'. rewrite Hr2 in Hr2'. apply List.filter_In in Hr2'.
  destruct Hr2' as [Hr1' Hna]. rewrite Hr1 in Hr1'. apply List.filter_In in Hr1'.
  destruct Hr1' as [_ Htot]. apply negb_true_iff in Hna, Htot.
  rewrite cell_at_insert_eq by (apply cell_at_notna, Hna).
  eexists. split; [reflexivity|]. split; [apply strip_no_total, Htot|].
  apply strip_idempotent.
Qed.

(** X20. The identifiers of the parsers' rows: in every table that
    [parse_twse_csv] (under any source name) or [parse_tpex_csv]
    returns, every row carries under the identifier column a text that
    does not contain the subtotal marker and is trimmed of surrounding
    white space. *)
Theorem parser_identifier_invariant (text name : pystr) (out : DataFrame) :
  parse_twse_csv read_csv csv_reader to_numeric text name = Ok out
  \/ parse_tpex_csv read_csv text = Ok out ->
  id_column identifier_ok out.
Proof.
  intros [H | H]; [eapply twse_id_column | eapply tpex_id_column]; eassumption.
Qed.

End ParserRows.

(** ** The two-level header *)

Lemma last_filter_cons (x : pystr) (l : list pystr) (cur : pystr) :
  default cur (last (List.filter truthy (x :: l)))
  = default (if truthy x then x else cur) (last (List.filter truthy l)).
Proof.
  simpl. destruct (truthy x); [|reflexivity].
  rewrite last_cons. destruct (last (List.filter truthy l)); reflexivity.
Qed.

(** the loop of the parser computes the forward fill *)
Lemma build_columns_fill cur h1 h2 cols :
  build_columns cur h1 h2 = Ok cols ->
  (length h1 <= length h2)%nat
  /\ cols = List.map (fun i =>
              (default cur (last (List.filter truthy (take (S i) (List.map clean_label h1)))),
               clean_label (default [] (h2 !! i))))
            (seq 0 (length h1)).
Proof.
  revert cur h2 cols. induction h1 as [|h h1 IH]; intros cur h2 cols; simpl.
  - intros [= <-]. split; [lia | reflexivity].
  - destruct h2 as [|g h2]; [discriminate|].
    destruct (build_columns (if truthy (clean_label h) then clean_label h else cur) h1 h2)
      as [rest|e] eqn:E; cbn [mbind result_bind]; [|discriminate].
    intros [= <-]. destruct (IH _ _ _ E) as [Hlen ->]. split; [simpl; lia|].
    f_equal.
    + f_equal. destruct (truthy (clean_label h)); reflexivity.
    + rewrite <- seq_shift, List.map_map. apply List.map_ext. intros i.
      f_equal. change (take (S (S i)) (clean_label h :: List.map clean_label h1))
        with (clean_label h :: take (S i) (List.map clean_label h1)).
      symmetry. apply last_filter_cons.
Qed.

Lemma build_columns_flat_keys h1 h2 cols :
  build_columns [] h1 h2 = Ok cols ->
  (length h1 <= length h2)%nat /\ cols = flat_keys h1 h2.
Proof. apply build_columns_fill. Qed.

Lemma positions_nil {A} `{EqDecision A} (x : A) l : ~ In x l -> positions x l = [].
Proof.
  intros H. destruct (positions x l) as [|p ps] eqn:E; [reflexivity|].
  exfalso. assert (In p (positions x l)) as Hp by (rewrite E; left; reflexivity).
  apply positions_spec in Hp. apply H. eapply list_elem_of_In, list_elem_of_lookup_2, Hp.
Qed.

Lemma cell_at_pad w (r : list pystr) i :
  cell_at i (pad_row w (List.map Str r)) = match r !! i with Some s => Str s | None => NaN end.
Proof.
  unfold cell_at, pad_row. destruct (r !! i) as [s|] eqn:E.
  - rewrite lookup_app_l.
    + change (List.map Str r) with (Str <$> r). rewrite list_lookup_fmap, E. reflexivity.
    + rewrite length_map. eapply lookup_lt_Some, E.
  - apply lookup_ge_None in E. rewrite lookup_app_r by (rewrite length_map; exact E).
    destruct (repeat NaN (w - length (List.map Str r)) !! (i - length (List.map Str r)))%nat
      as [c|] eqn:E'; [|reflexivity].
    apply list_elem_of_lookup_2, list_elem_of_In, repeat_spec in E'. subst c. reflexivity.
Qed.

Lemma pick_padded w idxs (l : list (list pystr)) :
  List.map (fun r => List.map (fun i => cell_at i r) idxs)
    (List.map (fun r => pad_row w (List.map Str r)) l)
  = List.map (pick_fields idxs) l.
Proof.
  rewrite List.map_map. apply List.map_ext. intros r.
  unfold pick_fields. apply List.map_ext. intros i. apply cell_at_pad.
Qed.

Lemma make_multi_rows data_rows cols mf :
  make_multi data_rows cols = Ok mf ->
  mcolumns mf = cols
  /\ forall idxs,
       List.map (fun r => List.map (fun i => cell_at i r) idxs) (mrows mf)
       = List.map (pick_fields idxs) data_rows.
Proof.
  unfold make_multi. destruct cols as [|c cols]; [discriminate|].
  destruct data_rows as [|d ds].
  - intros [= <-]. split; reflexivity.
  - set (w := foldr Nat.max 0%nat _). cbv zeta.
    destruct (Nat.eqb w _); [|discriminate]. intros H.
    assert (mf = mkMF (c :: cols)
                   (List.map (fun r => pad_row w (List.map Str r)) (d :: ds))) as ->
      by congruence.
    split; [reflexivity|]. intros idxs. apply pick_padded.
Qed.

(** the assignments append one column for each field *)
Lemma assign_from_multi_rows mf fields : forall df0 done out,
  columns df0 <> [] ->
  NoDup (columns df0 ++ List.map fst fields) ->
  rows df0 = List.map (fun r => List.map (fun i => cell_at i r) done) (mrows mf) ->
  assign_from_multi mf fields df0 = Ok out ->
  exists idxs,
    Forall2 (fun f i => positions (snd f) (mcolumns mf) = [i]) fields idxs
    /\ columns out = columns df0 ++ List.map fst fields
    /\ rows out = List.map (fun r => List.map (fun i => cell_at i r) (done ++ idxs)) (mrows mf).
Proof.
  induction fields as [|[o key] fields IH]; intros df0 done out Hne Hnd Hrows; simpl.
  - intros [= <-]. exists []. rewrite !app_nil_r. split; [constructor | auto].
  - unfold getitem_multi.
    destruct (unique_index key (mcolumns mf)) as [i|e] eqn:Ei;
      cbn [mbind result_bind]; [|discriminate].
    apply unique_index_Ok in Ei.
    assert (setitem df0 o (List.map (cell_at i) (mrows mf))
            = mkDF (columns df0 ++ [o])
                (List.map (fun r => List.map (fun i => cell_at i r) (done ++ [i])) (mrows mf)))
      as Hset.
    { unfold setitem. destruct (columns df0) as [|c0 cs0] eqn:Ec; [contradiction|].
      rewrite positions_nil.
      - f_equal. rewrite Hrows. clear. induction (mrows mf) as [|r rs IHr]; simpl;
          [reflexivity|]. rewrite IHr, List.map_app. reflexivity.
      - intros Hin. apply NoDup_app in Hnd. destruct Hnd as (_ & Hd & _).
        apply (Hd o); [apply list_elem_of_In, Hin | simpl; left]. }
    rewrite Hset. intros Hrec.
    apply IH with (done := done ++ [i]) in Hrec.
    + destruct Hrec as (idxs & HF & Hc & Hr). exists (i :: idxs).
      split; [constructor; assumption|]. cbn [columns] in Hc. rewrite <- app_assoc in Hc.
      split; [exact Hc|]. rewrite <- app_assoc in Hr. exact Hr.
    + cbn [columns]. destruct (columns df0); discriminate.
    + cbn [columns]. rewrite <- app_assoc. exact Hnd.
    + reflexivity.
Qed.

Lemma assign_from_multi_app mf f1 f2 df :
  assign_from_multi mf (f1 ++ f2) df
  = (d ← assign_from_multi mf f1 df; assign_from_multi mf f2 d).
Proof.
  revert df. induction f1 as [|[o key] f1 IH]; intros df; simpl; [reflexivity|].
  destruct (getitem_multi mf key); cbn [mbind result_bind]; [apply IH | reflexivity].
Qed.

Lemma assign_from_empty mf fields out :
  fields <> [] ->
  NoDup (List.map fst fields) ->
  assign_from_multi mf fields empty_df = Ok out ->
  exists idxs,
    Forall2 (fun f i => positions (snd f) (mcolumns mf) = [i]) fields idxs
    /\ columns out = List.map fst fields
    /\ rows out = List.map (fun r => List.map (fun i => cell_at i r) idxs) (mrows mf).
Proof.
  destruct fields as [|[o key] fields]; [contradiction|]. intros _ Hnd. simpl.
  unfold getitem_multi.
  destruct (unique_index key (mcolumns mf)) as [i|e] eqn:Ei;
    cbn [mbind result_bind]; [|discriminate].
  apply unique_index_Ok in Ei. intros Hrec.
  apply assign_from_multi_rows with (done := [i]) in Hrec.
  - destruct Hrec as (idxs & HF & Hc & Hr). exists (i :: idxs).
    split; [constructor; assumption|]. split; [exact Hc | exact Hr].
  - discriminate.
  - exact Hnd.
  - cbn. rewrite List.map_map. reflexivity.
Qed.

Section TwoLevel.

Variable read_csv : pystr -> result DataFrame.
Variable csv_reader : pystr -> result (list (list pystr)).
Variable to_numeric : pystr -> option Z.

Lemma line_at_Ok lines i l : line_at lines i = Ok l -> lines !! i = Some l.
Proof. unfold line_at. destruct (lines !! i); [congruence | discriminate]. Qed.

Lemma two_level_fields_nodup name :
  name = s_foreign \/ name = s_dealer -> NoDup (List.map fst (two_level_fields name)).
Proof.
  intros [-> | ->]; apply (bool_decide_unpack _); vm_compute; reflexivity.
Qed.

Lemma unique_key_positions (keys : list (pystr * pystr)) fields idxs :
  Forall2 (fun f i => positions (snd f) keys = [i]) fields idxs ->
  Forall2 (fun (f : pystr * (pystr * pystr)) i =>
             forall j, keys !! j = Some (snd f) <-> j = i) fields idxs.
Proof.
  induction 1 as [|f i fields idxs Hp _ IH]; constructor; [|exact IH].
  intros j. apply positions_singleton in Hp. destruct Hp as [Hi Hu]. split.
  - apply Hu.
  - intros ->. exact Hi.
Qed.

(** the branch of the two-level sources, made explicit *)
Lemma parse_two_level_explicit lines h name df :
  name = s_foreign \/ name = s_dealer ->
  parse_two_level csv_reader lines h name = Ok df ->
  exists l1 l2 header_line_1 header_line_2 data_rows idxs,
    lines !! h = Some l1 /\ first_record csv_reader l1 = Ok header_line_1
    /\ lines !! (h + 1)%nat = Some l2 /\ first_record csv_reader l2 = Ok header_line_2
    /\ traverse (first_record csv_reader) (drop (h + 2) lines) = Ok data_rows
    /\ (length header_line_1 <= length header_line_2)%nat
    /\ Forall2 (fun f i => forall j,
                  flat_keys header_line_1 header_line_2 !! j = Some (snd f) <-> j = i)
         (two_level_fields name) idxs
    /\ df = mkDF (List.map fst (two_level_fields name))
              (List.map (pick_fields idxs) data_rows).
Proof.
  intros Hname. unfold parse_two_level.
  destruct (line_at lines h) as [l1|e] eqn:E1; cbn [mbind result_bind]; [|discriminate].
  destruct (first_record csv_reader l1) as [h1|e] eqn:E2;
    cbn [mbind result_bind]; [|discriminate].
  destruct (line_at lines (h + 1)) as [l2|e] eqn:E3; cbn [mbind result_bind]; [|discriminate].
  destruct (first_record csv_reader l2) as [h2|e] eqn:E4;
    cbn [mbind result_bind]; [|discriminate].
  destruct (traverse (first_record csv_reader) (drop (h + 2) lines)) as [data_rows|e] eqn:E5;
    cbn [mbind result_bind]; [|discriminate].
  destruct (build_columns [] h1 h2) as [cols|e] eqn:E6;
    cbn [mbind result_bind]; [|discriminate].
  destruct (make_multi data_rows cols) as [mf|e] eqn:E7;
    cbn [mbind result_bind]; [|discriminate].
  intros H.
  assert (assign_from_multi mf (two_level_fields name) empty_df = Ok df) as Hassign.
  { unfold two_level_fields. rewrite assign_from_multi_app.
    destruct (assign_from_multi mf key_fields empty_df) as [d|e];
      cbn [mbind result_bind] in *; [|discriminate].
    destruct (decide (name = s_foreign)); [exact H|].
    destruct (decide (name = s_dealer)); [exact H|].
    destruct Hname; contradiction. }
  apply assign_from_empty in Hassign.
  - destruct Hassign as (idxs & HF & Hc & Hr).
    destruct (build_columns_flat_keys _ _ _ E6) as [Hlen ->].
    destruct (make_multi_rows _ _ _ E7) as [Hmc Hmr].
    exists l1, l2, h1, h2, data_rows, idxs.
    refine (conj (line_at_Ok _ _ _ E1) (conj E2 (conj (line_at_Ok _ _ _ E3)
             (conj E4 (conj eq_refl (conj Hlen (conj _ _))))))).
    + apply unique_key_positions. rewrite <- Hmc. exact HF.
    + destruct df as [c r]. cbn in Hc, Hr. rewrite Hc, Hr, Hmr. reflexivity.
  - unfold two_level_fields, key_fields. discriminate.
  - apply two_level_fields_nodup, Hname.
Qed.

Lemma twse_tail_columns df df1 df2 df3 out :
  drop_totals df s_id = Ok df1 ->
  dropna_subset df1 s_id = Ok df2 ->
  strip_column df2 s_id = Ok df3 ->
  numeric_columns to_numeric (columns df3) df3 = Ok out ->
  columns out = columns df.
Proof.
  intros H1 H2 H3 H4.
  destruct (rows_drop_totals _ _ _ H1) as (i & Hi & Hc1 & Hr1).
  assert (positions s_id (columns df1) = [i]) as Hi1 by (rewrite Hc1; exact Hi).
  destruct (rows_dropna_subset _ _ _ _ Hi1 H2) as (Hc2 & Hr2).
  assert (positions s_id (columns df2) = [i]) as Hi2 by (rewrite Hc2; exact Hi1).
  destruct (rows_strip_column _ _ _ _ Hi2 H3) as (Hc3 & Hr3).
  assert (positions s_id (columns df3) = [i]) as Hi3 by (rewrite Hc3; exact Hi2).
  destruct (numeric_columns_id to_numeric i (fun _ => True) _ _ _ Hi3 (fun _ _ => I) H4)
    as (Hc4 & _).
  congruence.
Qed.

(** C9. Two-level header flattening.  When the body of [parse_twse_csv]
    succeeds on a source with a two-level header ('外資' or '自營商') whose
    header line is line [h] of the lines that are not blank:
    the flat key of column [i] pairs the cleaned sub-label of the second
    header line with the nearest cleaned group label of the first header
    line at or before [i] that is not blank; the data records are the
    lines from [h + 2] on; each output field is the one column whose flat
    key is the key of the field; and the output has the columns of these
    fields and no other. *)
Theorem two_level_header_flattening (text name : pystr) (h : nat) (out : DataFrame) :
  name = s_foreign \/ name = s_dealer ->
  (2 <= length (nonblank_lines text))%nat ->
  find_header s_id s_name 0 (nonblank_lines text) = Some h ->
  parse_twse_body read_csv csv_reader to_numeric text name = Ok out ->
  exists l1 l2 header_line_1 header_line_2 data_rows idxs,
    nonblank_lines text !! h = Some l1
    /\ first_record csv_reader l1 = Ok header_line_1
    /\ nonblank_lines text !! (h + 1)%nat = Some l2
    /\ first_record csv_reader l2 = Ok header_line_2
    /\ traverse (first_record csv_reader) (drop (h + 2) (nonblank_lines text)) = Ok data_rows
    /\ (length header_line_1 <= length header_line_2)%nat
    /\ Forall2 (fun f i => forall j,
                  flat_keys header_line_1 header_line_2 !! j = Some (snd f) <-> j = i)
         (two_level_fields name) idxs
    /\ parse_two_level csv_reader (nonblank_lines text) h name
       = Ok (mkDF (List.map fst (two_level_fields name))
               (List.map (pick_fields idxs) data_rows))
    /\ columns out = List.map fst (two_level_fields name).
Proof.
  intros Hname Hlen Hh. unfold parse_twse_body.
  apply Nat.ltb_ge in Hlen. rewrite Hlen, Hh.
  destruct (decide (name = s_trust)) as [Ht|_].
  { exfalso. destruct Hname as [-> | ->]; vm_compute in Ht; discriminate. }
  destruct (decide (name = s_foreign \/ name = s_dealer)) as [_|Hn]; [|contradiction].
  destruct (parse_two_level csv_reader (nonblank_lines text) h name) as [df|e] eqn:Hp;
    cbn [mbind result_bind]; [|discriminate].
  destruct (drop_totals df s_id) as [df1|e] eqn:H1; cbn [mbind result_bind]; [|discriminate].
  destruct (dropna_subset df1 s_id) as [df2|e] eqn:H2; cbn [mbind result_bind]; [|discriminate].
  destruct (strip_column df2 s_id) as [df3|e] eqn:H3; cbn [mbind result_bind]; [|discriminate].
  intros H4.
  destruct (parse_two_level_explicit _ _ _ _ Hname Hp)
    as (l1 & l2 & h1 & h2 & data_rows & idxs & A1 & A2 & A3 & A4 & A5 & A6 & A7 & ->).
  exists l1, l2, h1, h2, data_rows, idxs.
  refine (conj A1 (conj A2 (conj A3 (conj A4 (conj A5 (conj A6 (conj A7 (conj eq_refl _)))))))).
  rewrite (twse_tail_columns _ _ _ _ _ H1 H2 H3 H4). reflexivity.
Qed.

End TwoLevel.

(** ** The parsers on sample documents *)

Example parse_foreign_sample : twse_ref text_foreign s_foreign = Ok out_foreign.
Proof. vm_compute. reflexivity. Qed.

Example flat_keys_sample :
  flat_keys [ s_id; s_name; s_foreign_group; []; [] ] [ s_id; s_name; s_buy; s_sell; s_net ]
  = [ (s_id, s_id); (s_name, s_name); (s_foreign_group, s_buy);
      (s_foreign_group, s_sell); (s_foreign_group, s_net) ].
Proof. vm_compute. reflexivity. Qed.

Lemma parser_identifier_invariant_witness :
  twse_ref text_foreign s_foreign = Ok out_foreign
  /\ id_column identifier_ok out_foreign.
Proof.
  split; [vm_compute; reflexivity|].
  apply (parser_identifier_invariant read_csv_simple csv_excel to_numeric_int
           text_foreign s_foreign out_foreign).
  left. vm_compute. reflexivity.
Defined.

(** C7. The two-level path keeps a row whose identifier is blank.  On
    the foreign-investor document [text_foreign], whose second data
    record has an empty identifier field, [parse_twse_csv] returns a
    table whose second row has the empty text as its identifier, so the
    invariant of the claim does not hold of it.  On the single-header
    path the same records ([text_trust]) lose that row: there the empty
    field is read as a missing value, which [dropna] drops. *)
Theorem parse_twse_csv_blank_identifier :
  twse_ref text_foreign s_foreign = Ok out_foreign
  /\ In [ Str []; Str (utf8 "未編號"); Num 7; Num 3; Num 4 ] (rows out_foreign)
  /\ ~ id_column identifier_ok_nonblank out_foreign
  /\ twse_ref text_trust s_trust = Ok out_trust
  /\ id_column identifier_ok_nonblank out_trust.
Proof.
  split; [vm_compute; reflexivity|].
  split; [right; left; reflexivity|].
  split; [|split; [vm_compute; reflexivity|]].
  - intros H.
    destruct (H 0%nat [ Str []; Str (utf8 "未編號"); Num 7; Num 3; Num 4 ])
      as (s & Hs & _ & _ & Hblank).
    + reflexivity.
    + right. left. reflexivity.
    + injection Hs as <-. vm_compute in Hblank. discriminate.
  - intros i r Hi [<- | []].
    assert (i = 0%nat) as ->.
    { destruct i as [|[|[|[|[|i]]]]]; [reflexivity|vm_compute in Hi; discriminate..]. }
    eexists. split; [reflexivity|]. vm_compute. auto.
Qed.

Lemma two_level_header_flattening_witness :
  exists l1 l2 header_line_1 header_line_2 data_rows idxs,
    nonblank_lines text_foreign !! 0%nat = Some l1
    /\ first_record csv_excel l1 = Ok header_line_1
    /\ nonblank_lines text_foreign !! 1%nat = Some l2
    /\ first_record csv_excel l2 = Ok header_line_2
    /\ traverse (first_record csv_excel) (drop 2 (nonblank_lines text_foreign)) = Ok data_rows
    /\ (length header_line_1 <= length header_line_2)%nat
    /\ Forall2 (fun f i => forall j,
                  flat_keys header_line_1 header_line_2 !! j = Some (snd f) <-> j = i)
         (two_level_fields s_foreign) idxs
    /\ parse_two_level csv_excel (nonblank_lines text_foreign) 0 s_foreign
       = Ok (mkDF (List.map fst (two_level_fields s_foreign))
               (List.map (pick_fields idxs) data_rows))
    /\ columns out_foreign = List.map fst (two_level_fields s_foreign).
Proof.
  apply (two_level_header_flattening read_csv_simple csv_excel to_numeric_int
           text_foreign s_foreign 0 out_foreign).
  - left. reflexivity.
  - vm_compute. lia.
  - vm_compute. reflexivity.
  - vm_compute. reflexivity.
Defined.

(** ** Orders and sorting *)

Lemma pystr_leb_total a b : pystr_leb a b = true \/ pystr_leb b a = true.
Proof.
  revert b. induction a as [|x a IH]; intros [|y b]; simpl; auto.
  destruct (N.ltb_spec x y), (N.ltb_spec y x), (N.eqb_spec x y), (N.eqb_spec y x);
    simpl; auto; try lia; try apply IH.
Qed.

Lemma pystr_leb_trans a b c :
  pystr_leb a b = true -> pystr_leb b c = true -> pystr_leb a c = true.
Proof.
  revert b c. induction a as [|x a IH]; intros [|y b] [|z c]; simpl; auto; try discriminate.
  destruct (N.ltb_spec x y), (N.ltb_spec y z), (N.ltb_spec x z),
    (N.eqb_spec x y), (N.eqb_spec y z), (N.eqb_spec x z);
    simpl; auto; try lia; try discriminate; try apply IH.
Qed.

Lemma pystr_leb_antisym a b :
  pystr_leb a b = true -> pystr_leb b a = true -> a = b.
Proof.
  revert b. induction a as [|x a IH]; intros [|y b]; simpl; auto; try discriminate.
  destruct (N.ltb_spec x y), (N.ltb_spec y x), (N.eqb_spec x y), (N.eqb_spec y x);
    simpl; try lia; try discriminate. intros H1 H2. subst. f_equal. apply IH; assumption.
Qed.

Ltac date_cases a b :=
  destruct (N.ltb_spec (year a) (year b)), (N.eqb_spec (year a) (year b)),
    (N.ltb_spec (month a) (month b)), (N.eqb_spec (month a) (month b)),
    (N.leb_spec (day a) (day b)); simpl; try lia; try discriminate; auto.

Lemma date_leb_total a b : date_leb a b = true \/ date_leb b a = true.
Proof. unfold date_leb. date_cases a b; date_cases b a. Qed.

Lemma date_leb_trans a b c :
  date_leb a b = true -> date_leb b c = true -> date_leb a c = true.
Proof. unfold date_leb. date_cases a b; date_cases b c; date_cases a c. Qed.

Lemma date_leb_antisym a b : date_leb a b = true -> date_leb b a = true -> a = b.
Proof.
  unfold date_leb. destruct a as [ya ma da], b as [yb mb db]. simpl.
  destruct (N.ltb_spec ya yb), (N.eqb_spec ya yb), (N.ltb_spec ma mb), (N.eqb_spec ma mb),
    (N.leb_spec da db), (N.ltb_spec yb ya), (N.eqb_spec yb ya), (N.ltb_spec mb ma),
    (N.eqb_spec mb ma), (N.leb_spec db da);
    simpl; try lia; try discriminate; intros _ _; f_equal; lia.
Qed.

Lemma cell_leb_total a b : cell_leb a b = true \/ cell_leb b a = true.
Proof.
  destruct a, b; simpl; auto.
  - apply pystr_leb_total.
  - destruct (Z.leb_spec z z0), (Z.leb_spec z0 z); auto; lia.
  - apply date_leb_total.
Qed.

Lemma cell_leb_trans a b c :
  cell_leb a b = true -> cell_leb b c = true -> cell_leb a c = true.
Proof.
  destruct a, b, c; simpl; auto; try discriminate.
  - apply pystr_leb_trans.
  - rewrite !Z.leb_le. lia.
  - apply date_leb_trans.
Qed.

Lemma cell_leb_antisym a b : cell_leb a b = true -> cell_leb b a = true -> a = b.
Proof.
  destruct a, b; simpl; auto; try discriminate.
  - intros H1 H2. f_equal. apply pystr_leb_antisym; assumption.
  - rewrite !Z.leb_le. intros. f_equal. lia.
  - intros H1 H2. f_equal. apply date_leb_antisym; assumption.
Qed.

Section Sorting.

Context {A : Type} (le : A -> A -> bool).
Hypothesis le_total : forall a b, le a b = true \/ le b a = true.
Hypothesis le_trans : forall a b c, le a b = true -> le b c = true -> le a c = true.

Lemma insert_sorted_perm x l : Permutation (x :: l) (insert_sorted le x l).
Proof.
  induction l as [|y l IH]; simpl; [reflexivity|].
  destruct (le x y); [reflexivity|].
  rewrite perm_swap. apply perm_skip, IH.
Qed.

Lemma sort_by_perm l : Permutation l (sort_by le l).
Proof.
  induction l as [|x l IH]; simpl; [reflexivity|].
  rewrite <- insert_sorted_perm. apply perm_skip, IH.
Qed.

Lemma insert_sorted_sorted x l :
  StronglySorted (leR le) l -> StronglySorted (leR le) (insert_sorted le x l).
Proof.
  induction 1 as [|y l Hs IH Hy]; simpl.
  - constructor; constructor.
  - destruct (le x y) eqn:E.
    + constructor; [constructor; assumption|].
      constructor; [exact E|].
      eapply List.Forall_impl; [|exact Hy]. intros z Hz. exact (le_trans _ _ _ E Hz).
    + constructor; [exact IH|].
      rewrite <- insert_sorted_perm. constructor; [|exact Hy].
      destruct (le_total x y) as [H|H]; [congruence | exact H].
Qed.

Lemma sort_by_sorted l : StronglySorted (leR le) (sort_by le l).
Proof.
  induction l as [|x l IH]; simpl; [constructor | apply insert_sorted_sorted, IH].
Qed.

(** two sorted arrangements of the same elements are the same list when
    the order separates the elements *)
Lemma sorted_perm_unique l1 : forall l2,
  StronglySorted (leR le) l1 -> StronglySorted (leR le) l2 -> Permutation l1 l2 ->
  (forall a b, In a l1 -> In b l1 -> le a b = true -> le b a = true -> a = b) ->
  l1 = l2.
Proof.
  induction l1 as [|a l1 IH]; intros l2 S1 S2 HP Hanti.
  - apply Permutation_nil in HP. congruence.
  - destruct l2 as [|b l2]; [apply Permutation_sym, Permutation_nil in HP; discriminate|].
    apply StronglySorted_inv in S1, S2. destruct S1 as [S1 F1], S2 as [S2 F2].
    assert (a = b) as <-.
    { assert (In a (b :: l2)) as Ha by (eapply Permutation_in; [exact HP | left; reflexivity]).
      assert (In b (a :: l1)) as Hb
        by (eapply Permutation_in; [symmetry; exact HP | left; reflexivity]).
      destruct Ha as [-> | Ha]; [reflexivity|].
      destruct Hb as [-> | Hb]; [reflexivity|].
      apply Hanti; [left; reflexivity | right; exact Hb | |].
      - rewrite Forall_forall in F1. apply F1, list_elem_of_In, Hb.
      - rewrite Forall_forall in F2. apply F2, list_elem_of_In, Ha. }
    f_equal. apply IH; try assumption.
    + eapply Permutation_cons_inv, HP.
    + intros x y Hx Hy. apply Hanti; right; assumption.
Qed.

Lemma sort_by_sorted_id l :
  StronglySorted (leR le) l ->
  (forall a b, In a l -> In b l -> le a b = true -> le b a = true -> a = b) ->
  sort_by le l = l.
Proof.
  intros Hs Hanti. symmetry. apply sorted_perm_unique; try assumption.
  - apply sort_by_sorted.
  - apply sort_by_perm.
Qed.

End Sorting.

(** *** Keeping the last row of every key *)

Section KeepLast.

Context {K : Type} `{EqDecision K} (key : list cell -> K).

Lemma keep_last_In x l : In x (keep_last key l) -> In x l.
Proof.
  induction l as [|y l IH]; simpl; [tauto|].
  destruct (bool_decide _); simpl; intuition.
Qed.

Lemma keep_last_keys k l :
  In k (List.map key (keep_last key l)) <-> In k (List.map key l).
Proof.
  induction l as [|y l IH]; simpl; [tauto|].
  destruct (bool_decide (key y ∈ List.map key l)) eqn:E; simpl.
  - apply bool_decide_eq_true, list_elem_of_In in E. rewrite IH. split; [auto|].
    intros [<- | H]; assumption.
  - rewrite IH. tauto.
Qed.

Lemma keep_last_nodup l : NoDup (List.map key (keep_last key l)).
Proof.
  induction l as [|y l IH]; simpl; [constructor|].
  destruct (bool_decide (key y ∈ List.map key l)) eqn:E; simpl; [exact IH|].
  apply bool_decide_eq_false in E. constructor; [|exact IH].
  intros H. apply E. apply list_elem_of_In, keep_last_keys, list_elem_of_In, H.
Qed.

Lemma keep_last_id l : NoDup (List.map key l) -> keep_last key l = l.
Proof.
  induction l as [|y l IH]; simpl; [reflexivity|]. intros H.
  apply NoDup_cons in H. destruct H as [Hy Hl].
  rewrite bool_decide_eq_false_2 by exact Hy. f_equal. apply IH, Hl.
Qed.

Lemma keep_last_snoc l x :
  keep_last key (l ++ [x])
  = List.filter (fun y => negb (bool_decide (key y = key x))) (keep_last key l) ++ [x].
Proof.
  induction l as [|y l IH]; simpl; [reflexivity|].
  rewrite List.map_app. simpl.
  destruct (decide (key y = key x)) as [Heq|Hne].
  - rewrite bool_decide_eq_true_2.
    2:{ apply list_elem_of_In, in_or_app. right. left. congruence. }
    rewrite IH. destruct (bool_decide (key y ∈ List.map key l)); simpl; [reflexivity|].
    rewrite (bool_decide_eq_true_2 _ Heq). reflexivity.
  - destruct (bool_decide (key y ∈ List.map key l)) eqn:E.
    + rewrite bool_decide_eq_true_2; [exact IH|].
      apply bool_decide_eq_true in E. apply list_elem_of_In, in_or_app. left.
      apply list_elem_of_In, E.
    + rewrite bool_decide_eq_false_2.
      * simpl. rewrite (bool_decide_eq_false_2 _ Hne). simpl. rewrite IH. reflexivity.
      * apply bool_decide_eq_false in E. intros H. apply list_elem_of_In, in_app_or in H.
        destruct H as [H | [H | []]]; [apply E, list_elem_of_In, H | congruence].
Qed.

(** with distinct keys, a row and the rows of the other keys make up the list *)
Lemma split_by_key l x :
  NoDup (List.map key l) -> In x l ->
  Permutation l (List.filter (fun y => negb (bool_decide (key y = key x))) l ++ [x]).
Proof.
  induction l as [|y l IH]; simpl; [tauto|]. intros Hnd Hin.
  apply NoDup_cons in Hnd. destruct Hnd as [Hy Hl]. rewrite list_elem_of_In in Hy.
  destruct Hin as [-> | Hin].
  - rewrite (bool_decide_eq_true_2 _ eq_refl). simpl.
    assert (List.filter (fun y => negb (bool_decide (key y = key x))) l = l) as ->.
    { clear IH Hl. induction l as [|z l IHl]; simpl; [reflexivity|].
      rewrite bool_decide_eq_false_2.
      - simpl. f_equal. apply IHl. intros H. apply Hy. right. exact H.
      - intros H. apply Hy. left. congruence. }
    apply Permutation_cons_append.
  - rewrite bool_decide_eq_false_2.
    + simpl. apply perm_skip, IH; assumption.
    + intros H. apply Hy. rewrite H. apply in_map, Hin.
Qed.

Lemma nodup_key_inj l a b :
  NoDup (List.map key l) -> In a l -> In b l -> key a = key b -> a = b.
Proof.
  induction l as [|y l IH]; simpl; [tauto|]. intros Hnd Ha Hb Hk.
  apply NoDup_cons in Hnd. destruct Hnd as [Hy Hl]. rewrite list_elem_of_In in Hy.
  destruct Ha as [-> | Ha], Hb as [-> | Hb]; auto.
  - exfalso. apply Hy. rewrite Hk. apply in_map, Hb.
  - exfalso. apply Hy. rewrite <- Hk. apply in_map, Ha.
Qed.

End KeepLast.

(** ** The accumulator *)

Lemma positions_from_nil {A} `{EqDecision A} (x : A) l k :
  ~ In x l -> positions_from k x l = [].
Proof.
  revert k. induction l as [|y l IH]; intros k H; simpl; [reflexivity|].
  destruct (decide (x = y)) as [->|_]; [exfalso; apply H; left; reflexivity|].
  apply IH. intros Hin. apply H. right. exact Hin.
Qed.

Lemma positions_from_nodup {A} `{EqDecision A} (x : A) l k0 k :
  NoDup l -> l !! k = Some x -> positions_from k0 x l = [(k0 + k)%nat].
Proof.
  revert k0 k. induction l as [|y l IH]; intros k0 k Hnd Hk; [discriminate|].
  apply NoDup_cons in Hnd. destruct Hnd as [Hy Hl]. rewrite list_elem_of_In in Hy.
  simpl. destruct k as [|k]; simpl in Hk.
  - injection Hk as ->. rewrite decide_True by reflexivity.
    rewrite positions_from_nil by exact Hy. f_equal. lia.
  - rewrite decide_False.
    + rewrite (IH (S k0) k Hl Hk). f_equal. lia.
    + intros ->. apply Hy. eapply list_elem_of_In, list_elem_of_lookup_2, Hk.
Qed.

Lemma positions_nodup {A} `{EqDecision A} (x : A) l k :
  NoDup l -> l !! k = Some x -> positions x l = [k].
Proof. intros Hnd Hk. unfold positions. rewrite (positions_from_nodup x l 0 k Hnd Hk). reflexivity. Qed.

Lemma positions_In {A} `{EqDecision A} (x : A) l :
  NoDup l -> In x l -> exists k, l !! k = Some x /\ positions x l = [k].
Proof.
  intros Hnd Hin. apply list_elem_of_In, list_elem_of_lookup_1 in Hin.
  destruct Hin as [k Hk]. exists k. split; [exact Hk | apply positions_nodup; assumption].
Qed.

Lemma length_reindex_row from to r : length (reindex_row from to r) = length to.
Proof. unfold reindex_row. apply length_map. Qed.

Lemma cell_at_reindex from to r k c :
  to !! k = Some c ->
  cell_at k (reindex_row from to r)
  = match positions c from with i :: _ => cell_at i r | [] => NaN end.
Proof.
  intros Hk. unfold reindex_row, cell_at at 1.
  change (List.map ?f to) with (f <$> to). rewrite list_lookup_fmap, Hk. reflexivity.
Qed.

Lemma reindex_row_id cols r :
  NoDup cols -> length r = length cols -> reindex_row cols cols r = r.
Proof.
  intros Hnd Hlen. apply list_eq. intros k.
  destruct (cols !! k) as [c|] eqn:Ek.
  - assert (k < length r)%nat as Hk by (rewrite Hlen; eapply lookup_lt_Some, Ek).
    destruct (lookup_lt_is_Some_2 r k Hk) as [v Hv].
    unfold reindex_row. change (List.map ?f cols) with (f <$> cols).
    rewrite list_lookup_fmap, Ek. simpl. rewrite (positions_nodup c cols k Hnd Ek).
    unfold cell_at. rewrite Hv. reflexivity.
  - unfold reindex_row. change (List.map ?f cols) with (f <$> cols).
    rewrite list_lookup_fmap, Ek. simpl. symmetry. apply lookup_ge_None.
    apply lookup_ge_None in Ek. lia.
Qed.

Lemma concat_columns_nodup a b : NoDup a -> NoDup b -> NoDup (concat_columns a b).
Proof.
  intros Ha Hb. unfold concat_columns. apply NoDup_app. split; [exact Ha|]. split.
  - intros x Hx Hx'. apply list_elem_of_In, List.filter_In in Hx'. destruct Hx' as [_ Hx'].
    apply negb_true_iff, bool_decide_eq_false in Hx'. contradiction.
  - apply NoDup_ListNoDup, List.NoDup_filter, NoDup_ListNoDup, Hb.
Qed.

Lemma concat_columns_same a : concat_columns a a = a.
Proof.
  unfold concat_columns.
  assert (forall l, (forall x, In x l -> In x a) ->
            List.filter (fun c => negb (bool_decide (c ∈ a))) l = []) as H.
  { induction l as [|x l IH]; intros Hl; simpl; [reflexivity|].
    rewrite bool_decide_eq_true_2 by (apply list_elem_of_In, Hl; left; reflexivity).
    simpl. apply IH. intros y Hy. apply Hl. right. exact Hy. }
  rewrite H by auto. apply app_nil_r.
Qed.

Lemma concat_columns_incl a b :
  (forall x, In x b -> In x a) -> concat_columns a b = a.
Proof.
  intros Hb. unfold concat_columns.
  assert (List.filter (fun c => negb (bool_decide (c ∈ a))) b = []) as ->.
  { induction b as [|x b IH]; simpl; [reflexivity|].
    rewrite bool_decide_eq_true_2 by (apply list_elem_of_In, Hb; left; reflexivity).
    simpl. apply IH. intros y Hy. apply Hb. right. exact Hy. }
  apply app_nil_r.
Qed.

Lemma in_concat_columns_l a b x : In x a -> In x (concat_columns a b).
Proof. intros H. apply in_or_app. left. exact H. Qed.

Lemma in_concat_columns_r a b x : In x b -> In x (concat_columns a b).
Proof.
  intros H. unfold concat_columns. destruct (decide (x ∈ a)) as [Ha|Ha].
  - apply in_or_app. left. apply list_elem_of_In, Ha.
  - apply in_or_app. right. apply List.filter_In. split; [exact H|].
    apply negb_true_iff, bool_decide_eq_false, Ha.
Qed.

(** concatenation aligns the rows of both tables under the joint columns *)
Lemma pd_concat_aligned a b :
  NoDup (columns a) -> NoDup (columns b) -> rectangular a -> rectangular b ->
  pd_concat a b
  = Ok (mkDF (concat_columns (columns a) (columns b))
          (List.map (reindex_row (columns a) (concat_columns (columns a) (columns b))) (rows a)
           ++ List.map (reindex_row (columns b) (concat_columns (columns a) (columns b)))
                (rows b))).
Proof.
  intros Ha Hb Ra Rb. unfold pd_concat.
  destruct (decide (columns a = columns b)) as [E|E].
  - rewrite <- E, concat_columns_same. f_equal. f_equal. f_equal.
    + symmetry. rewrite <- (map_id (rows a)) at 2. apply map_ext_in.
      intros r Hr. apply reindex_row_id; [exact Ha|].
      unfold rectangular in Ra. rewrite Forall_forall in Ra. apply Ra, list_elem_of_In, Hr.
    + symmetry. rewrite <- (map_id (rows b)) at 2. apply map_ext_in.
      intros r Hr. rewrite E. apply reindex_row_id; [exact Hb|].
      unfold rectangular in Rb. rewrite Forall_forall in Rb. apply Rb, list_elem_of_In, Hr.
  - rewrite !bool_decide_eq_true_2 by assumption. reflexivity.
Qed.

Lemma date_cell_position cols k r :
  NoDup cols -> cols !! k = Some s_date -> date_cell cols r = cell_at k r.
Proof. intros Hnd Hk. unfold date_cell. rewrite (positions_nodup _ _ _ Hnd Hk). reflexivity. Qed.

Lemma date_cell_reindex from to r :
  NoDup to -> In s_date to ->
  date_cell to (reindex_row from to r) = date_cell from r.
Proof.
  intros Hnd Hin. destruct (positions_In _ _ Hnd Hin) as (k & Hk & Hp).
  unfold date_cell at 1. rewrite Hp. rewrite (cell_at_reindex _ _ _ _ _ Hk). reflexivity.
Qed.

Lemma filter_perm {A} (p : A -> bool) l l' :
  Permutation l l' -> Permutation (List.filter p l) (List.filter p l').
Proof.
  induction 1 as [|x l l' _ IH|x y l|l l' l'' _ IH1 _ IH2]; simpl.
  - reflexivity.
  - destruct (p x); [apply perm_skip|]; exact IH.
  - destruct (p x), (p y); try reflexivity. apply perm_swap.
  - etransitivity; eassumption.
Qed.

Section Resort.

(** rows keyed by one cell and sorted on it *)
Variable k : nat.
Let key (r : list cell) : list cell := [cell_at k r].
Let le (a b : list cell) : bool := cell_leb (cell_at k a) (cell_at k b).

Lemma le_total_rows a b : le a b = true \/ le b a = true.
Proof. apply cell_leb_total. Qed.

Lemma le_trans_rows a b c : le a b = true -> le b c = true -> le a c = true.
Proof. apply cell_leb_trans. Qed.

Lemma sorted_dedup_perm l : Permutation (keep_last key l) (sort_by le (keep_last key l)).
Proof. apply sort_by_perm. Qed.

Lemma sorted_dedup_nodup l : NoDup (List.map key (sort_by le (keep_last key l))).
Proof.
  apply NoDup_ListNoDup.
  eapply Permutation_NoDup; [|apply NoDup_ListNoDup, (keep_last_nodup key l)].
  apply Permutation_map, sort_by_perm.
Qed.

Lemma sorted_dedup_In l x : In x (sort_by le (keep_last key l)) -> In x l.
Proof.
  intros H. apply (keep_last_In key). eapply Permutation_in; [|exact H].
  symmetry. apply sort_by_perm.
Qed.

Lemma sorted_dedup_last l x : In x (sort_by le (keep_last key (l ++ [x]))).
Proof.
  eapply Permutation_in; [apply sort_by_perm|].
  rewrite keep_last_snoc. apply in_or_app. right. left. reflexivity.
Qed.

(** the rows of the key of the last row: that row alone *)
Lemma sorted_dedup_filter l x :
  List.filter (fun y => bool_decide (cell_at k y = cell_at k x))
    (sort_by le (keep_last key (l ++ [x]))) = [x].
Proof.
  set (p := fun y => bool_decide (cell_at k y = cell_at k x)).
  assert (Permutation (List.filter p (sort_by le (keep_last key (l ++ [x])))) [x]) as HP.
  { etransitivity; [apply filter_perm; symmetry; apply sort_by_perm|].
    rewrite keep_last_snoc, List.filter_app. simpl.
    unfold p at 2. rewrite bool_decide_eq_true_2 by reflexivity.
    assert (List.filter p
              (List.filter (fun y => negb (bool_decide (key y = key x))) (keep_last key l)) = [])
      as ->; [|reflexivity].
    induction (keep_last key l) as [|y m IH]; simpl; [reflexivity|].
    destruct (bool_decide (key y = key x)) eqn:E; simpl; [exact IH|].
    unfold p at 1. apply bool_decide_eq_false in E.
    rewrite bool_decide_eq_false_2; [exact IH|]. intros H. apply E. unfold key. congruence. }
  apply Permutation_sym, Permutation_length_1_inv in HP. exact HP.
Qed.

(** accumulating a row again into rows that are sorted, of distinct
    keys, and hold the row already gives the same rows *)
Lemma resort_same l x :
  StronglySorted (leR le) l -> NoDup (List.map key l) -> In x l ->
  sort_by le (keep_last key (l ++ [x])) = l.
Proof.
  intros Hs Hnd Hin. symmetry. apply (sorted_perm_unique le); try assumption.
  - apply sort_by_sorted; [apply le_total_rows | apply le_trans_rows].
  - rewrite <- sort_by_perm, keep_last_snoc, (keep_last_id key l Hnd).
    apply split_by_key; assumption.
  - intros a b Ha Hb Hab Hba. apply (nodup_key_inj key l); try assumption.
    unfold key. f_equal. apply cell_leb_antisym; assumption.
Qed.

End Resort.

Lemma same_kind_dates (s : Series) :
  (forall c, In c s -> exists d, c = Ts d) -> same_kind s = true.
Proof.
  intros H. unfold same_kind.
  assert (forall c, In c (List.filter (fun c => negb (isna c)) s) -> exists d, c = Ts d) as H'.
  { intros c Hc. apply List.filter_In in Hc. apply H. tauto. }
  destruct (List.filter (fun c => negb (isna c)) s) as [|c cs]; [reflexivity|].
  destruct (H' c) as [d ->]; [left; reflexivity|].
  apply forallb_forall. intros x Hx. destruct (H' x) as [d' ->]; [right; exact Hx|].
  reflexivity.
Qed.

Lemma StronglySorted_ext {A} (R R' : A -> A -> Prop) l :
  (forall a b, R a b -> R' a b) -> StronglySorted R l -> StronglySorted R' l.
Proof.
  intros H. induction 1 as [|a l Hs IH Ha]; constructor; [exact IH|].
  eapply List.Forall_impl; [|exact Ha]. intros b. apply H.
Qed.

Lemma aligned_dates E new U k :
  history_table E -> history_table new ->
  U = concat_columns (columns E) (columns new) ->
  U !! k = Some s_date ->
  forall x,
    In x (List.map (reindex_row (columns E) U) (rows E)
          ++ List.map (reindex_row (columns new) U) (rows new)) ->
    length x = length U
    /\ exists y, (In y (rows E) /\ x = reindex_row (columns E) U y
                  /\ cell_at k x = date_cell (columns E) y
                  \/ In y (rows new) /\ x = reindex_row (columns new) U y
                     /\ cell_at k x = date_cell (columns new) y)
                 /\ exists d, cell_at k x = Ts d.
Proof.
  intros (NdE & RE & InE & DE) (NdN & RN & InN & DN) -> Hk x Hx.
  set (U := concat_columns (columns E) (columns new)) in *.
  assert (NoDup U) as NdU by (apply concat_columns_nodup; assumption).
  assert (In s_date U) as InU by (apply in_concat_columns_l, InE).
  apply in_app_or in Hx. destruct Hx as [Hx | Hx]; apply in_map_iff in Hx;
    destruct Hx as (y & <- & Hy); (split; [apply length_reindex_row|]); exists y.
  - assert (cell_at k (reindex_row (columns E) U y) = date_cell (columns E) y) as Hc.
    { rewrite <- (date_cell_position U k _ NdU Hk). apply date_cell_reindex; assumption. }
    split; [left; auto|]. rewrite Hc. apply DE, Hy.
  - assert (cell_at k (reindex_row (columns new) U y) = date_cell (columns new) y) as Hc.
    { rewrite <- (date_cell_position U k _ NdU Hk). apply date_cell_reindex; assumption. }
    split; [right; auto|]. rewrite Hc. apply DN, Hy.
Qed.

(** the accumulated table, made explicit *)
Lemma accumulate_explicit E new :
  history_table E -> history_table new ->
  exists k,
    concat_columns (columns E) (columns new) !! k = Some s_date
    /\ accumulate E new
       = Ok (mkDF (concat_columns (columns E) (columns new))
               (sort_by (fun a b => cell_leb (cell_at k a) (cell_at k b))
                  (keep_last (fun x => [cell_at k x])
                     (List.map (reindex_row (columns E)
                                  (concat_columns (columns E) (columns new))) (rows E)
                      ++ List.map (reindex_row (columns new)
                                     (concat_columns (columns E) (columns new)))
                           (rows new))))).
Proof.
  intros HE HN. pose proof HE as (NdE & RE & InE & DE). pose proof HN as (NdN & RN & InN & DN).
  set (U := concat_columns (columns E) (columns new)).
  assert (NoDup U) as NdU by (apply concat_columns_nodup; assumption).
  assert (In s_date U) as InU by (apply in_concat_columns_l, InE).
  destruct (positions_In _ _ NdU InU) as (k & Hk & Hp).
  exists k. split; [exact Hk|].
  unfold accumulate. rewrite (pd_concat_aligned E new NdE NdN RE RN). fold U.
  cbn [mbind result_bind]. unfold drop_duplicates_last. cbn [columns rows]. rewrite Hp.
  cbn [mbind result_bind]. unfold sort_values. cbn [columns rows]. rewrite Hp.
  rewrite same_kind_dates; [reflexivity|].
  intros c Hc. apply in_map_iff in Hc. destruct Hc as (x & <- & Hx).
  apply (keep_last_In (fun x => List.map (fun i => cell_at i x) [k])) in Hx.
  destruct (aligned_dates E new U k HE HN eq_refl Hk x Hx) as (_ & y & _ & Hd). exact Hd.
Qed.

Lemma date_le_position cols k :
  NoDup cols -> cols !! k = Some s_date ->
  forall a b, leR (fun a b => cell_leb (cell_at k a) (cell_at k b)) a b -> date_le cols a b.
Proof.
  intros Hnd Hk a b H. unfold date_le. rewrite !(date_cell_position cols k _ Hnd Hk). exact H.
Qed.

Lemma position_date_le cols k :
  NoDup cols -> cols !! k = Some s_date ->
  forall a b, date_le cols a b -> leR (fun a b => cell_leb (cell_at k a) (cell_at k b)) a b.
Proof.
  intros Hnd Hk a b H. unfold date_le in H.
  rewrite !(date_cell_position cols k _ Hnd Hk) in H. exact H.
Qed.

Lemma filter_date_position cols k d l :
  NoDup cols -> cols !! k = Some s_date ->
  List.filter (fun r => bool_decide (date_cell cols r = Ts d)) l
  = List.filter (fun r => bool_decide (cell_at k r = Ts d)) l.
Proof.
  intros Hnd Hk. apply List.filter_ext. intros r.
  rewrite (date_cell_position cols k _ Hnd Hk). reflexivity.
Qed.

(** what the accumulator computes from a table of dated rows and a row *)
Lemma accumulate_props E new d r :
  history_table E -> single_date_row new d r ->
  exists F,
    accumulate E new = Ok F
    /\ columns F = concat_columns (columns E) (columns new)
    /\ history_table F /\ sorted_by_date F
    /\ NoDup (List.map (date_cell (columns F)) (rows F))
    /\ rows_for_date F d = [reindex_row (columns new) (columns F) r].
Proof.
  intros HE (HN & Hrows & Hd).
  destruct (accumulate_explicit E new HE HN) as (k & Hk & Hacc).
  pose proof HE as (NdE & RE & InE & DE). pose proof HN as (NdN & RN & InN & DN).
  set (U := concat_columns (columns E) (columns new)) in *.
  assert (NoDup U) as NdU by (apply concat_columns_nodup; assumption).
  set (L := List.map (reindex_row (columns E) U) (rows E)
            ++ List.map (reindex_row (columns new) U) (rows new)) in *.
  set (le := fun a b => cell_leb (cell_at k a) (cell_at k b)) in *.
  set (key := fun x : list cell => [cell_at k x]) in *.
  eexists. split; [exact Hacc|]. cbn [columns rows]. split; [reflexivity|].
  assert (forall x, In x (sort_by le (keep_last key L)) -> In x L) as Hin
    by (apply sorted_dedup_In).
  split; [|split; [|split]].
  - split; [exact NdU|]. split; [|split].
    + unfold rectangular. cbn [columns rows]. apply Forall_forall. intros x Hx.
      apply list_elem_of_In, Hin in Hx.
      destruct (aligned_dates E new U k HE HN eq_refl Hk x Hx) as [Hlen _]. exact Hlen.
    + apply in_concat_columns_l, InE.
    + cbn [columns rows]. intros x Hx. apply Hin in Hx.
      destruct (aligned_dates E new U k HE HN eq_refl Hk x Hx) as (_ & y & _ & Hdx).
      rewrite (date_cell_position U k _ NdU Hk). exact Hdx.
  - unfold sorted_by_date. cbn [columns rows].
    eapply StronglySorted_ext; [apply (date_le_position U k NdU Hk)|].
    apply sort_by_sorted; intros; [apply cell_leb_total | eapply cell_leb_trans; eassumption].
  - pose proof (sorted_dedup_nodup k L) as Hnd. fold le key in Hnd.
    apply NoDup_ListNoDup in Hnd. apply NoDup_ListNoDup.
    apply (NoDup_map_inv (fun c => [c])).
    rewrite List.map_map.
    erewrite map_ext; [exact Hnd|].
    intros x. unfold key. rewrite (date_cell_position U k _ NdU Hk). reflexivity.
  - unfold rows_for_date. cbn [columns rows]. rewrite (filter_date_position U k d _ NdU Hk).
    subst L. rewrite Hrows. cbn [List.map].
    set (r' := reindex_row (columns new) U r).
    assert (cell_at k r' = Ts d) as Hr'.
    { unfold r'. rewrite <- (date_cell_position U k _ NdU Hk), date_cell_reindex; try assumption.
      apply in_concat_columns_l, InE. }
    rewrite <- Hr'. apply sorted_dedup_filter.
Qed.

(** accumulating the row again changes nothing *)
Lemma accumulate_fixed F new d r :
  history_table F -> single_date_row new d r ->
  (forall c, In c (columns new) -> In c (columns F)) ->
  sorted_by_date F ->
  NoDup (List.map (date_cell (columns F)) (rows F)) ->
  In (reindex_row (columns new) (columns F) r) (rows F) ->
  accumulate F new = Ok F.
Proof.
  intros HF (HN & Hrows & Hd) Hincl Hsorted Hnd Hin.
  destruct (accumulate_explicit F new HF HN) as (k & Hk & Hacc).
  pose proof HF as (NdF & RF & InF & DF).
  rewrite (concat_columns_incl _ _ Hincl) in Hk, Hacc.
  rewrite Hacc. destruct F as [U rs]. cbn [columns rows] in *. f_equal. f_equal.
  assert (List.map (reindex_row U U) rs = rs) as ->.
  { rewrite <- (map_id rs) at 2. apply map_ext_in. intros x Hx.
    apply reindex_row_id; [exact NdF|]. unfold rectangular in RF. cbn in RF.
    rewrite Forall_forall in RF. apply RF, list_elem_of_In, Hx. }
  rewrite Hrows. cbn [List.map]. apply resort_same.
  - eapply StronglySorted_ext; [apply (position_date_le U k NdF Hk)|]. exact Hsorted.
  - replace (List.map (fun x : list cell => [cell_at k x]) rs)
      with ((fun c : cell => [c]) <$> List.map (date_cell U) rs).
    + apply NoDup_fmap_2; [intros a b [= ->]; reflexivity | exact Hnd].
    + change (?f <$> ?l) with (List.map f l). rewrite List.map_map.
      apply map_ext. intros x. rewrite (date_cell_position U k _ NdF Hk). reflexivity.
  - exact Hin.
Qed.

(** ** Storage *)

Lemma history_has_date E : history_table E -> has_column E s_date = true.
Proof.
  intros (_ & _ & Hin & _). unfold has_column. apply bool_decide_eq_true, list_elem_of_In, Hin.
Qed.

Lemma path_exists_file st p :
  p ∉ dirs st -> path_exists p st = bool_decide (is_Some (files st !! p)).
Proof.
  intros Hp. unfold path_exists. rewrite (bool_decide_eq_false_2 _ Hp), orb_false_r.
  apply bool_decide_ext. apply elem_of_dom.
Qed.

Lemma to_csv_ready df p fs ds ws :
  parent p ∈ ds -> p ∉ ds ->
  to_csv df p (mkFS fs ds ws []) = (Ok tt, mkFS (<[p := df]> fs) ds (ws ++ [p]) []).
Proof.
  intros H1 H2. unfold to_csv. cbn [dirs].
  rewrite (bool_decide_eq_true_2 _ H1), (bool_decide_eq_false_2 _ H2). reflexivity.
Qed.

Lemma body_existing stock_id new_data_df stock_dir st E F :
  storage_ready st (path_join stock_dir (stock_id ++ s_csv)) ->
  files st !! path_join stock_dir (stock_id ++ s_csv) = Some E ->
  accumulate E new_data_df = Ok F ->
  update_accumulation_body stock_id new_data_df stock_dir st
  = (Ok tt, mkFS (<[path_join stock_dir (stock_id ++ s_csv) := F]> (files st)) (dirs st)
              (writes st ++ [path_join stock_dir (stock_id ++ s_csv)]) []).
Proof.
  set (acc := path_join stock_dir (stock_id ++ s_csv)).
  intros (Hf & Hpar & Hnd & Hhist) HE Hacc. destruct st as [fs ds ws fl].
  cbn [files dirs writes faults] in *. subst fl.
  unfold update_accumulation_body. fold acc. cbv zeta.
  rewrite path_exists_file by exact Hnd. cbn [files].
  rewrite bool_decide_eq_true_2 by (rewrite HE; eauto).
  unfold read_csv_dates, next_fault. cbn [faults files]. rewrite HE.
  rewrite (history_has_date E (Hhist E HE)).
  change (existing_df ← Ok E; pd_concat existing_df new_data_df)
    with (pd_concat E new_data_df).
  change (combined_df ← pd_concat E new_data_df;
          deduped ← drop_duplicates_last combined_df s_date;
          sort_values deduped s_date) with (accumulate E new_data_df).
  rewrite Hacc. apply to_csv_ready; assumption.
Qed.

Lemma body_absent stock_id new_data_df stock_dir st F :
  storage_ready st (path_join stock_dir (stock_id ++ s_csv)) ->
  files st !! path_join stock_dir (stock_id ++ s_csv) = None ->
  first_write new_data_df = Ok F ->
  update_accumulation_body stock_id new_data_df stock_dir st
  = (Ok tt, mkFS (<[path_join stock_dir (stock_id ++ s_csv) := F]> (files st)) (dirs st)
              (writes st ++ [path_join stock_dir (stock_id ++ s_csv)]) []).
Proof.
  set (acc := path_join stock_dir (stock_id ++ s_csv)).
  intros (Hf & Hpar & Hnd & Hhist) HE Hacc. destruct st as [fs ds ws fl].
  cbn [files dirs writes faults] in *. subst fl.
  unfold update_accumulation_body. fold acc. cbv zeta.
  rewrite path_exists_file by exact Hnd. cbn [files].
  rewrite bool_decide_eq_false_2 by (rewrite HE; intros [? ?]; discriminate).
  change (combined_df ← Ok new_data_df;
          deduped ← drop_duplicates_last combined_df s_date;
          sort_values deduped s_date) with (first_write new_data_df).
  rewrite Hacc. apply to_csv_ready; assumption.
Qed.

Lemma first_write_single new d r : single_date_row new d r -> first_write new = Ok new.
Proof.
  intros ((Nd & R & Hin & D) & Hrows & Hd). destruct new as [cols rs].
  cbn [columns rows] in *. subst rs.
  destruct (positions_In _ _ Nd Hin) as (k & Hk & Hp).
  unfold first_write, drop_duplicates_last. cbn [columns rows]. rewrite Hp.
  cbn [mbind result_bind keep_last List.map]. rewrite bool_decide_eq_false_2 by apply not_elem_of_nil.
  unfold sort_values. cbn [columns rows]. rewrite Hp.
  rewrite same_kind_dates; [reflexivity|].
  intros c [<- | []]. exists d. rewrite <- (date_cell_position cols k r Nd Hk). exact Hd.
Qed.

Lemma single_row_props new d r :
  single_date_row new d r ->
  sorted_by_date new /\ NoDup (List.map (date_cell (columns new)) (rows new))
  /\ rows_for_date new d = [r]
  /\ reindex_row (columns new) (columns new) r = r.
Proof.
  intros ((Nd & R & Hin & D) & Hrows & Hd). unfold sorted_by_date, rows_for_date.
  rewrite Hrows. cbn [List.map List.filter]. rewrite Hd.
  rewrite bool_decide_eq_true_2 by reflexivity.
  split; [repeat constructor|]. split; [repeat constructor; apply not_elem_of_nil|].
  split; [reflexivity|]. apply reindex_row_id; [exact Nd|].
  unfold rectangular in R. rewrite Hrows in R. apply Forall_inv in R. exact R.
Qed.

Lemma storage_ready_after fs ds ws acc F :
  parent acc ∈ ds -> acc ∉ ds -> history_table F ->
  storage_ready (mkFS (<[acc := F]> fs) ds ws []) acc.
Proof.
  intros H1 H2 HF. split; [reflexivity|]. split; [exact H1|]. split; [exact H2|].
  cbn [files]. intros E. rewrite lookup_insert_eq. intros [= <-]. exact HF.
Qed.

Lemma rows_for_date_In F d x : rows_for_date F d = [x] -> In x (rows F).
Proof.
  intros H. assert (In x (rows_for_date F d)) as Hx by (rewrite H; left; reflexivity).
  apply List.filter_In in Hx. tauto.
Qed.

(** C1. Accumulator idempotence.  For every state of the history file
    of a security (absent, or holding dated rows) and every single-date
    row, with storage that answers without faults: writing the row twice
    leaves the file as writing it once does, and the file then holds
    exactly one row of that date, its rows in ascending order of date. *)
Theorem accumulator_idempotent (stock_id stock_dir : pystr) (new_data_df : DataFrame)
  (d : date) (r : list cell) (st : FS) :
  single_date_row new_data_df d r ->
  storage_ready st (path_join stock_dir (stock_id ++ s_csv)) ->
  files (update_accumulation_file stock_id new_data_df stock_dir
           (update_accumulation_file stock_id new_data_df stock_dir st))
  = files (update_accumulation_file stock_id new_data_df stock_dir st)
  /\ exists F,
       files (update_accumulation_file stock_id new_data_df stock_dir st)
         !! path_join stock_dir (stock_id ++ s_csv) = Some F
       /\ length (rows_for_date F d) = 1%nat
       /\ sorted_by_date F.
Proof.
  set (acc := path_join stock_dir (stock_id ++ s_csv)).
  intros Hnew Hready. pose proof Hready as (Hf & Hpar & Hnd & Hhist).
  assert (exists F, update_accumulation_body stock_id new_data_df stock_dir st
            = (Ok tt, mkFS (<[acc := F]> (files st)) (dirs st) (writes st ++ [acc]) [])
          /\ history_table F /\ sorted_by_date F /\ length (rows_for_date F d) = 1%nat
          /\ accumulate F new_data_df = Ok F) as (F & Hbody & HF & Hsorted & Hone & Hfix).
  { destruct (files st !! acc) as [E|] eqn:HE.
    - destruct (accumulate_props E new_data_df d r (Hhist E eq_refl) Hnew)
        as (F & Hacc & Hcols & HF & Hs & Hk & Hrow).
      exists F. split; [apply (body_existing _ _ _ _ E F Hready HE Hacc)|].
      split; [exact HF|]. split; [exact Hs|]. split; [rewrite Hrow; reflexivity|].
      apply (accumulate_fixed F new_data_df d r HF Hnew); try assumption.
      + intros c Hc. rewrite Hcols. apply in_concat_columns_r, Hc.
      + apply (rows_for_date_In F d), Hrow.
    - destruct (single_row_props _ _ _ Hnew) as (Hs & Hk & Hrow & Hid).
      pose proof Hnew as (HN & Hrows & Hd).
      exists new_data_df. split; [apply (body_absent _ _ _ _ _ Hready HE), (first_write_single _ d r Hnew)|].
      split; [exact HN|]. split; [exact Hs|]. split; [rewrite Hrow; reflexivity|].
      apply (accumulate_fixed new_data_df new_data_df d r HN Hnew); try assumption.
      + auto.
      + rewrite Hid, Hrows. left. reflexivity. }
  unfold update_accumulation_file. rewrite Hbody. cbn [snd].
  rewrite (body_existing stock_id new_data_df stock_dir _ F F).
  - cbn [snd files]. split; [apply insert_insert_eq|].
    exists F. split; [apply lookup_insert_eq|]. split; assumption.
  - apply storage_ready_after; assumption.
  - cbn [files]. apply lookup_insert_eq.
  - exact Hfix.
Qed.

Lemma read_csv_dates_frame p st :
  files (read_csv_dates p st).2 = files st
  /\ dirs (read_csv_dates p st).2 = dirs st
  /\ writes (read_csv_dates p st).2 = writes st
  /\ forall E, (read_csv_dates p st).1 = Ok E -> files st !! p = Some E.
Proof.
  unfold read_csv_dates, next_fault. destruct st as [fs ds ws [|f fl]]; cbn [faults files].
  - destruct (fs !! p) as [E|]; [destruct (has_column E s_date)|]; cbn;
      repeat split; try discriminate. intros E' [= <-]. reflexivity.
  - destruct f; [destruct (fs !! p) as [E|]; [destruct (has_column E s_date)|]|..]; cbn;
      repeat split; try discriminate. intros E' [= <-]. reflexivity.
Qed.

Lemma to_csv_cases df p st :
  dirs (to_csv df p st).2 = dirs st
  /\ match (to_csv df p st).1 with
     | Ok _ =>
         files (to_csv df p st).2 = <[p := df]> (files st)
         /\ writes (to_csv df p st).2 = writes st ++ [p]
     | Raise _ =>
         (files (to_csv df p st).2 = files st /\ writes (to_csv df p st).2 = writes st)
         \/ exists k,
              files (to_csv df p st).2 = <[p := mkDF (columns df) (take k (rows df))]> (files st)
              /\ writes (to_csv df p st).2 = writes st ++ [p]
     end.
Proof.
  unfold to_csv, next_fault.
  destruct (negb (bool_decide (parent p ∈ dirs st)) || bool_decide (p ∈ dirs st)).
  - cbn. auto.
  - destruct st as [fs ds ws [|f fl]]; cbn; [auto|].
    destruct f; cbn; auto. split; [reflexivity|]. right. exists k. auto.
Qed.

(** C4 (as amended). The accumulator rewrites the history file in
    place: the only path it writes is the history file itself, there is
    no temporary file and no replacement.  When it succeeds the file
    holds the new table.  When it fails, either nothing was written and
    the stored content is unchanged, or the failure struck during the
    write and the file holds the first rows of the new table. *)
Theorem accumulator_writes_in_place (stock_id stock_dir : pystr) (new_data_df : DataFrame)
  (st : FS) :
  dirs (update_accumulation_body stock_id new_data_df stock_dir st).2 = dirs st
  /\ match (update_accumulation_body stock_id new_data_df stock_dir st).1 with
     | Ok _ =>
         exists df,
           new_content new_data_df
             (files st !! path_join stock_dir (stock_id ++ s_csv)) = Ok df
           /\ files (update_accumulation_body stock_id new_data_df stock_dir st).2
              = <[path_join stock_dir (stock_id ++ s_csv) := df]> (files st)
           /\ writes (update_accumulation_body stock_id new_data_df stock_dir st).2
              = writes st ++ [path_join stock_dir (stock_id ++ s_csv)]
     | Raise _ =>
         (files (update_accumulation_body stock_id new_data_df stock_dir st).2 = files st
          /\ writes (update_accumulation_body stock_id new_data_df stock_dir st).2 = writes st)
         \/ exists df k,
              new_content new_data_df
                (files st !! path_join stock_dir (stock_id ++ s_csv)) = Ok df
              /\ files (update_accumulation_body stock_id new_data_df stock_dir st).2
                 = <[path_join stock_dir (stock_id ++ s_csv)
                     := mkDF (columns df) (take k (rows df))]> (files st)
              /\ writes (update_accumulation_body stock_id new_data_df stock_dir st).2
                 = writes st ++ [path_join stock_dir (stock_id ++ s_csv)]
     end.
Proof.
  set (acc := path_join stock_dir (stock_id ++ s_csv)).
  unfold update_accumulation_body. fold acc. cbv zeta.
  destruct (path_exists acc st) eqn:Hex.
  - destruct (read_csv_dates_frame acc st) as (Hfs & Hds & Hws & Hread).
    destruct (read_csv_dates acc st) as [existing st1]. cbn [fst snd] in *.
    destruct existing as [E|e]; cbn [mbind result_bind].
    2:{ cbn. auto. }
    rewrite (Hread E eq_refl). cbn [new_content].
    change (combined_df ← pd_concat E new_data_df;
            deduped ← drop_duplicates_last combined_df s_date;
            sort_values deduped s_date) with (accumulate E new_data_df).
    destruct (accumulate E new_data_df) as [F|e].
    2:{ cbn. auto. }
    destruct (to_csv_cases F acc st1) as [Hd Hc]. rewrite Hd, Hds. split; [reflexivity|].
    destruct (to_csv F acc st1) as [[u|e] st2]; cbn [fst snd] in *.
    + exists F. rewrite <- Hfs, <- Hws. tauto.
    + destruct Hc as [[H1 H2] | (k & H1 & H2)].
      * left. split; congruence.
      * right. exists F, k. rewrite <- Hfs, <- Hws. tauto.
  - assert (files st !! acc = None) as Hnone.
    { unfold path_exists in Hex. apply orb_false_elim in Hex. destruct Hex as [Hex _].
      apply bool_decide_eq_false in Hex. apply not_elem_of_dom. exact Hex. }
    rewrite Hnone. cbn [new_content].
    change (combined_df ← Ok new_data_df;
            deduped ← drop_duplicates_last combined_df s_date;
            sort_values deduped s_date) with (first_write new_data_df).
    destruct (first_write new_data_df) as [F|e].
    2:{ cbn. auto. }
    destruct (to_csv_cases F acc st) as [Hd Hc]. rewrite Hd. split; [reflexivity|].
    destruct (to_csv F acc st) as [[u|e] st2]; cbn [fst snd] in *.
    + exists F. tauto.
    + destruct Hc as [[H1 H2] | (k & H1 & H2)].
      * left. split; congruence.
      * right. exists F, k. tauto.
Qed.

(** C4 as stated fails: a failure after the first row of the write
    leaves the history file of two rows with one row. *)
Lemma partial_write_counterexample :
  (update_accumulation_body s_2330 new_day3 dir_2330
     (storage_2330 [NoFault; FailAfter 1])).1 = Raise OSError
  /\ files (storage_2330 [NoFault; FailAfter 1]) !! acc_2330 = Some history_2330
  /\ files (update_accumulation_file s_2330 new_day3 dir_2330
              (storage_2330 [NoFault; FailAfter 1])) !! acc_2330
     = Some (mkDF (columns history_2330) [ [ Str s_2330; Num 10; Ts day1 ] ])
  /\ files (update_accumulation_file s_2330 new_day3 dir_2330
              (storage_2330 [NoFault; FailAfter 1])) !! acc_2330
     <> files (storage_2330 [NoFault; FailAfter 1]) !! acc_2330
  /\ writes (update_accumulation_file s_2330 new_day3 dir_2330
               (storage_2330 [NoFault; FailAfter 1])) = [acc_2330].
Proof.
  split; [vm_compute; reflexivity|]. split; [vm_compute; reflexivity|].
  split; [vm_compute; reflexivity|]. split; [|vm_compute; reflexivity].
  vm_compute. discriminate.
Qed.

(** *** Sample runs of the accumulator *)

Lemma history_table_sample cols rs :
  bool_decide (NoDup cols) = true ->
  forallb (fun r => Nat.eqb (length r) (length cols)) rs = true ->
  bool_decide (s_date ∈ cols) = true ->
  forallb (fun r => match date_cell cols r with Ts _ => true | _ => false end) rs = true ->
  history_table (mkDF cols rs).
Proof.
  intros H1 H2 H3 H4. split; [exact (bool_decide_eq_true_1 _ H1)|]. split; [|split].
  - unfold rectangular. cbn. apply Forall_forall. intros r Hr.
    rewrite forallb_forall in H2. apply Nat.eqb_eq, H2, list_elem_of_In, Hr.
  - apply list_elem_of_In. exact (bool_decide_eq_true_1 _ H3).
  - cbn. intros r Hr. rewrite forallb_forall in H4. specialize (H4 r Hr).
    destruct (date_cell cols r); try discriminate. eauto.
Qed.

Lemma storage_2330_ready : storage_ready (storage_2330 []) acc_2330.
Proof.
  split; [reflexivity|]. split; [apply (bool_decide_eq_true_1 _); vm_compute; reflexivity|].
  split; [apply (bool_decide_eq_false_1 _); vm_compute; reflexivity|].
  intros E HE. assert (E = history_2330) as ->.
  { unfold storage_2330 in HE. cbn [files] in HE. rewrite lookup_singleton_eq in HE.
    congruence. }
  apply history_table_sample; vm_compute; reflexivity.
Qed.

Lemma new_day2_single : single_date_row new_day2 day2 row_day2.
Proof.
  split; [apply history_table_sample; vm_compute; reflexivity|].
  split; vm_compute; reflexivity.
Qed.

Lemma accumulator_idempotent_witness :
  files (update_accumulation_file s_2330 new_day2 dir_2330
           (update_accumulation_file s_2330 new_day2 dir_2330 (storage_2330 [])))
  = files (update_accumulation_file s_2330 new_day2 dir_2330 (storage_2330 []))
  /\ exists F,
       files (update_accumulation_file s_2330 new_day2 dir_2330 (storage_2330 []))
         !! path_join dir_2330 (s_2330 ++ s_csv) = Some F
       /\ length (rows_for_date F day2) = 1%nat
       /\ sorted_by_date F.
Proof.
  apply (accumulator_idempotent s_2330 dir_2330 new_day2 day2 row_day2 (storage_2330 [])).
  - exact new_day2_single.
  - exact storage_2330_ready.
Defined.

Example last_write_wins_sample :
  files (update_accumulation_file s_2330 new_day2 dir_2330 (storage_2330 [])) !! acc_2330
  = Some (mkDF (columns history_2330) [ [ Str s_2330; Num 10; Ts day1 ]; row_day2 ]).
Proof. vm_compute. reflexivity. Qed.

(** ** The idempotency guard of the orchestrator *)

Lemma persist_all_app ROOT_DIR target_date twse tpex l1 l2 st :
  persist_all ROOT_DIR target_date twse tpex (l1 ++ l2) st
  = (s ← persist_all ROOT_DIR target_date twse tpex l1 st;
     persist_all ROOT_DIR target_date twse tpex l2 s).
Proof.
  revert st. induction l1 as [|[sid mt] l1 IH]; intros st; simpl; [reflexivity|].
  destruct (persist_stock ROOT_DIR target_date twse tpex sid mt st);
    cbn [mbind result_bind]; [apply IH | reflexivity].
Qed.

(** C3. The idempotency guard.  When the daily snapshot file of a
    security for the target date exists as the loop of [process_day]
    comes to the security, the turn of the security leaves the storage
    as it found it: no write reaches the file system, no file changes
    (the history file included), the accumulator is not called; the
    loop goes on as if the security were not in the list. *)
Theorem idempotency_guard (ROOT_DIR : pystr) (target_date : date)
  (twse_market_df tpex_market_df : DataFrame) (stock_id market_type : pystr) (st : FS) :
  path_exists (daily_file_of ROOT_DIR target_date stock_id market_type) st = true ->
  (forall st',
     persist_stock ROOT_DIR target_date twse_market_df tpex_market_df
       stock_id market_type st = Ok st' -> st' = st)
  /\ (forall before after st0 st_end,
        persist_all ROOT_DIR target_date twse_market_df tpex_market_df before st0 = Ok st ->
        persist_all ROOT_DIR target_date twse_market_df tpex_market_df
          (before ++ (stock_id, market_type) :: after) st0 = Ok st_end ->
        persist_all ROOT_DIR target_date twse_market_df tpex_market_df after st = Ok st_end).
Proof.
  intros Hex.
  assert (forall st',
     persist_stock ROOT_DIR target_date twse_market_df tpex_market_df
       stock_id market_type st = Ok st' -> st' = st) as Hstep.
  { intros st'. unfold persist_stock. unfold daily_file_of in Hex.
    destruct (df_empty (if decide (market_type = s_listed) then twse_market_df
                        else tpex_market_df)); [congruence|].
    destruct (getitem _ s_id) as [ids|e]; cbn [mbind result_bind]; [|discriminate].
    destruct (df_empty _); [congruence|].
    rewrite Hex. congruence. }
  split; [exact Hstep|].
  intros before after st0 st_end Hbefore. rewrite persist_all_app, Hbefore.
  cbn [mbind result_bind persist_all].
  destruct (persist_stock ROOT_DIR target_date twse_market_df tpex_market_df
              stock_id market_type st) as [st'|e] eqn:E; cbn [mbind result_bind];
    [|discriminate].
  rewrite (Hstep st' eq_refl). auto.
Qed.

Lemma idempotency_guard_witness :
  (forall st',
     persist_stock root_here day2 market_day2 empty_df s_2330 s_listed
       storage_with_snapshot = Ok st' -> st' = storage_with_snapshot)
  /\ (forall before after st0 st_end,
        persist_all root_here day2 market_day2 empty_df before st0
          = Ok storage_with_snapshot ->
        persist_all root_here day2 market_day2 empty_df
          (before ++ (s_2330, s_listed) :: after) st0 = Ok st_end ->
        persist_all root_here day2 market_day2 empty_df after storage_with_snapshot
          = Ok st_end).
Proof.
  apply (idempotency_guard root_here day2 market_day2 empty_df s_2330 s_listed
           storage_with_snapshot).
  vm_compute. reflexivity.
Defined.

Example guard_sample :
  persist_stock root_here day2 market_day2 empty_df s_2330 s_listed storage_with_snapshot
  = Ok storage_with_snapshot.
Proof. vm_compute. reflexivity. Qed.

(** ** The table merger: missing share counts *)

Lemma length_fillna_row col cols r : length (fillna_row col cols r) = length r.
Proof.
  revert r. induction cols as [|c cols IH]; intros [|v r]; simpl; try reflexivity.
  rewrite IH. reflexivity.
Qed.

Lemma lookup_fillna_row col cols r i c v :
  cols !! i = Some c -> r !! i = Some v ->
  fillna_row col cols r !! i
  = Some (if bool_decide (c = col) && isna v then Num 0 else v).
Proof.
  revert r i. induction cols as [|c' cols IH]; intros [|v' r] [|i]; simpl;
    try discriminate.
  - intros [= ->] [= ->]. reflexivity.
  - apply IH.
Qed.

Lemma fillna_shares_rows todo df :
  fillna_shares todo df
  = mkDF (columns df) (List.map (fillna_shares_row todo (columns df)) (rows df)).
Proof.
  revert df. induction todo as [|col todo IH]; intros [cols rs]; simpl.
  - rewrite map_id. reflexivity.
  - destruct (contains s_shares col); rewrite IH; [|reflexivity].
    unfold fillna_column. cbn [columns rows]. rewrite List.map_map. reflexivity.
Qed.

Lemma lookup_fillna_shares_row todo cols r i c v :
  cols !! i = Some c -> r !! i = Some v ->
  fillna_shares_row todo cols r !! i
  = Some (if bool_decide (c ∈ todo) && contains s_shares c && isna v then Num 0 else v).
Proof.
  intros Hc. revert r v. induction todo as [|col todo IH]; intros r v Hv; simpl.
  - rewrite Hv. reflexivity.
  - destruct (contains s_shares col) eqn:Hs.
    + rewrite (IH _ _ (lookup_fillna_row col cols r i c v Hc Hv)). f_equal.
      destruct (decide (c = col)) as [->|Hne].
      * rewrite (bool_decide_eq_true_2 (col = col)) by reflexivity.
        rewrite (bool_decide_eq_true_2 (col ∈ col :: todo)) by left. rewrite Hs.
        destruct (isna v) eqn:Hna; simpl.
        -- rewrite andb_false_r. reflexivity.
        -- rewrite Hna, andb_false_r. reflexivity.
      * rewrite (bool_decide_eq_false_2 (c = col)) by exact Hne. simpl.
        replace (bool_decide (c ∈ col :: todo)) with (bool_decide (c ∈ todo));
          [reflexivity|].
        apply bool_decide_ext. rewrite elem_of_cons. tauto.
    + rewrite (IH _ _ Hv). f_equal. destruct (decide (c = col)) as [->|Hne].
      * rewrite Hs, !andb_false_r. reflexivity.
      * replace (bool_decide (c ∈ col :: todo)) with (bool_decide (c ∈ todo));
          [reflexivity|].
        apply bool_decide_ext. rewrite elem_of_cons. tauto.
Qed.

(** *** The merge keeps tables rectangular *)

Lemma length_nonkey_cells k1 k2 cols r :
  length (nonkey_cells k1 k2 cols r)
  = length (List.filter (fun c => negb (is_key k1 k2 c)) cols).
Proof.
  revert r. induction cols as [|c cols IH]; intros r; simpl; [reflexivity|].
  destruct (is_key k1 k2 c); simpl; rewrite IH; reflexivity.
Qed.

Lemma Forall_sort_by {A} (P : A -> Prop) le (l : list A) :
  Forall P l -> Forall P (sort_by le l).
Proof.
  intros H. eapply Permutation_Forall; [apply sort_by_perm | exact H].
Qed.

Lemma pd_merge_rectangular k1 k2 left right out :
  rectangular left -> pd_merge k1 k2 left right = Ok out -> rectangular out.
Proof.
  intros RL. unfold pd_merge.
  destruct (positions k1 (columns left)) as [|l1 [|? ?]]; try discriminate;
    destruct (positions k2 (columns left)) as [|l2 [|? ?]]; try discriminate;
    destruct (positions k1 (columns right)) as [|r1 [|? ?]]; try discriminate;
    destruct (positions k2 (columns right)) as [|r2 [|? ?]]; try discriminate.
  cbv zeta. match goal with |- context [if ?b then Raise _ else _] => destruct b end;
    [discriminate|].
  intros [= <-]. unfold rectangular. cbn [columns rows].
  apply Forall_sort_by. rewrite length_app, !length_map.
  unfold rectangular in RL. rewrite Forall_forall in RL.
  apply Forall_app. split; apply Forall_forall; intros x Hx;
    apply list_elem_of_In, in_flat_map in Hx; destruct Hx as (y & Hy & Hx).
  - destruct (List.filter _ (rows right)) as [|m ms].
    + destruct Hx as [<- | []]. rewrite length_app, repeat_length.
      rewrite (RL y) by (apply list_elem_of_In, Hy). reflexivity.
    + change (In x (List.map (fun r => y ++ nonkey_cells k1 k2 (columns right) r)
                      (m :: ms))) in Hx.
      apply in_map_iff in Hx. destruct Hx as (z & <- & _).
      rewrite length_app, length_nonkey_cells.
      rewrite (RL y) by (apply list_elem_of_In, Hy). reflexivity.
  - destruct (bool_decide _); [destruct Hx|]. destruct Hx as [<- | []].
    rewrite length_app, length_nonkey_cells. unfold right_only_cells.
    rewrite length_map. reflexivity.
Qed.

Lemma merge_all_rectangular merged rest out :
  rectangular merged -> merge_all merged rest = Ok out -> rectangular out.
Proof.
  revert merged. induction rest as [|df rest IH]; intros merged R; simpl.
  - intros [= <-]. exact R.
  - destruct (pd_merge s_id s_name merged df) as [m|e] eqn:E;
      cbn [mbind result_bind]; [|discriminate].
    apply IH. eapply pd_merge_rectangular; eassumption.
Qed.

(** ** The table merger: order of the tables *)

(** *** Cells under labels *)

Lemma view_lookup cols r c : view cols r !! c = cell_opt (cell_under cols r c).
Proof.
  revert r. induction cols as [|c' cols IH]; intros [|v r]; simpl; try reflexivity.
  destruct (decide (c = c')) as [->|Hne].
  - unfold cell_opt. destruct (isna v); [apply lookup_delete_eq | apply lookup_insert_eq].
  - destruct (isna v);
      [rewrite lookup_delete_ne by congruence | rewrite lookup_insert_ne by congruence];
      apply IH.
Qed.

Lemma cell_opt_inj a b : cell_opt a = cell_opt b -> a = b.
Proof.
  unfold cell_opt. destruct a, b; simpl; congruence.
Qed.

Lemma cell_under_not_in cols r c : ~ In c cols -> cell_under cols r c = NaN.
Proof.
  revert r. induction cols as [|c' cols IH]; intros [|v r] H; simpl; try reflexivity.
  destruct (decide (c = c')) as [->|_]; [exfalso; apply H; left; reflexivity|].
  apply IH. intros Hin. apply H. right. exact Hin.
Qed.

Lemma cell_under_app cols1 cols2 l x c :
  length l = length cols1 ->
  cell_under (cols1 ++ cols2) (l ++ x) c
  = if bool_decide (c ∈ cols1) then cell_under cols1 l c else cell_under cols2 x c.
Proof.
  revert l. induction cols1 as [|c' cols1 IH]; intros [|v l] Hlen; simpl in *;
    try discriminate.
  - reflexivity.
  - destruct (decide (c = c')) as [->|Hne].
    + rewrite bool_decide_eq_true_2 by left. reflexivity.
    + rewrite IH by lia. apply (f_equal (fun b : bool => if b then _ else _)).
      apply bool_decide_ext. rewrite elem_of_cons. tauto.
Qed.

Lemma cell_under_repeat cols n c : cell_under cols (repeat NaN n) c = NaN.
Proof.
  revert n. induction cols as [|c' cols IH]; intros [|n]; simpl; try reflexivity.
  destruct (decide (c = c')); [reflexivity | apply IH].
Qed.

Lemma cell_at_under cols r i c :
  NoDup cols -> cols !! i = Some c -> cell_at i r = cell_under cols r c.
Proof.
  revert r i. induction cols as [|c' cols IH]; intros r i Hnd Hi; [discriminate|].
  apply NoDup_cons in Hnd. destruct Hnd as [Hc' Hnd].
  destruct r as [|v r]; [destruct i; reflexivity|].
  destruct i as [|i]; simpl in *.
  - injection Hi as ->. rewrite decide_True by reflexivity. reflexivity.
  - rewrite decide_False.
    + apply (IH r i Hnd Hi).
    + intros ->. apply Hc'. eapply list_elem_of_lookup_2, Hi.
Qed.

Lemma cell_under_nonkey cols r c :
  cell_under (List.filter (fun c => negb (is_key s_id s_name c)) cols)
    (nonkey_cells s_id s_name cols r) c
  = if is_key s_id s_name c then NaN else cell_under cols r c.
Proof.
  revert r. induction cols as [|c' cols IH]; intros r; simpl.
  - destruct (is_key s_id s_name c); reflexivity.
  - destruct (is_key s_id s_name c') eqn:Hk; simpl.
    + rewrite IH. destruct (is_key s_id s_name c) eqn:Hc; [reflexivity|].
      destruct r as [|v r]; simpl.
      * clear. induction cols as [|c2 cols IHc]; reflexivity.
      * rewrite decide_False; [reflexivity|]. intros ->. congruence.
    + destruct (decide (c = c')) as [->|Hne].
      * rewrite Hk. destruct r; reflexivity.
      * rewrite IH. destruct (is_key s_id s_name c); [reflexivity|].
        destruct r as [|v r]; simpl; [|reflexivity].
        clear. induction cols as [|c2 cols IHc]; reflexivity.
Qed.

Lemma cell_under_right_only lcols key c :
  cell_under lcols (right_only_cells s_id s_name lcols key) c
  = if bool_decide (c ∈ lcols)
    then (if bool_decide (c = s_id) then key.1
          else if bool_decide (c = s_name) then key.2 else NaN)
    else NaN.
Proof.
  unfold right_only_cells. induction lcols as [|c' lcols IH]; simpl; [reflexivity|].
  destruct (decide (c = c')) as [->|Hne].
  - rewrite (bool_decide_eq_true_2 (c' ∈ c' :: lcols)) by left. reflexivity.
  - rewrite IH. apply (f_equal (fun b : bool => if b then _ else _)).
    apply bool_decide_ext. rewrite elem_of_cons. tauto.
Qed.

(** *** The merged rows as records *)

Lemma is_key_iff c : is_key s_id s_name c = true <-> c = s_id \/ c = s_name.
Proof.
  unfold is_key. rewrite orb_true_iff, !bool_decide_eq_true. tauto.
Qed.

Lemma in_nonkey_columns df c :
  In c (nonkey_columns df) <-> In c (columns df) /\ c <> s_id /\ c <> s_name.
Proof.
  unfold nonkey_columns. rewrite List.filter_In, negb_true_iff.
  split; intros [H1 H2]; split; try assumption.
  - split; intros ->; discriminate.
  - destruct (is_key s_id s_name c) eqn:E; [|reflexivity].
    apply is_key_iff in E. tauto.
Qed.

Section MergeTwo.

Variables L R : DataFrame.
Hypothesis WL : keyed_table L.
Hypothesis WR : keyed_table R.
Hypothesis disjoint : forall c, In c (columns L) -> In c (nonkey_columns R) -> False.

Let VL := view (columns L).
Let VR := view (columns R).
Let VM := view (columns L ++ nonkey_columns R).

Lemma rect_L l : In l (rows L) -> length l = length (columns L).
Proof.
  intros H. destruct WL as (_ & RL & _). unfold rectangular in RL.
  rewrite Forall_forall in RL. apply RL, list_elem_of_In, H.
Qed.

Lemma view_left_only l n :
  In l (rows L) -> VM (l ++ repeat NaN n) = VL l.
Proof.
  intros Hl. apply map_eq. intros c. change pystr in c. unfold VM, VL. rewrite !view_lookup. f_equal.
  rewrite cell_under_app by (apply rect_L, Hl).
  destruct (bool_decide (c ∈ columns L)) eqn:E; [reflexivity|].
  rewrite cell_under_repeat. symmetry. apply cell_under_not_in.
  apply bool_decide_eq_false in E. intros H. apply E, list_elem_of_In, H.
Qed.

Lemma view_matched l r :
  In l (rows L) -> keyv (VL l) = keyv (VR r) ->
  VM (l ++ nonkey_cells s_id s_name (columns R) r) = VL l ∪ VR r.
Proof.
  intros Hl Hkey. apply map_eq. intros c. change pystr in c. unfold VM.
  rewrite lookup_union, !view_lookup.
  rewrite cell_under_app by (apply rect_L, Hl).
  unfold nonkey_columns. rewrite cell_under_nonkey.
  unfold keyv in Hkey. injection Hkey as Hk1 Hk2. unfold VL, VR in Hk1, Hk2.
  rewrite !view_lookup in Hk1, Hk2.
  destruct WL as (_ & _ & HidL & HnameL).
  destruct (bool_decide (c ∈ columns L)) eqn:E.
  - fold VL. unfold VL. rewrite view_lookup.
    destruct (cell_opt (cell_under (columns L) l c)) as [v|] eqn:Ev.
    + rewrite union_Some_l. reflexivity.
    + rewrite (left_id_L None (∪)).
      unfold VR. rewrite view_lookup.
      destruct (is_key s_id s_name c) eqn:Hc.
      * apply is_key_iff in Hc. destruct Hc as [-> | ->]; congruence.
      * symmetry. unfold cell_opt at 1.
        rewrite cell_under_not_in; [reflexivity|].
        intros Hin. apply bool_decide_eq_true in E.
        apply (disjoint c); [apply list_elem_of_In, E|].
        apply in_nonkey_columns. split; [exact Hin|].
        split; intros ->; rewrite (proj2 (is_key_iff _)) in Hc; auto; discriminate.
  - apply bool_decide_eq_false in E.
    assert (is_key s_id s_name c = false) as Hc.
    { destruct (is_key s_id s_name c) eqn:Hc; [|reflexivity]. exfalso. apply E.
      apply is_key_iff in Hc. destruct Hc as [-> | ->]; apply list_elem_of_In; assumption. }
    rewrite Hc. unfold VL, VR. rewrite !view_lookup.
    rewrite (cell_under_not_in (columns L)) by (intros H; apply E, list_elem_of_In, H).
    unfold cell_opt at 2. simpl. rewrite (left_id_L None (∪)). reflexivity.
Qed.

Lemma view_right_only r :
  VM (right_only_cells s_id s_name (columns L)
        (cell_under (columns R) r s_id, cell_under (columns R) r s_name)
      ++ nonkey_cells s_id s_name (columns R) r) = VR r.
Proof.
  apply map_eq. intros c. change pystr in c. unfold VM, VR. rewrite !view_lookup. f_equal.
  rewrite cell_under_app by (unfold right_only_cells; apply length_map).
  unfold nonkey_columns. rewrite cell_under_nonkey, cell_under_right_only.
  destruct WL as (_ & _ & HidL & HnameL).
  destruct (bool_decide (c ∈ columns L)) eqn:E.
  - cbn [fst snd]. destruct (decide (c = s_id)) as [->|H1].
    + rewrite bool_decide_eq_true_2 by reflexivity. reflexivity.
    + rewrite (bool_decide_eq_false_2 _ H1).
      destruct (decide (c = s_name)) as [->|H2].
      * rewrite bool_decide_eq_true_2 by reflexivity. reflexivity.
      * rewrite (bool_decide_eq_false_2 _ H2). symmetry. apply cell_under_not_in.
        intros Hin. apply bool_decide_eq_true in E.
        apply (disjoint c); [apply list_elem_of_In, E|].
        apply in_nonkey_columns. auto.
  - apply bool_decide_eq_false in E.
    destruct (is_key s_id s_name c) eqn:Hc; [|reflexivity]. exfalso. apply E.
    apply is_key_iff in Hc. destruct Hc as [-> | ->]; apply list_elem_of_In; assumption.
Qed.

End MergeTwo.

Lemma filter_map_comm {A B} (p : B -> bool) (f : A -> B) l :
  List.filter p (List.map f l) = List.map f (List.filter (fun x => p (f x)) l).
Proof.
  induction l as [|x l IH]; simpl; [reflexivity|].
  destruct (p (f x)); simpl; rewrite IH; reflexivity.
Qed.

Lemma map_flat_map_comm {A B C} (g : B -> C) (f : A -> list B) l :
  List.map g (flat_map f l) = flat_map (fun x => List.map g (f x)) l.
Proof.
  induction l as [|x l IH]; simpl; [reflexivity|].
  rewrite List.map_app, IH. reflexivity.
Qed.

Lemma flat_map_map_comm {A B C} (f : B -> list C) (h : A -> B) l :
  flat_map f (List.map h l) = flat_map (fun x => f (h x)) l.
Proof.
  induction l as [|x l IH]; simpl; [reflexivity|]. rewrite IH. reflexivity.
Qed.

Lemma flat_map_ext_in' {A B} (f g : A -> list B) l :
  (forall x, In x l -> f x = g x) -> flat_map f l = flat_map g l.
Proof.
  induction l as [|x l IH]; intros H; simpl; [reflexivity|].
  rewrite (H x) by (left; reflexivity). rewrite IH; [reflexivity|].
  intros y Hy. apply H. right. exact Hy.
Qed.

Lemma fresh_dup_same (cols : list pystr) :
  existsb (fun i => bool_decide (default [] (cols !! i) ∈ take i cols)
                    && negb (bool_decide (default [] (cols !! i) ∈ take i cols)))
    (seq 0 (length cols)) = false.
Proof.
  induction (seq 0 (length cols)) as [|i l IH]; simpl; [reflexivity|].
  rewrite IH, andb_negb_r. reflexivity.
Qed.

Section MergeRows.

Variables L R : DataFrame.
Hypothesis WL : keyed_table L.
Hypothesis WR : keyed_table R.
Hypothesis disjoint : forall c, In c (columns L) -> In c (nonkey_columns R) -> False.

Lemma key_of_under T i1 i2 r :
  NoDup (columns T) -> columns T !! i1 = Some s_id -> columns T !! i2 = Some s_name ->
  key_of i1 i2 r = (cell_under (columns T) r s_id, cell_under (columns T) r s_name).
Proof.
  intros Hnd H1 H2. unfold key_of.
  rewrite (cell_at_under _ r _ _ Hnd H1), (cell_at_under _ r _ _ Hnd H2). reflexivity.
Qed.

Lemma keyv_view cols r :
  keyv (view cols r) = (cell_opt (cell_under cols r s_id), cell_opt (cell_under cols r s_name)).
Proof. unfold keyv. rewrite !view_lookup. reflexivity. Qed.

Lemma key_test cols1 r1 cols2 r2 :
  bool_decide ((cell_under cols1 r1 s_id, cell_under cols1 r1 s_name)
               = (cell_under cols2 r2 s_id, cell_under cols2 r2 s_name))
  = bool_decide (keyv (view cols1 r1) = keyv (view cols2 r2)).
Proof.
  apply bool_decide_ext. rewrite !keyv_view. split.
  - intros [= -> ->]. reflexivity.
  - intros [= H1 H2]. apply cell_opt_inj in H1, H2. congruence.
Qed.

(** the merge of two keyed tables whose other labels are disjoint, and
    the records of its rows *)
Lemma pd_merge_views :
  exists M,
    pd_merge s_id s_name L R = Ok M
    /\ columns M = columns L ++ nonkey_columns R
    /\ rectangular M
    /\ Permutation (List.map (view (columns M)) (rows M))
         (outer_join (List.map (view (columns L)) (rows L))
            (List.map (view (columns R)) (rows R))).
Proof.
  pose proof WL as (NdL & RL & IdL & NameL). pose proof WR as (NdR & RR & IdR & NameR).
  destruct (positions_In _ _ NdL IdL) as (l1 & Hl1 & Pl1).
  destruct (positions_In _ _ NdL NameL) as (l2 & Hl2 & Pl2).
  destruct (positions_In _ _ NdR IdR) as (r1 & Hr1 & Pr1).
  destruct (positions_In _ _ NdR NameR) as (r2 & Hr2 & Pr2).
  assert (exists rs, pd_merge s_id s_name L R = Ok (mkDF (columns L ++ nonkey_columns R) rs)
            /\ Permutation rs
                 (flat_map (fun l =>
                    match List.filter (fun r => bool_decide (key_of r1 r2 r = key_of l1 l2 l))
                            (rows R) with
                    | [] => [l ++ repeat NaN (length (nonkey_columns R))]
                    | ms => List.map (fun r => l ++ nonkey_cells s_id s_name (columns R) r) ms
                    end) (rows L)
                  ++ flat_map (fun r =>
                       if bool_decide (key_of r1 r2 r ∈ List.map (key_of l1 l2) (rows L))
                       then []
                       else [right_only_cells s_id s_name (columns L) (key_of r1 r2 r)
                               ++ nonkey_cells s_id s_name (columns R) r]) (rows R)))
    as (rs & Hmerge & Hperm).
  { unfold pd_merge. rewrite Pl1, Pl2, Pr1, Pr2. cbv zeta. fold (nonkey_columns R).
    assert (List.map (fun c => if bool_decide (c ∈ columns L)
                                  && bool_decide (c ∈ nonkey_columns R)
                               then c ++ s_x else c) (columns L) = columns L) as ->.
    { rewrite <- (map_id (columns L)) at 2. apply map_ext_in. intros c Hc.
      rewrite (bool_decide_eq_false_2 (c ∈ nonkey_columns R)); [rewrite andb_false_r; reflexivity|].
      intros H. apply (disjoint c Hc), list_elem_of_In, H. }
    assert (List.map (fun c => if bool_decide (c ∈ columns L)
                                  && bool_decide (c ∈ nonkey_columns R)
                               then c ++ s_y else c) (nonkey_columns R) = nonkey_columns R)
      as ->.
    { rewrite <- (map_id (nonkey_columns R)) at 2. apply map_ext_in. intros c Hc.
      rewrite (bool_decide_eq_false_2 (c ∈ columns L)); [reflexivity|].
      intros H. apply (disjoint c); [apply list_elem_of_In, H | exact Hc]. }
    rewrite !fresh_dup_same. cbn [orb].
    eexists. split; [reflexivity|]. symmetry. apply sort_by_perm. }
  exists (mkDF (columns L ++ nonkey_columns R) rs). split; [exact Hmerge|].
  split; [reflexivity|]. split; [exact (pd_merge_rectangular _ _ _ _ _ RL Hmerge)|].
  cbn [columns rows]. etransitivity; [apply Permutation_map, Hperm|].
  match goal with |- Permutation ?a ?b => assert (a = b) as ->; [|reflexivity] end.
  rewrite List.map_app. unfold outer_join. f_equal.
  - rewrite map_flat_map_comm, flat_map_map_comm. apply flat_map_ext_in'. intros l Hl.
    unfold grp. rewrite filter_map_comm.
    assert (List.filter (fun r => bool_decide (key_of r1 r2 r = key_of l1 l2 l)) (rows R)
            = List.filter (fun x => bool_decide (keyv (view (columns R) x)
                                                 = keyv (view (columns L) l))) (rows R)) as E.
    { apply List.filter_ext. intros r.
      rewrite (key_of_under R r1 r2 r NdR Hr1 Hr2), (key_of_under L l1 l2 l NdL Hl1 Hl2).
      apply key_test. }
    rewrite E.
    assert (forall r, In r (List.filter (fun x => bool_decide (keyv (view (columns R) x)
                                            = keyv (view (columns L) l))) (rows R)) ->
            keyv (view (columns L) l) = keyv (view (columns R) r)) as Hkeys.
    { intros r Hr. apply List.filter_In in Hr. destruct Hr as [_ Hr].
      apply bool_decide_eq_true in Hr. congruence. }
    set (F := List.filter (fun x => bool_decide (keyv (view (columns R) x)
                                               = keyv (view (columns L) l))) (rows R)) in *.
    clearbody F. destruct F as [|m ms].
    + cbn [List.map]. f_equal. apply (view_left_only L R WL); assumption.
    + change (List.map (view (columns L ++ nonkey_columns R))
                (List.map (fun r => l ++ nonkey_cells s_id s_name (columns R) r) (m :: ms))
              = List.map (fun r => view (columns L) l ∪ r)
                  (List.map (view (columns R)) (m :: ms))).
      rewrite !List.map_map. apply map_ext_in. intros r Hr.
      apply (view_matched L R WL disjoint); [exact Hl | apply Hkeys, Hr].
  - rewrite map_flat_map_comm, flat_map_map_comm. apply flat_map_ext_in'. intros r Hr.
    assert (bool_decide (key_of r1 r2 r ∈ List.map (key_of l1 l2) (rows L))
            = bool_decide (keyv (view (columns R) r)
                           ∈ List.map keyv (List.map (view (columns L)) (rows L)))) as E.
    { apply bool_decide_ext. rewrite !list_elem_of_In, List.map_map, !in_map_iff.
      split; intros (l & Hk & Hl); exists l; (split; [|exact Hl]).
      - rewrite (key_of_under R r1 r2 r NdR Hr1 Hr2) in Hk.
        rewrite (key_of_under L l1 l2 l NdL Hl1 Hl2) in Hk.
        rewrite !keyv_view. injection Hk as H1 H2. rewrite H1, H2. reflexivity.
      - rewrite (key_of_under R r1 r2 r NdR Hr1 Hr2), (key_of_under L l1 l2 l NdL Hl1 Hl2).
        rewrite !keyv_view in Hk. injection Hk as H1 H2.
        apply cell_opt_inj in H1, H2. congruence. }
    rewrite E. clear E.
    set (b := bool_decide (keyv (view (columns R) r)
                           ∈ List.map keyv (List.map (view (columns L)) (rows L)))).
    clearbody b. destruct b; [reflexivity|].
    cbn [List.map]. f_equal.
    rewrite (key_of_under R r1 r2 r NdR Hr1 Hr2).
    apply (view_right_only L R WL disjoint).
Qed.

End MergeRows.

(** *** The outer join, key by key *)

Lemma keyv_union (l r : Row) : keyv l = keyv r -> keyv (l ∪ r) = keyv l.
Proof.
  unfold keyv. intros [= H1 H2]. rewrite !lookup_union, <- H1, <- H2.
  destruct (l !! s_id), (l !! s_name); reflexivity.
Qed.

Lemma filter_flat_map_comm {A B} (p : B -> bool) (f : A -> list B) l :
  List.filter p (flat_map f l) = flat_map (fun x => List.filter p (f x)) l.
Proof.
  induction l as [|x l IH]; simpl; [reflexivity|].
  rewrite List.filter_app, IH. reflexivity.
Qed.

Lemma flat_map_filter_if {A B} (p : A -> bool) (f : A -> list B) l :
  flat_map (fun x => if p x then f x else []) l = flat_map f (List.filter p l).
Proof.
  induction l as [|x l IH]; simpl; [reflexivity|].
  destruct (p x); simpl; rewrite IH; reflexivity.
Qed.

Lemma flat_map_singleton {A} (l : list A) : flat_map (fun x => [x]) l = l.
Proof. induction l as [|x l IH]; simpl; [reflexivity | rewrite IH; reflexivity]. Qed.

Lemma flat_map_nil {A B} (l : list A) : flat_map (fun _ => @nil B) l = [].
Proof. induction l as [|x l IH]; simpl; [reflexivity | exact IH]. Qed.

Lemma grp_In (k : Key) (X : list Row) (m : Row) : In m (grp k X) <-> In m X /\ keyv m = k.
Proof. unfold grp. rewrite List.filter_In, bool_decide_eq_true. reflexivity. Qed.

Lemma grp_nil_iff (k : Key) (X : list Row) : grp k X = [] <-> ~ In k (List.map keyv X).
Proof.
  split.
  - intros H Hin. apply in_map_iff in Hin. destruct Hin as (m & Hk & Hm).
    assert (In m (grp k X)) as Hg by (apply grp_In; auto). rewrite H in Hg. destruct Hg.
  - intros H. destruct (grp k X) as [|m ms] eqn:E; [reflexivity|]. exfalso. apply H.
    assert (In m (grp k X)) as Hg by (rewrite E; left; reflexivity).
    apply grp_In in Hg. destruct Hg as [Hm <-]. apply in_map, Hm.
Qed.

Lemma grp_all_same (k : Key) (l : Row) (ms : list Row) (u : Row -> Row) :
  (forall r, In r ms -> keyv (u r) = keyv l) ->
  grp k (List.map u ms) = if bool_decide (keyv l = k) then List.map u ms else [].
Proof.
  intros H. unfold grp. induction ms as [|r ms IH]; simpl.
  - destruct (bool_decide _); reflexivity.
  - rewrite (H r) by (left; reflexivity). rewrite IH by (intros; apply H; right; assumption).
    destruct (bool_decide (keyv l = k)); reflexivity.
Qed.

Lemma grp_block (k : Key) (B : list Row) (l : Row) :
  grp k (match grp (keyv l) B with
         | [] => [l]
         | ms => List.map (fun r => l ∪ r) ms
         end)
  = if bool_decide (keyv l = k)
    then match grp k B with
         | [] => [l]
         | ms => List.map (fun r => l ∪ r) ms
         end
    else [].
Proof.
  destruct (decide (keyv l = k)) as [E|E].
  - rewrite (bool_decide_eq_true_2 _ E). rewrite E.
    assert (forall r, In r (grp k B) -> keyv (l ∪ r) = keyv l) as H.
    { intros r Hr. apply grp_In in Hr. apply keyv_union. rewrite E. symmetry. tauto. }
    destruct (grp k B) as [|m ms].
    + unfold grp. simpl. rewrite (bool_decide_eq_true_2 _ E). reflexivity.
    + rewrite (grp_all_same k l (m :: ms) (fun r => l ∪ r) H).
      rewrite (bool_decide_eq_true_2 _ E). reflexivity.
  - rewrite (bool_decide_eq_false_2 _ E).
    assert (forall r, In r (grp (keyv l) B) -> keyv (l ∪ r) = keyv l) as H.
    { intros r Hr. apply grp_In in Hr. apply keyv_union. symmetry. tauto. }
    destruct (grp (keyv l) B) as [|m ms].
    + unfold grp. simpl. rewrite (bool_decide_eq_false_2 _ E). reflexivity.
    + rewrite (grp_all_same k l (m :: ms) (fun r => l ∪ r) H).
      rewrite (bool_decide_eq_false_2 _ E). reflexivity.
Qed.

Lemma grp_app (k : Key) (X Y : list Row) : grp k (X ++ Y) = grp k X ++ grp k Y.
Proof. apply List.filter_app. Qed.

Lemma grp_flat_map {A} (k : Key) (f : A -> list Row) l :
  grp k (flat_map f l) = flat_map (fun x => grp k (f x)) l.
Proof. apply filter_flat_map_comm. Qed.

(** the rows of one key in an outer join are the join of the rows of
    that key *)
Lemma grp_outer_join (k : Key) (A B : list Row) :
  grp k (outer_join A B) = otimes (grp k A) (grp k B).
Proof.
  unfold outer_join. rewrite grp_app, !grp_flat_map.
  assert (flat_map (fun l => grp k (match grp (keyv l) B with
                                    | [] => [l]
                                    | ms => List.map (fun r => l ∪ r) ms
                                    end)) A
          = match grp k B with
            | [] => grp k A
            | ms => cross (grp k A) ms
            end) as ->.
  { erewrite flat_map_ext; [|intros l; apply grp_block].
    rewrite (flat_map_filter_if (fun l => bool_decide (keyv l = k))). fold (grp k A).
    destruct (grp k B) as [|m ms]; [apply flat_map_singleton | reflexivity]. }
  assert (flat_map (fun r => grp k (if bool_decide (keyv r ∈ List.map keyv A)
                                    then [] else [r])) B
          = if bool_decide (k ∈ List.map keyv A) then [] else grp k B) as ->.
  { erewrite flat_map_ext.
    2:{ intros r. instantiate (1 := fun r => if bool_decide (keyv r = k)
                                     then (if bool_decide (k ∈ List.map keyv A)
                                           then [] else [r]) else []).
        cbv beta. destruct (decide (keyv r = k)) as [E|E].
        - rewrite (bool_decide_eq_true_2 _ E), E.
          destruct (bool_decide (k ∈ List.map keyv A)); [reflexivity|].
          unfold grp. simpl. rewrite (bool_decide_eq_true_2 _ E). reflexivity.
        - rewrite (bool_decide_eq_false_2 _ E).
          destruct (bool_decide (keyv r ∈ List.map keyv A)); [reflexivity|].
          unfold grp. simpl. rewrite (bool_decide_eq_false_2 _ E). reflexivity. }
    rewrite (flat_map_filter_if (fun r => bool_decide (keyv r = k))). fold (grp k B).
    destruct (bool_decide (k ∈ List.map keyv A));
      [apply flat_map_nil | apply flat_map_singleton]. }
  destruct (decide (k ∈ List.map keyv A)) as [Hin|Hin].
  - rewrite (bool_decide_eq_true_2 _ Hin), app_nil_r.
    destruct (grp k A) as [|a As] eqn:EA.
    + exfalso. apply grp_nil_iff in EA. apply EA, list_elem_of_In, Hin.
    + destruct (grp k B); reflexivity.
  - rewrite (bool_decide_eq_false_2 _ Hin).
    assert (grp k A = []) as -> by (apply grp_nil_iff; rewrite <- list_elem_of_In; exact Hin).
    destruct (grp k B); reflexivity.
Qed.

(** two lists with the same rows of every key are permutations *)
Lemma count_occ_grp (x : Row) (X : list Row) :
  count_occ (fun a b => decide (a = b)) X x
  = count_occ (fun a b => decide (a = b)) (grp (keyv x) X) x.
Proof.
  induction X as [|m X IH]; simpl; [reflexivity|].
  destruct (decide (m = x)) as [->|Hne].
  - unfold grp. simpl. rewrite bool_decide_eq_true_2 by reflexivity. simpl.
    rewrite decide_True by reflexivity. f_equal. exact IH.
  - unfold grp. simpl. destruct (bool_decide (keyv m = keyv x)); simpl.
    + rewrite decide_False by exact Hne. exact IH.
    + exact IH.
Qed.

Lemma perm_by_groups (X Y : list Row) :
  (forall k, Permutation (grp k X) (grp k Y)) -> Permutation X Y.
Proof.
  intros H. apply (Permutation_count_occ (fun a b => decide (a = b))). intros x.
  rewrite (count_occ_grp x X), (count_occ_grp x Y).
  apply (Permutation_count_occ (fun a b => decide (a = b))), H.
Qed.

Lemma grp_perm (k : Key) (X Y : list Row) : Permutation X Y -> Permutation (grp k X) (grp k Y).
Proof. apply filter_perm. Qed.

(** *** The join of the rows of one key *)

Lemma cross_cons (g : Row) (G H : list Row) : cross (g :: G) H = List.map (fun h => g ∪ h) H ++ cross G H.
Proof. reflexivity. Qed.

Lemma cross_nil_r (G : list Row) : cross G [] = [].
Proof. unfold cross. apply flat_map_nil. Qed.

Lemma cross_perm (G G' H H' : list Row) :
  Permutation G G' -> Permutation H H' -> Permutation (cross G H) (cross G' H').
Proof.
  intros HG HH. transitivity (cross G H').
  - clear HG. induction G as [|g G IH]; [reflexivity|].
    rewrite !cross_cons. apply Permutation_app; [apply Permutation_map, HH | exact IH].
  - unfold cross. apply Permutation_flat_map, HG.
Qed.

Lemma flat_map_cons_perm {A B} (f : A -> B) (F : A -> list B) l :
  Permutation (flat_map (fun h => f h :: F h) l) (List.map f l ++ flat_map F l).
Proof.
  induction l as [|h l IH]; simpl; [reflexivity|].
  apply perm_skip. rewrite IH.
  rewrite !app_assoc. apply Permutation_app_tail, Permutation_app_comm.
Qed.

Lemma cross_comm (G H : list Row) : commute G H -> Permutation (cross G H) (cross H G).
Proof.
  induction G as [|g G IH]; intros Hc.
  - rewrite cross_nil_r. reflexivity.
  - rewrite cross_cons. unfold cross at 2. cbn [List.map].
    rewrite flat_map_cons_perm. apply Permutation_app.
    + apply Permutation_refl'. apply map_ext_in. intros h Hh. apply Hc; [left; reflexivity | exact Hh].
    + apply IH. intros g' h Hg Hh. apply Hc; [right; exact Hg | exact Hh].
Qed.

Lemma cross_app (G1 G2 H : list Row) : cross (G1 ++ G2) H = cross G1 H ++ cross G2 H.
Proof. unfold cross. apply flat_map_app. Qed.

Lemma cross_map_union (g : Row) (H I : list Row) :
  cross (List.map (fun h => g ∪ h) H) I = List.map (fun x => g ∪ x) (cross H I).
Proof.
  induction H as [|h H IH]; [reflexivity|].
  cbn [List.map]. rewrite !cross_cons, List.map_app, IH, List.map_map. f_equal.
  apply map_ext. intros i. symmetry. apply (assoc_L (∪)).
Qed.

Lemma cross_assoc (G H I : list Row) : cross (cross G H) I = cross G (cross H I).
Proof.
  induction G as [|g G IH]; [reflexivity|].
  rewrite !cross_cons, cross_app, IH, cross_map_union. reflexivity.
Qed.

Lemma cross_nonempty (g : Row) (G : list Row) (h : Row) (H : list Row) : cross (g :: G) (h :: H) <> [].
Proof. rewrite cross_cons. discriminate. Qed.

Lemma otimes_nil_r (G : list Row) : otimes G [] = G.
Proof. destruct G; reflexivity. Qed.

Lemma otimes_assoc (G H I : list Row) : otimes (otimes G H) I = otimes G (otimes H I).
Proof.
  destruct G as [|g G]; [reflexivity|].
  destruct H as [|h H]; [reflexivity|].
  destruct I as [|i I]; [rewrite !otimes_nil_r; reflexivity|].
  cbn [otimes].
  pose proof (cross_nonempty g G h H) as H1. pose proof (cross_nonempty h H i I) as H2.
  destruct (cross (g :: G) (h :: H)) as [|x X] eqn:E1; [contradiction|].
  destruct (cross (h :: H) (i :: I)) as [|y Y] eqn:E2; [contradiction|].
  cbn [otimes]. rewrite <- E1, <- E2. apply cross_assoc.
Qed.

Lemma otimes_perm (G G' H H' : list Row) :
  Permutation G G' -> Permutation H H' -> Permutation (otimes G H) (otimes G' H').
Proof.
  intros HG HH.
  destruct G as [|g G].
  { apply Permutation_nil in HG. subst G'. exact HH. }
  destruct G' as [|g' G']; [apply Permutation_sym, Permutation_nil in HG; discriminate|].
  destruct H as [|h H].
  { apply Permutation_nil in HH. subst H'. exact HG. }
  destruct H' as [|h' H']; [apply Permutation_sym, Permutation_nil in HH; discriminate|].
  cbn [otimes]. apply cross_perm; assumption.
Qed.

Lemma otimes_comm (G H : list Row) : commute G H -> Permutation (otimes G H) (otimes H G).
Proof.
  intros Hc. destruct G as [|g G]; [rewrite otimes_nil_r; reflexivity|].
  destruct H as [|h H]; [reflexivity|]. cbn [otimes]. apply cross_comm, Hc.
Qed.

(** *** The join over a list of tables *)

Lemma foldl_otimes (G : list Row) (gs : list (list Row)) :
  foldl otimes G gs = otimes G (bigotimes gs).
Proof.
  revert G. induction gs as [|g gs IH]; intros G; simpl.
  - symmetry. apply otimes_nil_r.
  - rewrite IH. apply otimes_assoc.
Qed.

Lemma commute_groups (k : Key) (p q : list pystr * list Row) :
  group_ok k p -> group_ok k q ->
  (forall c, In c p.1 -> In c q.1 -> False) ->
  commute p.2 q.2.
Proof.
  intros Hp Hq Hdis g h Hg Hh. destruct (Hp g Hg) as [Kg Dg]. destruct (Hq h Hh) as [Kh Dh].
  apply map_eq. intros c. rewrite !lookup_union.
  destruct (g !! c) as [v|] eqn:Eg, (h !! c) as [w|] eqn:Eh; try reflexivity.
  assert (v = w) as ->; [|reflexivity].
  unfold keyv in Kg, Kh. rewrite <- Kh in Kg. injection Kg as K1 K2.
  assert (is_Some (g !! c)) as Sg by (rewrite Eg; eauto).
  assert (is_Some (h !! c)) as Sh by (rewrite Eh; eauto).
  destruct (Dg c Sg) as [-> | [-> | Hc]].
  { pose proof (eq_trans (eq_sym Eg) (eq_trans K1 Eh)) as E. injection E. auto. }
  { pose proof (eq_trans (eq_sym Eg) (eq_trans K2 Eh)) as E. injection E. auto. }
  destruct (Dh c Sh) as [-> | [-> | Hc']].
  { pose proof (eq_trans (eq_sym Eg) (eq_trans K1 Eh)) as E. injection E. auto. }
  { pose proof (eq_trans (eq_sym Eg) (eq_trans K2 Eh)) as E. injection E. auto. }
  exfalso. eapply Hdis; eassumption.
Qed.

Lemma NoDup_concat_disjoint {A} (a b : list A) (rest : list (list A)) x :
  NoDup (concat (a :: b :: rest)) -> In x a -> In x b -> False.
Proof.
  simpl. intros H Ha Hb. apply NoDup_app in H. destruct H as (_ & H & _).
  apply (H x); [apply list_elem_of_In, Ha|]. apply list_elem_of_In, in_or_app. left. exact Hb.
Qed.

Lemma concat_perm {A} (l l' : list (list A)) :
  Permutation l l' -> Permutation (concat l) (concat l').
Proof.
  induction 1 as [|x l l' _ IH|x y l|l l' l'' _ IH1 _ IH2]; simpl.
  - reflexivity.
  - apply Permutation_app_head, IH.
  - rewrite !app_assoc. apply Permutation_app_tail, Permutation_app_comm.
  - etransitivity; eassumption.
Qed.

Lemma bigotimes_perm (k : Key) (ps ps' : list (list pystr * list Row)) :
  Permutation ps ps' ->
  Forall (group_ok k) ps -> NoDup (concat (List.map fst ps)) ->
  Permutation (bigotimes (List.map snd ps)) (bigotimes (List.map snd ps')).
Proof.
  induction 1 as [|x l l' HP IH|x y l|l l' l'' HP1 IH1 HP2 IH2]; intros Hok Hnd.
  - reflexivity.
  - simpl. apply otimes_perm; [reflexivity|]. apply IH.
    + apply Forall_cons in Hok. tauto.
    + simpl in Hnd. apply NoDup_app in Hnd. tauto.
  - simpl. rewrite <- !otimes_assoc. apply otimes_perm; [|reflexivity].
    apply Forall_cons in Hok. destruct Hok as [Hy Hok].
    apply Forall_cons in Hok. destruct Hok as [Hx _].
    apply otimes_comm. apply (commute_groups k y x Hy Hx).
    intros c Hc1 Hc2. apply (NoDup_concat_disjoint _ _ _ c Hnd Hc1 Hc2).
  - etransitivity; [apply IH1; assumption|]. apply IH2.
    + eapply Permutation_Forall; eassumption.
    + apply NoDup_ListNoDup. eapply Permutation_NoDup; [|apply NoDup_ListNoDup, Hnd].
      apply concat_perm, Permutation_map, HP1.
Qed.

Lemma foldl_otimes_perm (X X' : list Row) gs :
  Permutation X X' -> Permutation (foldl otimes X gs) (foldl otimes X' gs).
Proof.
  intros H. rewrite !foldl_otimes. apply otimes_perm; [exact H | reflexivity].
Qed.

(** *** The loop of the merger *)

Lemma nonkey_columns_app cols1 cols2 :
  List.filter (fun c => negb (is_key s_id s_name c)) (cols1 ++ cols2)
  = List.filter (fun c => negb (is_key s_id s_name c)) cols1
    ++ List.filter (fun c => negb (is_key s_id s_name c)) cols2.
Proof. apply List.filter_app. Qed.

Lemma filter_idem {A} (p : A -> bool) l : List.filter p (List.filter p l) = List.filter p l.
Proof.
  induction l as [|x l IH]; simpl; [reflexivity|].
  destruct (p x) eqn:E; simpl; [rewrite E, IH; reflexivity | exact IH].
Qed.

Lemma merge_step L R :
  keyed_table L -> keyed_table R ->
  NoDup (nonkey_columns L ++ nonkey_columns R) ->
  exists M,
    pd_merge s_id s_name L R = Ok M
    /\ keyed_table M
    /\ columns M = columns L ++ nonkey_columns R
    /\ nonkey_columns M = nonkey_columns L ++ nonkey_columns R
    /\ Permutation (views M) (outer_join (views L) (views R)).
Proof.
  intros WL WR Hnd.
  assert (forall c, In c (columns L) -> In c (nonkey_columns R) -> False) as Hdis.
  { intros c HcL HcR. pose proof HcR as HcR'. apply in_nonkey_columns in HcR'.
    destruct HcR' as (_ & H1 & H2).
    apply NoDup_app in Hnd. destruct Hnd as (_ & Hnd & _).
    apply (Hnd c); [|apply list_elem_of_In, HcR].
    apply list_elem_of_In, in_nonkey_columns. auto. }
  destruct (pd_merge_views L R WL WR Hdis) as (M & Hm & Hc & Hr & Hv).
  exists M. split; [exact Hm|].
  pose proof WL as (NdL & RL & IdL & NameL). pose proof WR as (NdR & RR & IdR & NameR).
  split; [|split; [exact Hc|split]].
  - split; [|split; [exact Hr|]].
    + rewrite Hc. apply NoDup_app. split; [exact NdL|]. split.
      * intros c H1 H2. apply (Hdis c); apply list_elem_of_In; assumption.
      * apply NoDup_ListNoDup, List.NoDup_filter, NoDup_ListNoDup, NdR.
    + rewrite Hc. split; apply in_or_app; left; assumption.
  - unfold nonkey_columns in *. rewrite Hc, List.filter_app, filter_idem. reflexivity.
  - exact Hv.
Qed.

Lemma merge_all_views merged rest :
  keyed_table merged -> Forall keyed_table rest ->
  NoDup (nonkey_columns merged ++ concat (List.map nonkey_columns rest)) ->
  exists M,
    merge_all merged rest = Ok M
    /\ keyed_table M
    /\ columns M = columns merged ++ concat (List.map nonkey_columns rest)
    /\ forall k, Permutation (grp k (views M))
                   (foldl otimes (grp k (views merged))
                      (List.map (fun df => grp k (views df)) rest)).
Proof.
  revert merged. induction rest as [|df rest IH]; intros merged Wm Wr Hnd.
  - exists merged. simpl. rewrite app_nil_r. repeat split; try apply Wm; reflexivity.
  - apply Forall_cons in Wr. destruct Wr as [Wd Wr]. cbn [List.map concat] in Hnd.
    rewrite app_assoc in Hnd.
    destruct (merge_step merged df Wm Wd) as (M1 & Hm & WM1 & Hc1 & Hn1 & Hv1).
    { apply NoDup_app in Hnd. tauto. }
    destruct (IH M1 WM1 Wr) as (M & HM & WM & Hc & Hk).
    { rewrite Hn1. exact Hnd. }
    exists M. cbn [merge_all]. rewrite Hm. cbn [mbind result_bind].
    split; [exact HM|]. split; [exact WM|]. split.
    + rewrite Hc, Hc1. cbn [List.map concat]. rewrite app_assoc. reflexivity.
    + intros k. rewrite (Hk k). cbn [List.map foldl].
      apply foldl_otimes_perm. rewrite <- grp_outer_join. apply grp_perm, Hv1.
Qed.

(** *** The zero fill on records *)

Lemma zero_fill_lookup cols c :
  zero_fill cols !! c
  = if bool_decide (c ∈ cols) && contains s_shares c then Some (Num 0) else None.
Proof.
  unfold zero_fill. induction cols as [|c' cols IH]; simpl; [reflexivity|].
  destruct (decide (c = c')) as [->|Hne].
  - rewrite (bool_decide_eq_true_2 (c' ∈ c' :: cols)) by left. simpl.
    destruct (contains s_shares c') eqn:Hs; simpl.
    + apply lookup_insert_eq.
    + rewrite IH, andb_false_r. reflexivity.
  - assert (bool_decide (c ∈ c' :: cols) = bool_decide (c ∈ cols)) as ->.
    { apply bool_decide_ext. rewrite elem_of_cons. tauto. }
    destruct (contains s_shares c'); simpl; [|exact IH].
    rewrite lookup_insert_ne by congruence. exact IH.
Qed.

Lemma length_fillna_shares_row todo cols r : length (fillna_shares_row todo cols r) = length r.
Proof.
  revert r. induction todo as [|col todo IH]; intros r; simpl; [reflexivity|].
  destruct (contains s_shares col); rewrite IH; [apply length_fillna_row | reflexivity].
Qed.

Lemma view_fillna cols r :
  NoDup cols -> length r = length cols ->
  view cols (fillna_shares_row cols cols r) = view cols r ∪ zero_fill cols.
Proof.
  intros Hnd Hlen. apply map_eq. intros c. change pystr in c.
  rewrite lookup_union, !view_lookup, zero_fill_lookup.
  destruct (decide (c ∈ cols)) as [Hin|Hin].
  - rewrite (bool_decide_eq_true_2 _ Hin). cbn [andb].
    apply list_elem_of_lookup_1 in Hin. destruct Hin as [i Hi].
    assert (i < length r)%nat as Hlt by (rewrite Hlen; eapply lookup_lt_Some, Hi).
    destruct (lookup_lt_is_Some_2 r i Hlt) as [v Hv].
    rewrite <- !(cell_at_under cols _ i c Hnd Hi). unfold cell_at.
    rewrite (lookup_fillna_shares_row cols cols r i c v Hi Hv), Hv. cbn [default].
    rewrite (bool_decide_eq_true_2 (c ∈ cols)) by (eapply list_elem_of_lookup_2, Hi).
    cbn [andb]. unfold cell_opt.
    destruct (isna v) eqn:Hna, (contains s_shares c); simpl; try rewrite Hna; reflexivity.
  - rewrite (bool_decide_eq_false_2 _ Hin). cbn [andb].
    rewrite !cell_under_not_in by (intros H; apply Hin, list_elem_of_In, H). reflexivity.
Qed.

Lemma zero_fill_perm cols cols' :
  (forall x, In x cols <-> In x cols') -> zero_fill cols = zero_fill cols'.
Proof.
  intros H. apply map_eq. intros c. change pystr in c. rewrite !zero_fill_lookup.
  rewrite (bool_decide_ext (c ∈ cols) (c ∈ cols')); [reflexivity|]. rewrite !list_elem_of_In. apply H.
Qed.

(** *** The merger on a list of tables *)

Lemma mergeable_valid dfs :
  Forall keyed_table dfs ->
  List.filter (fun df => has_column df s_id && has_column df s_name) dfs = dfs.
Proof.
  induction 1 as [|df dfs (_ & _ & Hid & Hname) _ IH]; [reflexivity|].
  cbn [List.filter]. unfold has_column at 1 2.
  rewrite !bool_decide_eq_true_2 by (apply list_elem_of_In; assumption).
  cbn [andb]. rewrite IH. reflexivity.
Qed.

Lemma keyed_columns_char df x :
  keyed_table df ->
  In x (columns df) <-> x = s_id \/ x = s_name \/ In x (nonkey_columns df).
Proof.
  intros (_ & _ & Hid & Hname). rewrite in_nonkey_columns. split.
  - intros H. destruct (decide (x = s_id)); [auto|]. destruct (decide (x = s_name)); auto.
  - intros [-> | [-> | [H _]]]; assumption.
Qed.

Lemma group_ok_key_group (k : Key) df : group_ok k (key_group k df).
Proof.
  intros g Hg. cbn [key_group fst snd] in *. apply grp_In in Hg. destruct Hg as [Hg Hk].
  split; [exact Hk|]. intros c Hc. change pystr in c.
  unfold views in Hg. apply in_map_iff in Hg. destruct Hg as (r & <- & _).
  rewrite view_lookup in Hc.
  destruct (decide (c = s_id)) as [|H1]; [auto|].
  destruct (decide (c = s_name)) as [|H2]; [auto|].
  right. right. apply in_nonkey_columns. split; [|auto].
  destruct (decide (c ∈ columns df)) as [Hin|Hin]; [apply list_elem_of_In, Hin|].
  rewrite cell_under_not_in in Hc by (intros H; apply Hin, list_elem_of_In, H).
  destruct Hc as [? Hc]. discriminate.
Qed.

Lemma merge_dataframes_views dfs :
  mergeable dfs -> dfs <> [] ->
  exists M out,
    merge_dataframes dfs = Ok out
    /\ columns out = columns M
    /\ NoDup (columns M)
    /\ (forall x, In x (columns M) <->
          x = s_id \/ x = s_name \/ exists df, In df dfs /\ In x (nonkey_columns df))
    /\ views out = List.map (fun m => m ∪ zero_fill (columns M)) (views M)
    /\ forall k, Permutation (grp k (views M))
                   (bigotimes (List.map snd (List.map (key_group k) dfs))).
Proof.
  intros [Wk Hnd] Hne. destruct dfs as [|first rest]; [contradiction|].
  pose proof Wk as Wk'. apply Forall_cons in Wk'. destruct Wk' as [Wf Wr].
  destruct (merge_all_views first rest Wf Wr Hnd) as (M & HM & WM & Hc & Hk).
  exists M, (fillna_shares (columns M) M).
  split.
  { unfold merge_dataframes. rewrite (mergeable_valid _ Wk), HM. reflexivity. }
  rewrite fillna_shares_rows. cbn [columns]. split; [reflexivity|].
  pose proof WM as (NdM & RM & _). split; [exact NdM|]. split; [|split].
  - intros x. rewrite Hc, in_app_iff, (keyed_columns_char first x Wf), in_concat. split.
    + intros [[-> | [-> | H]] | (l & Hl & Hx)]; auto.
      * right. right. exists first. split; [left; reflexivity | exact H].
      * apply in_map_iff in Hl. destruct Hl as (df & <- & Hdf).
        right. right. exists df. split; [right; exact Hdf | exact Hx].
    + intros [-> | [-> | (df & [<- | Hdf] & Hx)]]; auto.
      right. exists (nonkey_columns df). split; [apply in_map, Hdf | exact Hx].
  - unfold views. cbn [columns rows]. rewrite !List.map_map. apply map_ext_in.
    intros r Hr. apply view_fillna; [exact NdM|].
    unfold rectangular in RM. rewrite Forall_forall in RM. apply RM, list_elem_of_In, Hr.
  - intros k. rewrite (Hk k), foldl_otimes. cbn [List.map bigotimes foldr].
    rewrite List.map_map. reflexivity.
Qed.

Lemma mergeable_perm dfs dfs' : Permutation dfs dfs' -> mergeable dfs -> mergeable dfs'.
Proof.
  intros HP [Wk Hnd]. split.
  - eapply Permutation_Forall; eassumption.
  - apply NoDup_ListNoDup. eapply Permutation_NoDup; [|apply NoDup_ListNoDup, Hnd].
    apply concat_perm, Permutation_map, HP.
Qed.

Lemma same_content_views a b :
  Permutation (columns a) (columns b) ->
  Permutation (views a) (views b) ->
  same_content a b.
Proof.
  intros Hc Hv. split; [exact Hc|].
  unfold views in Hv. apply Permutation_map_inv in Hv.
  destruct Hv as (rs & Hmap & Hperm). exists rs. split; [symmetry; exact Hperm|].
  clear Hperm. revert rs Hmap. induction (rows a) as [|r l IH]; intros [|r' rs] Hmap;
    try discriminate; constructor.
  - injection Hmap as Hr _. intros c. apply cell_opt_inj.
    rewrite <- !view_lookup, Hr. reflexivity.
  - apply IH. injection Hmap as _ Hl. exact Hl.
Qed.

(** C6. Merge commutativity.  For input tables that all carry the two
    join keys and whose other labels are pairwise distinct, the merger
    returns a table for every order of the tables, and the tables
    returned for two orders have the same content: the same columns and
    the same rows, up to their order. *)
Theorem merge_commutative (dfs dfs' : list DataFrame) :
  mergeable dfs -> Permutation dfs dfs' ->
  exists out out',
    merge_dataframes dfs = Ok out
    /\ merge_dataframes dfs' = Ok out'
    /\ same_content out out'.
Proof.
  intros Hm HP. destruct dfs as [|d ds].
  { apply Permutation_nil in HP. subst dfs'. exists empty_df, empty_df.
    split; [reflexivity|]. split; [reflexivity|]. split; [reflexivity|].
    exists []. split; constructor. }
  assert (dfs' <> []) as Hne'.
  { intros ->. apply Permutation_sym, Permutation_nil in HP. discriminate. }
  pose proof (mergeable_perm _ _ HP Hm) as Hm'.
  destruct (merge_dataframes_views (d :: ds) Hm) as (M & out & Ho & Hc & Nd & Hch & Hv & Hk);
    [discriminate|].
  destruct (merge_dataframes_views dfs' Hm' Hne') as (M' & out' & Ho' & Hc' & Nd' & Hch' & Hv' & Hk').
  exists out, out'. split; [exact Ho|]. split; [exact Ho'|].
  assert (forall x, In x (columns M) <-> In x (columns M')) as Hcols.
  { intros x. rewrite Hch, Hch'. split; intros [H | [H | (df & Hdf & Hx)]]; auto;
      right; right; exists df; (split; [|exact Hx]).
    - eapply Permutation_in; eassumption.
    - eapply Permutation_in; [symmetry; exact HP | exact Hdf]. }
  apply same_content_views.
  - rewrite Hc, Hc'. apply NoDup_Permutation;
      [exact Nd | exact Nd' | intros x; rewrite !list_elem_of_In; apply Hcols].
  - rewrite Hv, Hv', (zero_fill_perm _ _ Hcols). apply Permutation_map.
    apply perm_by_groups. intros k. rewrite (Hk k), (Hk' k).
    apply (bigotimes_perm k).
    + apply Permutation_map, HP.
    + apply Forall_forall. intros p Hp. apply list_elem_of_In, in_map_iff in Hp.
      destruct Hp as (df & <- & _). apply group_ok_key_group.
    + destruct Hm as [_ Hnd]. rewrite List.map_map. cbn [key_group fst]. exact Hnd.
Qed.

Example merge_sample : merge_dataframes [trust_sample; foreign_sample] = Ok merged_sample.
Proof. vm_compute. reflexivity. Qed.

Example merge_sample_swapped :
  merge_dataframes [foreign_sample; trust_sample]
  = Ok (mkDF [s_id; s_name; s_foreign_net; s_trust_net]
             [ [Str s_2317; Str s_honhai; Num 7; Num 0];
               [Str s_2330; Str s_tsmc; Num (-3); Num 5] ]).
Proof. vm_compute. reflexivity. Qed.

Lemma samples_rectangular : Forall rectangular [trust_sample; foreign_sample].
Proof. repeat constructor. Qed.

Lemma samples_mergeable : mergeable [trust_sample; foreign_sample].
Proof.
  assert (forall cols rs, bool_decide (NoDup cols) = true ->
            Forall (fun r : list cell => length r = length cols) rs ->
            In s_id cols -> In s_name cols -> keyed_table (mkDF cols rs)) as K.
  { intros cols rs H1 H2 H3 H4. split; [exact (bool_decide_eq_true_1 _ H1)|]. auto. }
  split.
  - constructor; [|constructor; [|constructor]].
    + apply K; [vm_compute; reflexivity | repeat constructor | left; reflexivity
               | right; left; reflexivity].
    + apply K; [vm_compute; reflexivity | repeat constructor | left; reflexivity
               | right; left; reflexivity].
  - apply (bool_decide_eq_true_1 (NoDup _)). vm_compute. reflexivity.
Qed.

Lemma merge_commutative_witness :
  exists out out',
    merge_dataframes [trust_sample; foreign_sample] = Ok out
    /\ merge_dataframes [foreign_sample; trust_sample] = Ok out'
    /\ same_content out out'.
Proof.
  apply (merge_commutative [trust_sample; foreign_sample] [foreign_sample; trust_sample]).
  - exact samples_mergeable.
  - apply perm_swap.
Defined.

(** ** The persistence loop of [process_day] *)

Lemma next_fault_frame st :
  files (next_fault st).2 = files st /\ dirs (next_fault st).2 = dirs st
  /\ writes (next_fault st).2 = writes st
  /\ (faults st = [] -> next_fault st = (NoFault, st)).
Proof.
  unfold next_fault. destruct st as [fs ds ws [|f fl]]; cbn; repeat split; discriminate.
Qed.

Lemma mkdir_effect p st :
  files (mkdir p st).2 = files st
  /\ dirs st ⊆ dirs (mkdir p st).2
  /\ (writes (mkdir p st).2 = writes st \/ writes (mkdir p st).2 = writes st ++ [p])
  /\ (faults st = [] -> faults (mkdir p st).2 = [])
  /\ ((mkdir p st).1 = Ok tt -> p ∈ dirs (mkdir p st).2)
  /\ (faults st = [] -> (mkdir p st).1 <> Ok tt -> mkdir p st = (Raise OSError, st)
                                                    /\ file_on_path p st = true).
Proof.
  unfold mkdir, next_fault. destruct st as [fs ds ws [|f fl]]; cbn [faults files dirs writes].
  - destruct (file_on_path p _) eqn:E; cbn.
    + repeat split; auto; try discriminate.
    + repeat split; auto; try set_solver.
  - assert (file_on_path p (mkFS fs ds ws fl) = file_on_path p (mkFS fs ds ws (f :: fl))) as ->
      by reflexivity.
    destruct (file_on_path p _) eqn:E; cbn.
    + repeat split; auto; discriminate.
    + destruct f; cbn; repeat split; auto; try discriminate; set_solver.
Qed.

(** the directories that [mkdir] adds: the path and its ancestors *)
Lemma mkdir_new_dirs p st q :
  q ∈ dirs (mkdir p st).2 -> q ∈ dirs st \/ q = p \/ In q (prefixes_at_slash [] p).
Proof.
  unfold mkdir, next_fault. destruct st as [fs ds ws [|f fl]]; cbn [faults files dirs writes].
  - destruct (file_on_path p _); cbn; [tauto|].
    rewrite !elem_of_union, elem_of_singleton, elem_of_list_to_set, list_elem_of_In. tauto.
  - destruct (file_on_path p _); cbn; [tauto|].
    destruct f; cbn; try tauto.
    rewrite !elem_of_union, elem_of_singleton, elem_of_list_to_set, list_elem_of_In. tauto.
Qed.

(** [mkdir] succeeds only where no regular file stands on the path *)
Lemma mkdir_ok_clear p st :
  (mkdir p st).1 = Ok tt -> file_on_path p st = false.
Proof.
  unfold mkdir, next_fault. destruct st as [fs ds ws [|f fl]]; cbn [faults files dirs writes].
  - destruct (file_on_path p _) eqn:E; cbn; [discriminate|auto].
  - assert (file_on_path p (mkFS fs ds ws fl) = file_on_path p (mkFS fs ds ws (f :: fl))) as ->
      by reflexivity.
    destruct (file_on_path p _) eqn:E; cbn; [discriminate|auto].
Qed.

(** [mkdir] makes no directory of a regular file *)
Lemma mkdir_consistent p st : consistent st -> consistent (mkdir p st).2.
Proof.
  intros Hc q Hq Hd. pose proof (mkdir_effect p st) as (Mf & _).
  rewrite Mf in Hq. destruct (mkdir_new_dirs p st q Hd) as [H | H]; [exact (Hc q Hq H)|].
  assert (file_on_path p st = true) as Hon.
  { unfold file_on_path. apply orb_true_iff. destruct H as [-> | H].
    - left. apply bool_decide_eq_true_2, Hq.
    - right. apply existsb_exists. exists q. split; [exact H|].
      apply bool_decide_eq_true_2, Hq. }
  revert Hd. unfold mkdir, next_fault.
  destruct st as [fs ds ws [|f fl]]; cbn [faults files dirs writes] in *.
  - rewrite Hon. cbn. intros Hd. exact (Hc q Hq Hd).
  - assert (file_on_path p (mkFS fs ds ws fl) = file_on_path p (mkFS fs ds ws (f :: fl))) as ->
      by reflexivity.
    rewrite Hon. cbn. intros Hd. exact (Hc q Hq Hd).
Qed.

(** [to_csv] makes no regular file of a directory *)
Lemma to_csv_consistent df p st : consistent st -> consistent (to_csv df p st).2.
Proof.
  intros Hc q. unfold to_csv, next_fault.
  destruct (negb (bool_decide (parent p ∈ dirs st)) || bool_decide (p ∈ dirs st)) eqn:E;
    [apply Hc|].
  apply orb_false_iff in E. destruct E as [_ E]. apply bool_decide_eq_false_1 in E.
  assert (forall v, q ∈ dom (<[p := v]> (files st)) -> q ∉ dirs st) as Hins.
  { intros v Hq. apply elem_of_dom in Hq. destruct (decide (q = p)) as [-> | Hne]; [exact E|].
    rewrite lookup_insert_ne in Hq by congruence. apply Hc, elem_of_dom, Hq. }
  destruct st as [fs ds ws [|f fl]]; cbn [faults files dirs writes fst snd] in *.
  - apply Hins.
  - destruct f; cbn [faults files dirs writes fst snd]; [apply Hins | apply Hc | apply Hins].
Qed.

Lemma to_csv_effect df p st :
  (forall q, q <> p -> files (to_csv df p st).2 !! q = files st !! q)
  /\ (forall q, is_Some (files st !! q) -> is_Some (files (to_csv df p st).2 !! q))
  /\ dirs (to_csv df p st).2 = dirs st
  /\ (writes (to_csv df p st).2 = writes st \/ writes (to_csv df p st).2 = writes st ++ [p])
  /\ (faults st = [] -> faults (to_csv df p st).2 = [])
  /\ ((to_csv df p st).1 = Ok tt -> files (to_csv df p st).2 !! p = Some df)
  /\ (faults st = [] -> parent p ∈ dirs st -> p ∉ dirs st -> (to_csv df p st).1 = Ok tt).
Proof.
  assert (forall (fs : gmap (list N) DataFrame) v q,
            is_Some (fs !! q) -> is_Some (<[p := v]> fs !! q)) as Hins.
  { intros fs v q H. destruct (decide (q = p)) as [->|Hne].
    - rewrite lookup_insert_eq. eauto.
    - rewrite lookup_insert_ne by congruence. exact H. }
  unfold to_csv, next_fault.
  destruct (negb (bool_decide (parent p ∈ dirs st)) || bool_decide (p ∈ dirs st)) eqn:E.
  - cbn. repeat split; auto; try discriminate. intros _ H1 H2.
    rewrite (bool_decide_eq_true_2 _ H1), (bool_decide_eq_false_2 _ H2) in E. discriminate.
  - destruct st as [fs ds ws [|f fl]]; cbn [faults files dirs writes fst snd].
    + repeat split; auto; try discriminate.
      * intros q Hq. rewrite lookup_insert_ne by congruence. reflexivity.
      * intros _. apply lookup_insert_eq.
    + destruct f; cbn [faults files dirs writes fst snd]; repeat split; auto; try discriminate.
      * intros q Hq. rewrite lookup_insert_ne by congruence. reflexivity.
      * intros _. apply lookup_insert_eq.
      * intros q Hq. rewrite lookup_insert_ne by congruence. reflexivity.
Qed.

Lemma read_csv_dates_faults p st :
  faults st = [] -> faults (read_csv_dates p st).2 = [].
Proof.
  unfold read_csv_dates, next_fault. destruct st as [fs ds ws [|f fl]]; cbn [faults files].
  - intros _. destruct (fs !! p) as [E|]; [destruct (has_column E s_date)|]; reflexivity.
  - discriminate.
Qed.

(** what the accumulator may do to the storage *)
Lemma accumulation_effect stock_id new_data_df stock_dir st :
  (forall q, q <> path_join stock_dir (stock_id ++ s_csv) ->
     files (update_accumulation_file stock_id new_data_df stock_dir st) !! q = files st !! q)
  /\ (forall q, is_Some (files st !! q) ->
        is_Some (files (update_accumulation_file stock_id new_data_df stock_dir st) !! q))
  /\ dirs (update_accumulation_file stock_id new_data_df stock_dir st) = dirs st
  /\ (writes (update_accumulation_file stock_id new_data_df stock_dir st) = writes st
      \/ writes (update_accumulation_file stock_id new_data_df stock_dir st)
         = writes st ++ [path_join stock_dir (stock_id ++ s_csv)])
  /\ (faults st = [] ->
      faults (update_accumulation_file stock_id new_data_df stock_dir st) = []).
Proof.
  unfold update_accumulation_file, update_accumulation_body.
  set (acc := path_join stock_dir (stock_id ++ s_csv)).
  assert (forall c st0,
            files st0 = files st -> dirs st0 = dirs st -> writes st0 = writes st ->
            (faults st = [] -> faults st0 = []) ->
            let out := (match c with
                        | Raise e => (Raise e, st0)
                        | Ok combined_df => to_csv combined_df acc st0
                        end).2 in
            (forall q, q <> acc -> files out !! q = files st !! q)
            /\ (forall q, is_Some (files st !! q) -> is_Some (files out !! q))
            /\ dirs out = dirs st
            /\ (writes out = writes st \/ writes out = writes st ++ [acc])
            /\ (faults st = [] -> faults out = [])) as Hwrite.
  { intros c st0 Hf Hd Hw Hfl. destruct c as [df|e]; cbn zeta.
    - destruct (to_csv_effect df acc st0) as (H1 & H2 & H3 & H4 & H5 & _).
      rewrite <- Hf, <- Hd, <- Hw. repeat split; auto.
    - cbn. rewrite Hf, Hd, Hw. repeat split; auto. }
  destruct (path_exists acc st).
  - destruct (read_csv_dates acc st) as [existing st0] eqn:E.
    pose proof (read_csv_dates_frame acc st) as (Hf & Hd & Hw & _).
    pose proof (read_csv_dates_faults acc st) as Hfl. rewrite E in Hf, Hd, Hw, Hfl.
    cbn [snd] in *. apply (Hwrite _ st0 Hf Hd Hw Hfl).
  - apply (Hwrite _ st eq_refl eq_refl eq_refl (fun H => H)).
Qed.

Lemma path_exists_grows p st st' :
  (forall q, is_Some (files st !! q) -> is_Some (files st' !! q)) ->
  dirs st ⊆ dirs st' ->
  path_exists p st = true -> path_exists p st' = true.
Proof.
  unfold path_exists. intros Hf Hd H. apply orb_true_iff in H. apply orb_true_iff.
  destruct H as [H | H]; apply bool_decide_eq_true_1 in H.
  - left. apply bool_decide_eq_true_2. apply elem_of_dom, Hf, elem_of_dom, H.
  - right. apply bool_decide_eq_true_2. set_solver.
Qed.

Section Persistence.

Variable ROOT_DIR : pystr.
Variable target_date : date.
Variables twse_market_df tpex_market_df : DataFrame.

Ltac listed_paths :=
  repeat (apply List.Forall_cons; [cbn; auto 6|]); apply List.Forall_nil.

(** what one turn of the loop may do to the storage *)
Lemma persist_stock_effect stock_id market_type st st' :
  persist_stock ROOT_DIR target_date twse_market_df tpex_market_df stock_id market_type st
  = Ok st' ->
  (forall q, q <> history_file_of ROOT_DIR stock_id market_type ->
     path_exists q st = true -> files st' !! q = files st !! q)
  /\ (forall q, is_Some (files st !! q) -> is_Some (files st' !! q))
  /\ dirs st ⊆ dirs st'
  /\ (exists ws, writes st' = writes st ++ ws
                 /\ Forall (fun p => In p (paths_of ROOT_DIR target_date stock_id market_type)) ws)
  /\ (faults st = [] -> faults st' = []).
Proof.
  assert (forall s : FS, (forall q, q <> history_file_of ROOT_DIR stock_id market_type ->
             path_exists q s = true -> files s !! q = files s !! q)
          /\ (forall q, is_Some (files s !! q) -> is_Some (files s !! q))
          /\ dirs s ⊆ dirs s
          /\ (exists ws, writes s = writes s ++ ws
                 /\ Forall (fun p => In p (paths_of ROOT_DIR target_date stock_id market_type)) ws)
          /\ (faults s = [] -> faults s = [])) as Hsame.
  { intros s. repeat split; auto. exists []. rewrite app_nil_r. auto. }
  unfold persist_stock.
  fold (stock_dir_of ROOT_DIR stock_id market_type).
  set (market_df := if decide (market_type = s_listed) then twse_market_df else tpex_market_df).
  set (stock_dir := stock_dir_of ROOT_DIR stock_id market_type).
  change (path_join stock_dir (strftime_dash target_date ++ s_csv))
    with (daily_file_of ROOT_DIR target_date stock_id market_type).
  set (daily := daily_file_of ROOT_DIR target_date stock_id market_type).
  destruct (df_empty market_df); [intros [= <-]; apply Hsame|].
  destruct (getitem market_df s_id) as [ids|e]; cbn [mbind result_bind]; [|discriminate].
  set (stock_df := boolean_index market_df _).
  destruct (df_empty stock_df); [intros [= <-]; apply Hsame|].
  destruct (path_exists daily st) eqn:Hex; [intros [= <-]; apply Hsame|].
  pose proof (mkdir_effect stock_dir st) as (Mf & Md & Mw & Mfl & _).
  destruct (mkdir stock_dir st) as [[[]|e] st1] eqn:Em; cbn [fst snd] in *.
  - pose proof (to_csv_effect stock_df daily st1) as (Tf & Ts & Td & Tw & Tfl & _).
    assert (forall q, path_exists q st = true -> q <> daily) as Hne.
    { intros q Hq ->. rewrite Hex in Hq. discriminate. }
    assert (forall s2 : FS,
              (forall q, q <> daily -> files s2 !! q = files st1 !! q) ->
              (forall q, is_Some (files st1 !! q) -> is_Some (files s2 !! q)) ->
              dirs s2 = dirs st1 ->
              (writes s2 = writes st1 \/ writes s2 = writes st1 ++ [daily]) ->
              (faults st1 = [] -> faults s2 = []) ->
              (forall q, q <> history_file_of ROOT_DIR stock_id market_type ->
                 path_exists q st = true -> files s2 !! q = files st !! q)
              /\ (forall q, is_Some (files st !! q) -> is_Some (files s2 !! q))
              /\ dirs st ⊆ dirs s2
              /\ (exists ws, writes s2 = writes st ++ ws
                    /\ Forall (fun p => In p (paths_of ROOT_DIR target_date stock_id market_type)) ws)
              /\ (faults st = [] -> faults s2 = [])) as Hafter.
    { intros s2 H1 H2 H3 H4 H5. split; [|split; [|split; [|split]]].
      - intros q _ Hq. rewrite H1 by (apply Hne, Hq). rewrite Mf. reflexivity.
      - intros q Hq. apply H2. rewrite Mf. exact Hq.
      - rewrite H3. exact Md.
      - unfold paths_of. fold stock_dir daily.
        destruct Mw as [Mw | Mw], H4 as [H4 | H4]; rewrite H4, Mw.
        + exists []. rewrite app_nil_r. auto.
        + exists [daily]. split; [reflexivity|]. listed_paths.
        + exists [stock_dir]. split; [reflexivity|]. listed_paths.
        + exists [stock_dir; daily]. rewrite <- app_assoc. split; [reflexivity|]. listed_paths.
      - auto. }
    destruct (to_csv stock_df daily st1) as [[[]|e] st2] eqn:Et; cbn [fst snd] in *.
    + intros [= <-].
      pose proof (accumulation_effect stock_id stock_df stock_dir st2) as (Af & As & Ad & Aw & Afl).
      destruct (Hafter st2 Tf Ts Td Tw Tfl) as (B1 & B2 & B3 & (ws & B4 & B5) & B6).
      split; [|split; [|split; [|split]]].
      * intros q Hq Hqe. rewrite Af by exact Hq. apply B1; assumption.
      * intros q Hq. apply As, B2, Hq.
      * rewrite Ad. exact B3.
      * destruct Aw as [Aw | Aw]; rewrite Aw; [exists ws; auto|].
        exists (ws ++ [history_file_of ROOT_DIR stock_id market_type]).
        rewrite B4, <- app_assoc. split; [reflexivity|].
        apply Forall_app. split; [exact B5|]. listed_paths.
      * auto.
    + intros [= <-]. apply Hafter; assumption.
  - intros [= <-]. split; [|split; [|split; [|split]]].
    + intros q _ _. rewrite Mf. reflexivity.
    + intros q Hq. rewrite Mf. exact Hq.
    + exact Md.
    + unfold paths_of. fold stock_dir. destruct Mw as [Mw | Mw]; rewrite Mw.
      * exists []. rewrite app_nil_r. auto.
      * exists [stock_dir]. split; [reflexivity|]. listed_paths.
    + auto.
Qed.

(** the files and directories one turn of the loop may change or create *)
Lemma persist_stock_confined stock_id market_type st st' :
  persist_stock ROOT_DIR target_date twse_market_df tpex_market_df stock_id market_type st
  = Ok st' ->
  (forall q, files st' !! q = files st !! q
             \/ q = daily_file_of ROOT_DIR target_date stock_id market_type
             \/ q = history_file_of ROOT_DIR stock_id market_type)
  /\ (forall q, q ∈ dirs st' ->
         q ∈ dirs st
         \/ q = stock_dir_of ROOT_DIR stock_id market_type
         \/ In q (prefixes_at_slash [] (stock_dir_of ROOT_DIR stock_id market_type))).
Proof.
  unfold persist_stock.
  fold (stock_dir_of ROOT_DIR stock_id market_type).
  set (market_df := if decide (market_type = s_listed) then twse_market_df else tpex_market_df).
  set (stock_dir := stock_dir_of ROOT_DIR stock_id market_type).
  change (path_join stock_dir (strftime_dash target_date ++ s_csv))
    with (daily_file_of ROOT_DIR target_date stock_id market_type).
  set (daily := daily_file_of ROOT_DIR target_date stock_id market_type).
  change (history_file_of ROOT_DIR stock_id market_type)
    with (path_join stock_dir (stock_id ++ s_csv)).
  set (acc := path_join stock_dir (stock_id ++ s_csv)).
  destruct (df_empty market_df); [intros [= <-]; auto|].
  destruct (getitem market_df s_id) as [ids|e]; cbn [mbind result_bind]; [|discriminate].
  set (stock_df := boolean_index market_df _).
  destruct (df_empty stock_df); [intros [= <-]; auto|].
  destruct (path_exists daily st); [intros [= <-]; auto|].
  pose proof (mkdir_effect stock_dir st) as (Mf & _).
  pose proof (mkdir_new_dirs stock_dir st) as Mnew.
  destruct (mkdir stock_dir st) as [[[]|e] st1] eqn:Em; cbn [fst snd] in *.
  - pose proof (to_csv_effect stock_df daily st1) as (Tf & _ & Td & _).
    destruct (to_csv stock_df daily st1) as [[[]|e] st2] eqn:Et; cbn [fst snd] in *.
    + intros [= <-].
      pose proof (accumulation_effect stock_id stock_df stock_dir st2) as (Af & _ & Ad & _).
      fold acc in Af. split.
      * intros q. destruct (decide (q = acc)) as [Ha | Ha]; [auto|].
        destruct (decide (q = daily)) as [Hd | Hd]; [auto|].
        left. rewrite (Af q Ha), (Tf q Hd), Mf. reflexivity.
      * intros q Hq. rewrite Ad, Td in Hq. apply Mnew, Hq.
    + intros [= <-]. split.
      * intros q. destruct (decide (q = daily)) as [Hd | Hd]; [auto|].
        left. rewrite (Tf q Hd), Mf. reflexivity.
      * intros q Hq. rewrite Td in Hq. apply Mnew, Hq.
  - intros [= <-]. split.
    + intros q. left. rewrite Mf. reflexivity.
    + intros q Hq. apply Mnew, Hq.
Qed.

End Persistence.

Section PersistenceLoop.

Variable ROOT_DIR : pystr.
Variable target_date : date.
Variables twse_market_df tpex_market_df : DataFrame.

Lemma persist_all_exists stock_map st st' q :
  persist_all ROOT_DIR target_date twse_market_df tpex_market_df stock_map st = Ok st' ->
  path_exists q st = true -> path_exists q st' = true.
Proof.
  revert st. induction stock_map as [|[stock_id market_type] rest IH]; intros st H Hq.
  - injection H as <-. exact Hq.
  - cbn [persist_all] in H.
    destruct (persist_stock ROOT_DIR target_date twse_market_df tpex_market_df
                stock_id market_type st) as [st1|e] eqn:E1;
      cbn [mbind result_bind] in H; [|discriminate].
    destruct (persist_stock_effect _ _ _ _ _ _ _ _ E1) as (_ & F2 & F3 & _ & _).
    apply (IH st1 H). eapply path_exists_grows; eassumption.
Qed.

Lemma persist_all_keeps stock_map st st' q :
  persist_all ROOT_DIR target_date twse_market_df tpex_market_df stock_map st = Ok st' ->
  path_exists q st = true ->
  (forall stock_id market_type, In (stock_id, market_type) stock_map ->
     q <> history_file_of ROOT_DIR stock_id market_type) ->
  files st' !! q = files st !! q.
Proof.
  revert st. induction stock_map as [|[stock_id market_type] rest IH]; intros st H Hq Hne.
  - injection H as <-. auto.
  - cbn [persist_all] in H.
    destruct (persist_stock ROOT_DIR target_date twse_market_df tpex_market_df
                stock_id market_type st) as [st1|e] eqn:E1;
      cbn [mbind result_bind] in H; [|discriminate].
    destruct (persist_stock_effect _ _ _ _ _ _ _ _ E1) as (F1 & F2 & F3 & _ & _).
    assert (path_exists q st1 = true) as Hq1 by (eapply path_exists_grows; eassumption).
    rewrite (IH st1 H Hq1).
    + apply F1; [|exact Hq]. apply Hne. left. reflexivity.
    + intros s m Hin. apply Hne. right. exact Hin.
Qed.

Lemma persist_all_written stock_map st st' :
  persist_all ROOT_DIR target_date twse_market_df tpex_market_df stock_map st = Ok st' ->
  exists ws,
    writes st' = writes st ++ ws
    /\ Forall (fun p => exists stock_id market_type,
                 In (stock_id, market_type) stock_map
                 /\ In p (paths_of ROOT_DIR target_date stock_id market_type)) ws.
Proof.
  revert st. induction stock_map as [|[stock_id market_type] rest IH]; intros st H.
  - injection H as <-. exists []. rewrite app_nil_r. split; [reflexivity | constructor].
  - cbn [persist_all] in H.
    destruct (persist_stock ROOT_DIR target_date twse_market_df tpex_market_df
                stock_id market_type st) as [st1|e] eqn:E1;
      cbn [mbind result_bind] in H; [|discriminate].
    destruct (persist_stock_effect _ _ _ _ _ _ _ _ E1) as (_ & _ & _ & (ws1 & W1 & W2) & _).
    destruct (IH st1 H) as (ws2 & W3 & W4).
    exists (ws1 ++ ws2). rewrite W3, W1, <- app_assoc. split; [reflexivity|].
    apply Forall_app. split.
    + eapply List.Forall_impl; [|exact W2]. intros p Hp. cbn beta in Hp.
      exists stock_id, market_type. split; [left; reflexivity | exact Hp].
    + eapply List.Forall_impl; [|exact W4]. intros p (s & m & Hin & Hp).
      exists s, m. split; [right; exact Hin | exact Hp].
Qed.

Lemma persist_all_confined stock_map st st' :
  persist_all ROOT_DIR target_date twse_market_df tpex_market_df stock_map st = Ok st' ->
  (forall q, files st' !! q = files st !! q
     \/ exists stock_id market_type,
          In (stock_id, market_type) stock_map
          /\ (q = daily_file_of ROOT_DIR target_date stock_id market_type
              \/ q = history_file_of ROOT_DIR stock_id market_type))
  /\ (forall q, q ∈ dirs st' ->
         q ∈ dirs st
         \/ exists stock_id market_type,
              In (stock_id, market_type) stock_map
              /\ (q = stock_dir_of ROOT_DIR stock_id market_type
                  \/ In q (prefixes_at_slash [] (stock_dir_of ROOT_DIR stock_id market_type)))).
Proof.
  revert st. induction stock_map as [|[stock_id market_type] rest IH]; intros st H.
  - injection H as <-. auto.
  - cbn [persist_all] in H.
    destruct (persist_stock ROOT_DIR target_date twse_market_df tpex_market_df
                stock_id market_type st) as [st1|e] eqn:E1;
      cbn [mbind result_bind] in H; [|discriminate].
    destruct (persist_stock_confined _ _ _ _ _ _ _ _ E1) as (C1 & C2).
    destruct (IH st1 H) as (D1 & D2). split.
    + intros q. destruct (D1 q) as [D | (s & m & Hin & D)].
      * rewrite D. destruct (C1 q) as [C | C]; [left; exact C|].
        right. exists stock_id, market_type. split; [left; reflexivity | exact C].
      * right. exists s, m. split; [right; exact Hin | exact D].
    + intros q Hq. destruct (D2 q Hq) as [D | (s & m & Hin & D)].
      * destruct (C2 q D) as [C | C]; [left; exact C|].
        right. exists stock_id, market_type. split; [left; reflexivity | exact C].
      * right. exists s, m. split; [right; exact Hin | exact D].
Qed.

End PersistenceLoop.

Section Day.

Variable read_csv : pystr -> result DataFrame.
Variable csv_reader : pystr -> result (list (list pystr)).
Variable to_numeric : pystr -> option Z.
Variable ROOT_DIR : pystr.
Variable session_get : pystr -> list (pystr * pystr) -> result (list N).
Variable bytes_decode : pystr -> list N -> option pystr.

Lemma process_day_cases target_date stock_map st st' :
  process_day read_csv csv_reader to_numeric ROOT_DIR session_get bytes_decode
    target_date stock_map st = Ok st' ->
  st' = st
  \/ exists twse_market_df tpex_market_df,
       market_tables read_csv csv_reader to_numeric session_get bytes_decode target_date
       = Ok (twse_market_df, tpex_market_df)
       /\ persist_all ROOT_DIR target_date twse_market_df tpex_market_df stock_map st = Ok st'.
Proof.
  unfold process_day.
  destruct (market_tables read_csv csv_reader to_numeric session_get bytes_decode target_date)
    as [[tw tp]|e]; cbn [mbind result_bind]; [|discriminate].
  destruct (df_empty tw && df_empty tp).
  - intros [= <-]. left. reflexivity.
  - intros H. right. exists tw, tp. auto.
Qed.

(** X1. [process_day] keeps what the storage holds: a file or directory
    that exists before the call exists after it; and, the directory of
    the script and the identifiers of the stock map being names that
    [pathlib] joins as they are, a file that is not the history file of
    a security of the stock map has the content it had.  In particular
    no daily snapshot is overwritten. *)
Theorem process_day_keeps_existing (target_date : date) (stock_map : list (pystr * pystr))
  (st st' : FS) (q : pystr) :
  process_day read_csv csv_reader to_numeric ROOT_DIR session_get bytes_decode
    target_date stock_map st = Ok st' ->
  path_exists q st = true ->
  path_exists q st' = true
  /\ (plain_dir ROOT_DIR ->
      (forall stock_id market_type, In (stock_id, market_type) stock_map ->
         plain_name stock_id /\ q <> history_file_of ROOT_DIR stock_id market_type) ->
      files st' !! q = files st !! q).
Proof.
  intros H Hq. destruct (process_day_cases _ _ _ _ H) as [-> | (tw & tp & _ & Hp)].
  - auto.
  - split; [eapply persist_all_exists; eassumption|].
    intros _ Hne. eapply persist_all_keeps; [exact Hp | exact Hq|].
    intros s m Hin. apply (Hne s m Hin).
Qed.

(** X2. [process_day] writes nowhere else.  The directory of the script
    and the identifiers of the stock map being names that [pathlib]
    joins as they are: every write goes to the directory, the daily
    snapshot of the target date or the history file of a security of the
    stock map; a file whose content is not the one it had, or that did
    not exist, is such a snapshot or history file; and a directory that
    did not exist is the directory of such a security or an ancestor of
    it. *)
Theorem process_day_writes_confined (target_date : date) (stock_map : list (pystr * pystr))
  (st st' : FS) :
  plain_dir ROOT_DIR ->
  (forall stock_id market_type, In (stock_id, market_type) stock_map -> plain_name stock_id) ->
  process_day read_csv csv_reader to_numeric ROOT_DIR session_get bytes_decode
    target_date stock_map st = Ok st' ->
  (exists ws,
     writes st' = writes st ++ ws
     /\ Forall (fun p => exists stock_id market_type,
                  In (stock_id, market_type) stock_map
                  /\ In p (paths_of ROOT_DIR target_date stock_id market_type)) ws)
  /\ (forall q, files st' !! q = files st !! q
        \/ exists stock_id market_type,
             In (stock_id, market_type) stock_map
             /\ (q = daily_file_of ROOT_DIR target_date stock_id market_type
                 \/ q = history_file_of ROOT_DIR stock_id market_type))
  /\ (forall q, q ∈ dirs st' ->
        q ∈ dirs st
        \/ exists stock_id market_type,
             In (stock_id, market_type) stock_map
             /\ (q = stock_dir_of ROOT_DIR stock_id market_type
                 \/ In q (prefixes_at_slash [] (stock_dir_of ROOT_DIR stock_id market_type)))).
Proof.
  intros _ _ H. destruct (process_day_cases _ _ _ _ H) as [-> | (tw & tp & _ & Hp)].
  - split; [|auto]. exists []. rewrite app_nil_r. split; [reflexivity | constructor].
  - split; [eapply persist_all_written; eassumption|].
    eapply persist_all_confined; eassumption.
Qed.

End Day.

(** ** Download and decoding *)

Section Download.

Variable read_csv : pystr -> result DataFrame.
Variable csv_reader : pystr -> result (list (list pystr)).
Variable to_numeric : pystr -> option Z.
Variable ROOT_DIR : pystr.
Variable session_get : pystr -> list (pystr * pystr) -> result (list N).
Variable bytes_decode : pystr -> list N -> option pystr.

Lemma try_decodings_spec encodings content_bytes :
  match try_decodings bytes_decode encodings content_bytes with
  | Some text =>
      exists pre encoding post,
        encodings = pre ++ encoding :: post
        /\ bytes_decode encoding content_bytes = Some text
        /\ forall e, In e pre -> bytes_decode e content_bytes = None
  | None => forall e, In e encodings -> bytes_decode e content_bytes = None
  end.
Proof.
  induction encodings as [|enc rest IH]; cbn [try_decodings].
  - intros e [].
  - destruct (bytes_decode enc content_bytes) as [text|] eqn:E.
    + exists [], enc, rest. split; [reflexivity|]. split; [exact E|]. intros e [].
    + destruct (try_decodings bytes_decode rest content_bytes) as [text|].
      * destruct IH as (pre & encoding & post & -> & Hd & Hpre).
        exists (enc :: pre), encoding, post. split; [reflexivity|]. split; [exact Hd|].
        intros e [<- | He]; [exact E | apply Hpre, He].
      * intros e [<- | He]; [exact E | apply IH, He].
Qed.

(** X3. [decode_content] returns the text of the first codec, in the
    order utf-8-sig, utf-8, big5, cp950, that decodes the bytes; it
    returns nothing exactly when all four codecs reject them. *)
Theorem decode_content_first_codec (content_bytes : list N) :
  match decode_content bytes_decode content_bytes with
  | Some text =>
      exists pre encoding post,
        encodings_to_try = pre ++ encoding :: post
        /\ bytes_decode encoding content_bytes = Some text
        /\ forall e, In e pre -> bytes_decode e content_bytes = None
  | None => forall e, In e encodings_to_try -> bytes_decode e content_bytes = None
  end.
Proof. apply try_decodings_spec. Qed.

Lemma fetch_text_no_answer url params :
  no_answer session_get bytes_decode url params ->
  fetch_text session_get bytes_decode url params = None.
Proof.
  unfold no_answer, fetch_text, fetch_data.
  destruct (session_get url params) as [content|e]; [|reflexivity].
  intros [Hlen | Hdec].
  - apply Nat.ltb_lt in Hlen. rewrite Hlen. reflexivity.
  - destruct (length content <? 200)%nat; [reflexivity|].
    destruct content as [|b content]; [reflexivity|].
    pose proof (try_decodings_spec encodings_to_try (b :: content)) as H.
    unfold decode_content.
    destruct (try_decodings bytes_decode encodings_to_try (b :: content)) as [text|];
      [|reflexivity].
    destruct H as (pre & encoding & post & Heq & Hd & _).
    rewrite Hdec in Hd; [discriminate|]. rewrite Heq. apply in_or_app. right. left. reflexivity.
Qed.

Lemma fetch_twse_no_answer params sources :
  (forall url, no_answer session_get bytes_decode url params) ->
  fetch_twse read_csv csv_reader to_numeric session_get bytes_decode params sources = Ok [].
Proof.
  intros H. induction sources as [|[name url] rest IH]; cbn [fetch_twse]; [reflexivity|].
  rewrite (fetch_text_no_answer url params (H url)). exact IH.
Qed.

(** X4. A day without data changes nothing: when every request of the
    day fails, answers with fewer than 200 bytes, or cannot be decoded,
    [process_day] returns normally and leaves the storage as it was. *)
Theorem process_day_without_data (target_date : date) (stock_map : list (pystr * pystr))
  (st : FS) :
  (forall url params, no_answer session_get bytes_decode url params) ->
  process_day read_csv csv_reader to_numeric ROOT_DIR session_get bytes_decode
    target_date stock_map st = Ok st.
Proof.
  intros H. unfold process_day, market_tables.
  rewrite fetch_twse_no_answer by (intros url; apply H).
  cbn [mbind result_bind]. rewrite fetch_text_no_answer by apply H.
  cbn [mbind result_bind]. reflexivity.
Qed.

End Download.

(** ** Paths *)

Lemma prefixes_at_slash_app acc d s :
  prefixes_at_slash acc (d ++ s)
  = prefixes_at_slash acc d ++ prefixes_at_slash (rev d ++ acc) s.
Proof.
  revert acc. induction d as [|c d IH]; intros acc; cbn [prefixes_at_slash app rev].
  - reflexivity.
  - rewrite IH, <- !app_assoc. reflexivity.
Qed.

Lemma prefixes_at_slash_none acc s :
  Forall (fun c => c <> SLASH) s -> prefixes_at_slash acc s = [].
Proof.
  revert acc. induction s as [|c s IH]; intros acc H; [reflexivity|].
  apply Forall_cons in H. destruct H as [Hc Hs]. cbn [prefixes_at_slash].
  apply N.eqb_neq in Hc. rewrite Hc. cbn [app]. apply IH, Hs.
Qed.

Lemma no_slash_relative s : Forall (fun c => c <> SLASH) s -> absolute s = false.
Proof.
  destruct s as [|c s]; [reflexivity|]. intros H. apply Forall_cons in H.
  cbn [absolute]. apply N.eqb_neq, H.
Qed.

(** joining a name without a slash appends it after a slash *)
Lemma path_join_relative d s :
  Forall (fun c => c <> SLASH) s -> path_join d s = d ++ [SLASH] ++ s.
Proof. intros H. unfold path_join. rewrite (no_slash_relative s H). reflexivity. Qed.

Lemma plain_name_no_slash s : plain_name s -> Forall (fun c => c <> SLASH) s.
Proof. intros (_ & H & _). exact H. Qed.

Lemma parent_path_join d s :
  Forall (fun c => c <> SLASH) s -> parent (path_join d s) = d.
Proof.
  intros H. rewrite (path_join_relative d s H). unfold parent. rewrite prefixes_at_slash_app.
  cbn [app prefixes_at_slash]. rewrite N.eqb_refl, (prefixes_at_slash_none _ s H).
  rewrite !app_nil_r. cbn [app]. rewrite rev_involutive, last_snoc. reflexivity.
Qed.

Lemma prefixes_at_slash_length acc p q :
  In q (prefixes_at_slash acc p) -> (length q < length acc + length p)%nat.
Proof.
  revert acc. induction p as [|c p IH]; intros acc H; [destruct H|].
  cbn [prefixes_at_slash] in H. apply in_app_or in H. destruct H as [H | H].
  - destruct (c =? SLASH); [|destruct H]. destruct H as [<- | []].
    rewrite length_rev. cbn [length]. lia.
  - apply IH in H. cbn [length] in *. lia.
Qed.

Lemma digits_of_no_slash fuel n acc :
  Forall (fun c => c <> SLASH) acc -> Forall (fun c => c <> SLASH) (digits_of fuel n acc).
Proof.
  revert n acc. induction fuel as [|fuel IH]; intros n acc H; cbn [digits_of]; [exact H|].
  assert (Forall (fun c => c <> SLASH) ((48 + n mod 10) :: acc)) as H'.
  { apply Forall_cons. split; [|exact H]. cbn beta. unfold SLASH. intros E.
    pose proof (N.le_add_r 48 (n mod 10)) as Hle. rewrite E in Hle. lia. }
  destruct (n <? 10); [exact H' | apply IH, H'].
Qed.

Lemma zfill_no_slash w n : Forall (fun c => c <> SLASH) (zfill w (str_of_N n)).
Proof.
  unfold zfill. apply Forall_app. split.
  - apply Forall_forall. intros c Hc. apply list_elem_of_In, repeat_spec in Hc.
    subst c. discriminate.
  - apply digits_of_no_slash. constructor.
Qed.

Lemma daily_name_no_slash d : Forall (fun c => c <> SLASH) (strftime_dash d ++ s_csv).
Proof.
  unfold strftime_dash. rewrite !Forall_app.
  repeat split; try apply zfill_no_slash;
    repeat (apply List.Forall_cons; [discriminate|]); apply List.Forall_nil.
Qed.

Lemma mkdir_dirs p st q :
  q ∈ dirs (mkdir p st).2 -> q ∈ dirs st \/ (length q <= length p)%nat.
Proof.
  intros H. destruct (mkdir_new_dirs p st q H) as [H1 | [-> | H1]]; auto.
  apply prefixes_at_slash_length in H1. cbn in H1. right. lia.
Qed.

(** ** Running a day again *)

Section Rerun.

Variable ROOT_DIR : pystr.
Variable target_date : date.
Variables twse_market_df tpex_market_df : DataFrame.

Lemma skips_persist stock_id market_type st :
  faults st = [] ->
  skips ROOT_DIR target_date twse_market_df tpex_market_df stock_id market_type st ->
  persist_stock ROOT_DIR target_date twse_market_df tpex_market_df stock_id market_type st
  = Ok st.
Proof.
  intros Hfl. unfold skips, persist_stock.
  fold (stock_dir_of ROOT_DIR stock_id market_type).
  set (market_df := if decide (market_type = s_listed) then twse_market_df else tpex_market_df).
  set (stock_dir := stock_dir_of ROOT_DIR stock_id market_type).
  change (path_join stock_dir (strftime_dash target_date ++ s_csv))
    with (daily_file_of ROOT_DIR target_date stock_id market_type).
  intros [H | (ids & Hids & H)]; [rewrite H; reflexivity|].
  destruct (df_empty market_df); [reflexivity|].
  rewrite Hids. cbn [mbind result_bind].
  destruct (df_empty (boolean_index market_df _)) eqn:Es; [reflexivity|].
  destruct (path_exists _ st) eqn:Ex; [reflexivity|].
  destruct H as [H | [H | H]]; try discriminate.
  unfold mkdir. rewrite (proj2 (proj2 (proj2 (next_fault_frame st))) Hfl).
  fold stock_dir in H. rewrite H. reflexivity.
Qed.

Lemma persist_skips stock_id market_type st st' :
  persist_stock ROOT_DIR target_date twse_market_df tpex_market_df stock_id market_type st
  = Ok st' ->
  faults st = [] ->
  skips ROOT_DIR target_date twse_market_df tpex_market_df stock_id market_type st'.
Proof.
  unfold skips, persist_stock.
  fold (stock_dir_of ROOT_DIR stock_id market_type).
  set (market_df := if decide (market_type = s_listed) then twse_market_df else tpex_market_df).
  set (stock_dir := stock_dir_of ROOT_DIR stock_id market_type).
  change (path_join stock_dir (strftime_dash target_date ++ s_csv))
    with (daily_file_of ROOT_DIR target_date stock_id market_type).
  set (daily := daily_file_of ROOT_DIR target_date stock_id market_type).
  destruct (df_empty market_df); [intros _ _; left; reflexivity|].
  destruct (getitem market_df s_id) as [ids|e]; cbn [mbind result_bind]; [|discriminate].
  set (stock_df := boolean_index market_df _).
  intros H Hfl. right. exists ids. split; [reflexivity|]. fold stock_df.
  destruct (df_empty stock_df); [left; reflexivity|]. right.
  destruct (path_exists daily st) eqn:Hex; [injection H as <-; left; exact Hex|].
  pose proof (mkdir_effect stock_dir st) as (Mf & Md & _ & Mfl & Mok & Mfail).
  pose proof (mkdir_dirs stock_dir st daily) as Mdirs.
  destruct (mkdir stock_dir st) as [[[]|e] st1] eqn:Em; cbn [fst snd] in *.
  - left.
    pose proof (to_csv_effect stock_df daily st1) as (_ & _ & _ & _ & _ & Tok & Tsucc).
    assert ((to_csv stock_df daily st1).1 = Ok tt) as Hok.
    { apply Tsucc; [auto| |].
      - unfold daily, daily_file_of. rewrite parent_path_join by apply daily_name_no_slash.
        apply Mok. reflexivity.
      - intros Hin. apply Mdirs in Hin. destruct Hin as [Hin | Hlen].
        + unfold path_exists in Hex. apply orb_false_iff in Hex. destruct Hex as [_ Hex].
          apply bool_decide_eq_false_1 in Hex. contradiction.
        + assert (length daily = length stock_dir
                                 + S (length (strftime_dash target_date ++ s_csv)))%nat as Hl.
          { unfold daily, daily_file_of. fold stock_dir.
            rewrite (path_join_relative _ _ (daily_name_no_slash target_date)).
            rewrite !length_app. reflexivity. }
          rewrite Hl in Hlen. lia. }
    destruct (to_csv stock_df daily st1) as [[[]|e] st2] eqn:Et; cbn [fst snd] in *;
      [|discriminate].
    injection H as <-.
    pose proof (accumulation_effect stock_id stock_df stock_dir st2) as (_ & As & Ad & _).
    unfold path_exists. apply orb_true_iff. left. apply bool_decide_eq_true_2.
    apply elem_of_dom, As. exact (mk_is_Some _ _ (Tok eq_refl)).
  - injection H as <-. right.
    destruct (Mfail Hfl) as [Heq Hfile]; [discriminate|].
    injection Heq as _ ->. exact Hfile.
Qed.

Lemma file_on_path_grows p st st' :
  (forall q, is_Some (files st !! q) -> is_Some (files st' !! q)) ->
  file_on_path p st = true -> file_on_path p st' = true.
Proof.
  intros Hf. unfold file_on_path. rewrite !orb_true_iff, !existsb_exists.
  intros [H | (q & Hq & H)]; [left | right; exists q; split; [exact Hq|]];
    apply bool_decide_eq_true_1 in H; apply bool_decide_eq_true_2;
    apply elem_of_dom, Hf, elem_of_dom, H.
Qed.

Lemma skips_grows stock_id market_type st st' :
  (forall q, is_Some (files st !! q) -> is_Some (files st' !! q)) ->
  dirs st ⊆ dirs st' ->
  skips ROOT_DIR target_date twse_market_df tpex_market_df stock_id market_type st ->
  skips ROOT_DIR target_date twse_market_df tpex_market_df stock_id market_type st'.
Proof.
  intros Hf Hd. unfold skips. intros [H | (ids & Hids & H)]; [left; exact H|].
  right. exists ids. split; [exact Hids|].
  destruct H as [H | [H | H]];
    [left; exact H | right; left | right; right; eapply file_on_path_grows; eassumption].
  eapply path_exists_grows; eassumption.
Qed.

Lemma persist_all_grows stock_map st st' :
  persist_all ROOT_DIR target_date twse_market_df tpex_market_df stock_map st = Ok st' ->
  (forall q, is_Some (files st !! q) -> is_Some (files st' !! q))
  /\ dirs st ⊆ dirs st'
  /\ (faults st = [] -> faults st' = []).
Proof.
  revert st. induction stock_map as [|[stock_id market_type] rest IH]; intros st H.
  - injection H as <-. auto.
  - cbn [persist_all] in H.
    destruct (persist_stock ROOT_DIR target_date twse_market_df tpex_market_df
                stock_id market_type st) as [st1|e] eqn:E1;
      cbn [mbind result_bind] in H; [|discriminate].
    destruct (persist_stock_effect _ _ _ _ _ _ _ _ E1) as (_ & F2 & F3 & _ & F5).
    destruct (IH st1 H) as (G1 & G2 & G3).
    split; [|split]; [auto | transitivity (dirs st1); assumption | auto].
Qed.

Lemma persist_all_settles stock_map st st' :
  persist_all ROOT_DIR target_date twse_market_df tpex_market_df stock_map st = Ok st' ->
  faults st = [] ->
  forall stock_id market_type, In (stock_id, market_type) stock_map ->
    skips ROOT_DIR target_date twse_market_df tpex_market_df stock_id market_type st'.
Proof.
  revert st. induction stock_map as [|[s m] rest IH]; intros st H Hfl stock_id market_type Hin.
  - destruct Hin.
  - cbn [persist_all] in H.
    destruct (persist_stock ROOT_DIR target_date twse_market_df tpex_market_df s m st)
      as [st1|e] eqn:E1; cbn [mbind result_bind] in H; [|discriminate].
    destruct (persist_stock_effect _ _ _ _ _ _ _ _ E1) as (_ & _ & _ & _ & F5).
    destruct Hin as [[= <- <-] | Hin].
    + destruct (persist_all_grows _ _ _ H) as (G1 & G2 & _).
      eapply skips_grows; [exact G1 | exact G2|]. eapply persist_skips; eassumption.
    + eapply IH; [exact H | auto | exact Hin].
Qed.

Lemma persist_all_skips stock_map st :
  faults st = [] ->
  (forall stock_id market_type, In (stock_id, market_type) stock_map ->
     skips ROOT_DIR target_date twse_market_df tpex_market_df stock_id market_type st) ->
  persist_all ROOT_DIR target_date twse_market_df tpex_market_df stock_map st = Ok st.
Proof.
  intros Hfl. induction stock_map as [|[s m] rest IH]; intros H; [reflexivity|].
  cbn [persist_all]. rewrite skips_persist; [|exact Hfl | apply H; left; reflexivity].
  cbn [mbind result_bind]. apply IH. intros s' m' Hin. apply H. right. exact Hin.
Qed.

End Rerun.

Section DayAgain.

Variable read_csv : pystr -> result DataFrame.
Variable csv_reader : pystr -> result (list (list pystr)).
Variable to_numeric : pystr -> option Z.
Variable ROOT_DIR : pystr.
Variable session_get : pystr -> list (pystr * pystr) -> result (list N).
Variable bytes_decode : pystr -> list N -> option pystr.

(** X5. Running a day again does nothing: when [process_day] has
    returned on a storage without faults and is called again with the
    same date and stock map (and the network gives the same answers), it
    returns the storage it finds, without a write. *)
Theorem process_day_again (target_date : date) (stock_map : list (pystr * pystr))
  (st st' : FS) :
  faults st = [] ->
  process_day read_csv csv_reader to_numeric ROOT_DIR session_get bytes_decode
    target_date stock_map st = Ok st' ->
  process_day read_csv csv_reader to_numeric ROOT_DIR session_get bytes_decode
    target_date stock_map st' = Ok st'.
Proof.
  intros Hfl H. pose proof H as H0. unfold process_day in H |- *.
  destruct (market_tables read_csv csv_reader to_numeric session_get bytes_decode target_date)
    as [[tw tp]|e]; cbn [mbind result_bind] in *; [|discriminate].
  destruct (df_empty tw && df_empty tp); [reflexivity|].
  apply persist_all_skips.
  - destruct (persist_all_grows _ _ _ _ _ _ _ H) as (_ & _ & G). auto.
  - eapply persist_all_settles; eassumption.
Qed.

End DayAgain.

(** ** A day on the sample network *)

Example process_day_sample_run :
  process_day_sample stock_map_sample storage_notes = Ok storage_day2.
Proof. vm_compute. reflexivity. Qed.

Lemma plain_name_2330 : plain_name s_2330.
Proof.
  split; [discriminate|]. split; [|split; discriminate].
  repeat (apply List.Forall_cons; [discriminate|]); apply List.Forall_nil.
Qed.

Lemma plain_name_2317 : plain_name s_2317.
Proof.
  split; [discriminate|]. split; [|split; discriminate].
  repeat (apply List.Forall_cons; [discriminate|]); apply List.Forall_nil.
Qed.

Lemma plain_dir_root_here : plain_dir root_here.
Proof. split; [discriminate|]. split; [discriminate|]. vm_compute. discriminate. Qed.

Lemma process_day_keeps_existing_witness :
  path_exists s_notes storage_day2 = true
  /\ files storage_day2 !! s_notes = files storage_notes !! s_notes.
Proof.
  destruct (process_day_keeps_existing read_csv_simple csv_excel to_numeric_int root_here
              session_sample decode_sample day2 stock_map_sample storage_notes storage_day2
              s_notes) as [H1 H2].
  - vm_compute. reflexivity.
  - vm_compute. reflexivity.
  - split; [exact H1|]. apply H2; [exact plain_dir_root_here|].
    intros stock_id market_type [[= <- <-] | [[= <- <-] | []]].
    + split; [exact plain_name_2330 | vm_compute; discriminate].
    + split; [exact plain_name_2317 | vm_compute; discriminate].
Defined.

Lemma process_day_writes_confined_witness :
  (exists ws,
     writes storage_day2 = writes storage_notes ++ ws
     /\ Forall (fun p => exists stock_id market_type,
                  In (stock_id, market_type) stock_map_sample
                  /\ In p (paths_of root_here day2 stock_id market_type)) ws)
  /\ (forall q, files storage_day2 !! q = files storage_notes !! q
        \/ exists stock_id market_type,
             In (stock_id, market_type) stock_map_sample
             /\ (q = daily_file_of root_here day2 stock_id market_type
                 \/ q = history_file_of root_here stock_id market_type))
  /\ (forall q, q ∈ dirs storage_day2 ->
        q ∈ dirs storage_notes
        \/ exists stock_id market_type,
             In (stock_id, market_type) stock_map_sample
             /\ (q = stock_dir_of root_here stock_id market_type
                 \/ In q (prefixes_at_slash [] (stock_dir_of root_here stock_id market_type)))).
Proof.
  apply (process_day_writes_confined read_csv_simple csv_excel to_numeric_int root_here
           session_sample decode_sample day2 stock_map_sample storage_notes storage_day2).
  - exact plain_dir_root_here.
  - intros stock_id market_type [[= <- <-] | [[= <- <-] | []]];
      [exact plain_name_2330 | exact plain_name_2317].
  - vm_compute. reflexivity.
Defined.

Lemma process_day_without_data_witness :
  process_day read_csv_simple csv_excel to_numeric_int root_here
    (fun _ _ => Raise OSError) decode_sample day2 stock_map_sample storage_notes
  = Ok storage_notes.
Proof.
  apply (process_day_without_data read_csv_simple csv_excel to_numeric_int root_here
           (fun _ _ => Raise OSError) decode_sample day2 stock_map_sample storage_notes).
  intros url params. exact I.
Defined.

Lemma process_day_again_witness :
  process_day_sample stock_map_sample storage_day2 = Ok storage_day2.
Proof.
  apply (process_day_again read_csv_simple csv_excel to_numeric_int root_here
           session_sample decode_sample day2 stock_map_sample storage_notes storage_day2).
  - reflexivity.
  - vm_compute. reflexivity.
Defined.

(** ** The daily snapshot *)

Lemma path_join_inj_r d a b :
  absolute a = false -> absolute b = false -> path_join d a = path_join d b -> a = b.
Proof.
  unfold path_join. intros -> -> H. apply app_inv_head in H. injection H as H. exact H.
Qed.

Lemma absolute_csv a : absolute (a ++ s_csv) = absolute a.
Proof. destruct a; reflexivity. Qed.

(** the snapshot of a day is not the history file, unless the security
    is named like the day *)
Lemma daily_not_history d stock_id s :
  Forall (fun c => c <> SLASH) s -> s <> stock_id ->
  path_join (path_join d stock_id) (s ++ s_csv)
  <> path_join (path_join d stock_id) (stock_id ++ s_csv).
Proof.
  intros Hs Hne E.
  assert (absolute (s ++ s_csv) = false) as Ha.
  { rewrite absolute_csv. apply no_slash_relative, Hs. }
  destruct (absolute (stock_id ++ s_csv)) eqn:Hb.
  - unfold path_join at 1 3 in E. rewrite Ha, Hb in E.
    rewrite absolute_csv in Hb. unfold path_join in E. rewrite Hb in E.
    apply (f_equal (@length N)) in E. rewrite !length_app in E. cbn [length] in E. lia.
  - apply path_join_inj_r in E; [|exact Ha | exact Hb]. apply app_inv_tail in E. congruence.
Qed.

Section Snapshot.

Variable ROOT_DIR : pystr.
Variable target_date : date.
Variables twse_market_df tpex_market_df : DataFrame.


End Snapshot.


(** ** The accumulator and the other dates *)








(** ** What the merger keeps *)

Lemma in_cross (G H : list Row) (m : Row) :
  In m (cross G H) <-> exists g h, In g G /\ In h H /\ m = g ∪ h.
Proof.
  unfold cross. rewrite in_flat_map. split.
  - intros (g & Hg & Hm). apply in_map_iff in Hm. destruct Hm as (h & <- & Hh). eauto.
  - intros (g & h & Hg & Hh & ->). exists g. split; [exact Hg|]. apply in_map, Hh.
Qed.

Lemma in_otimes (G H : list Row) (m : Row) :
  In m (otimes G H) ->
  (In m G /\ H = []) \/ (In m H /\ G = [])
  \/ exists g h, In g G /\ In h H /\ m = g ∪ h.
Proof.
  destruct G as [|g0 G], H as [|h0 H]; cbn [otimes]; intros Hm; auto.
  right. right. apply in_cross, Hm.
Qed.

Lemma bigotimes_group_ok (k : Key) (ps : list (list pystr * list Row)) :
  Forall (group_ok k) ps ->
  group_ok k (concat (List.map fst ps), bigotimes (List.map snd ps)).
Proof.
  induction 1 as [|p ps Hp _ IH]; [intros g []|].
  intros m Hm. cbn [List.map bigotimes foldr concat fst snd] in *.
  fold (bigotimes (List.map snd ps)) in Hm.
  apply in_otimes in Hm. destruct Hm as [[Hm _] | [[Hm _] | (g & h & Hg & Hh & ->)]].
  - destruct (Hp m Hm) as [Hk Hd]. split; [exact Hk|]. intros c Hc.
    destruct (Hd c Hc) as [? | [? | ?]]; auto. right. right. apply in_or_app. auto.
  - destruct (IH m Hm) as [Hk Hd]. split; [exact Hk|]. intros c Hc.
    destruct (Hd c Hc) as [? | [? | ?]]; auto. right. right. apply in_or_app. auto.
  - destruct (Hp g Hg) as [Hkg Hdg]. destruct (IH h Hh) as [Hkh Hdh]. split.
    + rewrite keyv_union; [exact Hkg | congruence].
    + intros c Hc. rewrite lookup_union in Hc.
      destruct (g !! c) as [v|] eqn:Eg.
      * destruct (Hdg c) as [? | [? | ?]]; [rewrite Eg; eauto | auto ..].
        right. right. apply in_or_app. auto.
      * destruct (h !! c) as [v|] eqn:Eh; [|destruct Hc as [? Hc]; discriminate].
        destruct (Hdh c) as [? | [? | ?]]; [rewrite Eh; eauto | auto ..].
        right. right. apply in_or_app. auto.
Qed.

Lemma keyv_lookup (g h : Row) (c : pystr) :
  keyv g = keyv h -> c = s_id \/ c = s_name -> g !! c = h !! c.
Proof. unfold keyv. intros [= H1 H2] [-> | ->]; assumption. Qed.

(** a row of a group is part of a row of the join of the groups *)
Lemma bigotimes_covers (k : Key) (ps : list (list pystr * list Row))
  (p : list pystr * list Row) (g : Row) :
  Forall (group_ok k) ps -> NoDup (concat (List.map fst ps)) ->
  In p ps -> In g p.2 ->
  exists m, In m (bigotimes (List.map snd ps))
            /\ forall c, c = s_id \/ c = s_name \/ In c p.1 -> m !! c = g !! c.
Proof.
  intros Hok. revert p g. induction Hok as [|q ps Hq Hps IH]; intros p g Hnd Hp Hg;
    [destruct Hp|].
  cbn [List.map concat bigotimes foldr] in *. fold (bigotimes (List.map snd ps)).
  pose proof (bigotimes_group_ok k ps Hps) as HB. cbn [fst snd] in HB.
  apply NoDup_app in Hnd. destruct Hnd as (Hnq & Hdis & Hnps).
  destruct Hp as [-> | Hp].
  - destruct (bigotimes (List.map snd ps)) as [|h B] eqn:EB.
    + exists g. rewrite otimes_nil_r. auto.
    + destruct p as [cols [|g0 G]]; [destruct Hg|]. cbn [snd fst otimes] in *.
      exists (g ∪ h). split; [apply in_cross; exists g, h; cbn; auto|].
      intros c Hc. rewrite lookup_union.
      destruct (g !! c) as [v|] eqn:Eg; [destruct (h !! c); reflexivity|].
      destruct (HB h (or_introl eq_refl)) as [Hkh Hdh].
      destruct (Hq g Hg) as [Hkg _].
      destruct (h !! c) as [v|] eqn:Eh; [|reflexivity]. exfalso.
      destruct Hc as [Hc | [Hc | Hc]].
      * rewrite (keyv_lookup g h c) in Eg by (auto; congruence). congruence.
      * rewrite (keyv_lookup g h c) in Eg by (auto; congruence). congruence.
      * destruct (Hdh c) as [-> | [-> | Hin]]; [rewrite Eh; eauto | | |].
        -- rewrite (keyv_lookup g h s_id) in Eg by (auto; congruence). congruence.
        -- rewrite (keyv_lookup g h s_name) in Eg by (auto; congruence). congruence.
        -- apply (Hdis c); apply list_elem_of_In; assumption.
  - destruct (IH p g Hnps Hp Hg) as (m & Hm & Hagree).
    destruct q as [cols [|g0 G]]; cbn [snd fst] in *.
    + exists m. split; [|exact Hagree].
      destruct (bigotimes (List.map snd ps)); exact Hm.
    + destruct (bigotimes (List.map snd ps)) as [|h B] eqn:EB; [destruct Hm|].
      cbn [otimes]. exists (g0 ∪ m). split; [apply in_cross; exists g0, m; cbn; auto|].
      intros c Hc. rewrite <- (Hagree c Hc), lookup_union.
      destruct (Hq g0 (or_introl eq_refl)) as [Hk0 Hd0].
      destruct (HB m Hm) as [Hkm _].
      assert (g0 !! c = None \/ g0 !! c = m !! c) as [E0 | E0].
      { destruct (g0 !! c) as [v|] eqn:E0; [|auto]. right. rewrite <- E0.
        destruct (Hd0 c) as [Hkey | [Hkey | Hin]]; [rewrite E0; eauto | | |].
        - apply keyv_lookup; [congruence | auto].
        - apply keyv_lookup; [congruence | auto].
        - destruct Hc as [Hkey | [Hkey | Hc]]; [apply keyv_lookup; [congruence | auto] ..|].
          exfalso. apply (Hdis c); [apply list_elem_of_In, Hin|].
          apply list_elem_of_In, in_concat. exists p.1.
          split; [apply in_map, Hp | exact Hc]. }
      * rewrite E0. destruct (m !! c); reflexivity.
      * rewrite E0. destruct (m !! c); reflexivity.
Qed.

Lemma views_In (df : DataFrame) (m : Row) :
  In m (views df) <-> exists r, In r (rows df) /\ view (columns df) r = m.
Proof.
  unfold views. rewrite in_map_iff. split; intros (r & H1 & H2); exists r; auto.
Qed.

(** X8. The outer join loses nothing: for tables that can be merged,
    every row of every input table is found in the merged table, with
    its cells under every column of its table; only a missing share
    count has become zero. *)
Theorem merge_keeps_rows (dfs : list DataFrame) (df : DataFrame) (r : list cell) :
  mergeable dfs -> In df dfs -> In r (rows df) ->
  exists out r',
    merge_dataframes dfs = Ok out
    /\ In r' (rows out)
    /\ forall c, In c (columns df) ->
         cell_under (columns out) r' c = fill_zero c (cell_under (columns df) r c).
Proof.
  intros Hm Hdf Hr.
  assert (dfs <> []) as Hne by (intros ->; destruct Hdf).
  destruct (merge_dataframes_views dfs Hm Hne) as (M & out & Ho & Hc & Nd & Hch & Hv & Hk).
  set (g := view (columns df) r). set (k := keyv g).
  assert (In g (grp k (views df))) as Hg.
  { apply grp_In. split; [apply views_In; eauto | reflexivity]. }
  destruct Hm as [Wk Hnd]. rewrite Forall_forall in Wk.
  pose proof (Wk df (proj2 (list_elem_of_In _ _) Hdf)) as Wdf.
  destruct (bigotimes_covers k (List.map (key_group k) dfs) (key_group k df) g)
    as (m & Hm & Hagree).
  - apply Forall_forall. intros p Hp. apply list_elem_of_In, in_map_iff in Hp.
    destruct Hp as (d & <- & _). apply group_ok_key_group.
  - rewrite List.map_map. cbn [key_group fst]. exact Hnd.
  - apply in_map, Hdf.
  - exact Hg.
  - assert (In m (views M)) as HmM.
    { eapply grp_In. eapply Permutation_in; [symmetry; apply (Hk k) | exact Hm]. }
    assert (In (m ∪ zero_fill (columns M)) (views out)) as Hout.
    { rewrite Hv. apply (in_map (fun m => m ∪ zero_fill (columns M))), HmM. }
    apply views_In in Hout. destruct Hout as (r' & Hr' & Hview).
    exists out, r'. split; [exact Ho|]. split; [exact Hr'|].
    intros c Hcin. apply cell_opt_inj. rewrite <- view_lookup, Hview, lookup_union.
    rewrite (Hagree c) by (cbn [key_group fst]; apply keyed_columns_char; assumption).
    unfold g. rewrite view_lookup, zero_fill_lookup.
    assert (In c (columns M)) as HcM.
    { apply Hch. apply (keyed_columns_char df c Wdf) in Hcin.
      destruct Hcin as [? | [? | ?]]; auto. right. right. exists df. auto. }
    rewrite (bool_decide_eq_true_2 (c ∈ columns M)) by (apply list_elem_of_In, HcM).
    cbn [andb]. unfold fill_zero, cell_opt.
    destruct (isna (cell_under (columns df) r c)) eqn:Ena.
    + rewrite andb_true_r. destruct (contains s_shares c); cbn; [reflexivity|].
      rewrite Ena. reflexivity.
    + rewrite andb_false_r, Ena. destruct (contains s_shares c); reflexivity.
Qed.

Lemma merge_keeps_rows_witness :
  exists out r',
    merge_dataframes [trust_sample; foreign_sample] = Ok out
    /\ In r' (rows out)
    /\ forall c, In c (columns trust_sample) ->
         cell_under (columns out) r' c
         = fill_zero c (cell_under (columns trust_sample) [Str s_2330; Str s_tsmc; Num 5] c).
Proof.
  apply (merge_keeps_rows [trust_sample; foreign_sample] trust_sample
           [Str s_2330; Str s_tsmc; Num 5]).
  - exact samples_mergeable.
  - left. reflexivity.
  - left. reflexivity.
Defined.

(** ** The keys of the merged table *)

Lemma keyv_of_view (cols : list pystr) (r : list cell) :
  keyv (view cols r) = (cell_opt (key_cells cols r).1, cell_opt (key_cells cols r).2).
Proof. unfold keyv, key_cells. rewrite !view_lookup. reflexivity. Qed.

Lemma key_cells_keyv (cols cols' : list pystr) (r r' : list cell) :
  keyv (view cols r) = keyv (view cols' r') <-> key_cells cols r = key_cells cols' r'.
Proof.
  rewrite !keyv_of_view. split.
  - intros [= H1 H2]. apply cell_opt_inj in H1, H2.
    apply injective_projections; assumption.
  - intros ->. reflexivity.
Qed.

Lemma map_keyv_of_views (df : DataFrame) :
  List.map keyv (views df)
  = List.map (fun p : cell * cell => (cell_opt p.1, cell_opt p.2))
      (List.map (key_cells (columns df)) (rows df)).
Proof.
  unfold views. rewrite !List.map_map. apply map_ext. intros r. apply keyv_of_view.
Qed.

Lemma nodup_keys_views (df : DataFrame) :
  NoDup (List.map (key_cells (columns df)) (rows df)) <-> NoDup (List.map keyv (views df)).
Proof.
  rewrite map_keyv_of_views.
  assert (Inj eq eq (fun p : cell * cell => (cell_opt p.1, cell_opt p.2))) as Hinj.
  { intros [a b] [a' b'] [= H1 H2]. apply cell_opt_inj in H1, H2. congruence. }
  split.
  - apply (NoDup_fmap_2 _).
  - apply (NoDup_fmap_1 (fun p : cell * cell => (cell_opt p.1, cell_opt p.2))).
Qed.

Lemma nodup_keys_grp (X : list Row) :
  NoDup (List.map keyv X) <-> forall k, (length (grp k X) <= 1)%nat.
Proof.
  induction X as [|x X IH]; cbn [List.map].
  - split; [intros _ k; cbn; lia | intros _; constructor].
  - rewrite NoDup_cons, IH. unfold grp. cbn [List.filter]. split.
    + intros [Hx HX] k. destruct (bool_decide (keyv x = k)) eqn:E; [|apply HX].
      apply bool_decide_eq_true_1 in E. subst k. cbn [length].
      assert (grp (keyv x) X = []) as Hnil.
      { apply grp_nil_iff. intros H. apply Hx, list_elem_of_In, H. }
      unfold grp in Hnil. rewrite Hnil. cbn. lia.
    + intros H. split.
      * intros Hin. specialize (H (keyv x)).
        rewrite bool_decide_eq_true_2 in H by reflexivity. cbn [length] in H.
        destruct (List.filter (fun m => bool_decide (keyv m = keyv x)) X) as [|y l] eqn:E;
          [|cbn in H; lia].
        apply list_elem_of_In in Hin. apply (proj1 (grp_nil_iff (keyv x) X) E), Hin.
      * intros k. specialize (H k). destruct (bool_decide (keyv x = k)); cbn [length] in H; lia.
Qed.

Lemma otimes_length_le (G H : list Row) :
  (length G <= 1)%nat -> (length H <= 1)%nat -> (length (otimes G H) <= 1)%nat.
Proof.
  destruct G as [|g [|g' G]], H as [|h [|h' H]]; cbn; lia.
Qed.

Lemma bigotimes_length_le (gs : list (list Row)) :
  Forall (fun G => (length G <= 1)%nat) gs -> (length (bigotimes gs) <= 1)%nat.
Proof.
  induction 1 as [|G gs HG _ IH]; [cbn; lia|].
  cbn [bigotimes foldr]. apply otimes_length_le; assumption.
Qed.

Lemma bigotimes_nonempty (gs : list (list Row)) (m : Row) :
  In m (bigotimes gs) -> exists G g, In G gs /\ In g G.
Proof.
  revert m. induction gs as [|G gs IH]; intros m Hm; [destruct Hm|].
  cbn [bigotimes foldr] in Hm. fold (bigotimes gs) in Hm.
  apply in_otimes in Hm. destruct Hm as [[Hm _] | [[Hm _] | (g & h & Hg & _ & _)]].
  - exists G, m. split; [left; reflexivity | exact Hm].
  - destruct (IH m Hm) as (G' & g & HG' & Hg). exists G', g. split; [right; exact HG' | exact Hg].
  - exists G, g. split; [left; reflexivity | exact Hg].
Qed.

Lemma keyv_zero_fill (m : Row) (cols : list pystr) : keyv (m ∪ zero_fill cols) = keyv m.
Proof.
  unfold keyv. rewrite !lookup_union, !zero_fill_lookup.
  change (contains s_shares s_id) with false. change (contains s_shares s_name) with false.
  rewrite !andb_false_r. destruct (m !! s_id), (m !! s_name); reflexivity.
Qed.

(** X9. One row for a security.  For input tables that the merger joins
    without renaming a column (every table is rectangular, has distinct
    labels and both join keys, and the labels other than the keys are
    distinct across the tables): when every input table has at most one
    row for a pair of join keys, [merge_dataframes] returns a table that
    also has at most one row for a pair of join keys, and every row of
    it has the join keys of a row of some input table. *)
Theorem merge_one_row_per_key (dfs : list DataFrame) :
  mergeable dfs ->
  (forall df, In df dfs -> NoDup (List.map (key_cells (columns df)) (rows df))) ->
  exists out,
    merge_dataframes dfs = Ok out
    /\ NoDup (List.map (key_cells (columns out)) (rows out))
    /\ forall r', In r' (rows out) ->
         exists df r, In df dfs /\ In r (rows df)
                      /\ key_cells (columns df) r = key_cells (columns out) r'.
Proof.
  intros Hm Hkeys. destruct dfs as [|d ds].
  { exists empty_df. split; [reflexivity|]. split; [constructor | intros r' []]. }
  destruct (merge_dataframes_views (d :: ds) Hm) as (M & out & Ho & Hc & Nd & Hch & Hv & Hk);
    [discriminate|].
  set (dfs := d :: ds) in *.
  exists out. split; [exact Ho|].
  assert (List.map keyv (views out) = List.map keyv (views M)) as Hkv.
  { rewrite Hv, List.map_map. apply map_ext. intros m. apply keyv_zero_fill. }
  split.
  - apply nodup_keys_views. rewrite Hkv. apply nodup_keys_grp. intros k.
    rewrite (Permutation_length (Hk k)). apply bigotimes_length_le.
    rewrite List.map_map. apply Forall_forall. intros G HG.
    apply list_elem_of_In, in_map_iff in HG. destruct HG as (df & <- & Hdf).
    cbn [key_group snd]. apply nodup_keys_grp, nodup_keys_views, Hkeys, Hdf.
  - intros r' Hr'.
    assert (In (view (columns out) r') (views out)) as Hin by (apply views_In; eauto).
    rewrite Hv in Hin. apply in_map_iff in Hin. destruct Hin as (m & Hm' & HmM).
    assert (In m (bigotimes (List.map snd (List.map (key_group (keyv m)) dfs)))) as HmB.
    { eapply Permutation_in; [apply (Hk (keyv m))|]. apply grp_In. auto. }
    apply bigotimes_nonempty in HmB. destruct HmB as (G & g & HG & Hg).
    rewrite List.map_map in HG. apply in_map_iff in HG. destruct HG as (df & <- & Hdf).
    cbn [key_group snd] in Hg. apply grp_In in Hg. destruct Hg as [Hg Hkg].
    apply views_In in Hg. destruct Hg as (r & Hr & <-).
    exists df, r. split; [exact Hdf|]. split; [exact Hr|].
    apply key_cells_keyv. rewrite Hkg, <- Hm'. symmetry. apply keyv_zero_fill.
Qed.

Lemma merge_one_row_per_key_witness :
  exists out,
    merge_dataframes [trust_sample; foreign_sample] = Ok out
    /\ NoDup (List.map (key_cells (columns out)) (rows out))
    /\ forall r', In r' (rows out) ->
         exists df r, In df [trust_sample; foreign_sample] /\ In r (rows df)
                      /\ key_cells (columns df) r = key_cells (columns out) r'.
Proof.
  apply (merge_one_row_per_key [trust_sample; foreign_sample]).
  - exact samples_mergeable.
  - intros df [<- | [<- | []]]; apply (bool_decide_eq_true_1 (NoDup _)); vm_compute; reflexivity.
Defined.

(** ** Tables without the join keys, and the columns of the result *)

(** X10. The merger passes over the tables that lack a join key
    column: it returns what it returns for the list without them, and
    the empty table when no table has both keys. *)
Theorem merge_ignores_keyless (dfs : list DataFrame) :
  merge_dataframes dfs
  = merge_dataframes
      (List.filter (fun df => has_column df s_id && has_column df s_name) dfs)
  /\ (List.filter (fun df => has_column df s_id && has_column df s_name) dfs = [] ->
      merge_dataframes dfs = Ok empty_df).
Proof.
  unfold merge_dataframes. destruct dfs as [|d ds]; [split; reflexivity|].
  set (valid := List.filter _ (d :: ds)).
  assert (List.filter (fun df => has_column df s_id && has_column df s_name) valid = valid)
    as Hidem by apply filter_idem.
  destruct valid as [|v vs]; [split; reflexivity|].
  rewrite Hidem. split; [reflexivity | discriminate].
Qed.

(** X11. The columns of the merged table: those of the first table, in
    their order, followed by the columns of each further table that are
    not join keys, table after table. *)
Theorem merge_columns_order (first : DataFrame) (rest : list DataFrame) :
  mergeable (first :: rest) ->
  exists out,
    merge_dataframes (first :: rest) = Ok out
    /\ columns out = columns first ++ concat (List.map nonkey_columns rest).
Proof.
  intros [Wk Hnd]. pose proof Wk as Wk'. apply Forall_cons in Wk'. destruct Wk' as [Wf Wr].
  destruct (merge_all_views first rest Wf Wr Hnd) as (M & HM & _ & Hc & _).
  exists (fillna_shares (columns M) M). split.
  - unfold merge_dataframes. rewrite (mergeable_valid _ Wk), HM. reflexivity.
  - rewrite fillna_shares_rows. exact Hc.
Qed.

Lemma merge_columns_order_witness :
  exists out,
    merge_dataframes [trust_sample; foreign_sample] = Ok out
    /\ columns out = columns trust_sample ++ concat (List.map nonkey_columns [foreign_sample]).
Proof.
  apply (merge_columns_order trust_sample [foreign_sample]). exact samples_mergeable.
Defined.

(** ** The parsers: labels and share counts *)

Section ParserColumns.

Variable read_csv : pystr -> result DataFrame.
Variable csv_reader : pystr -> result (list (list pystr)).
Variable to_numeric : pystr -> option Z.

Lemma assoc_Some k v m : In (k, v) m -> exists v', assoc k m = Some v'.
Proof.
  induction m as [|[a b] m IH]; cbn [assoc In]; [intros []|].
  destruct (decide (k = a)) as [->|Hne]; [eauto|].
  intros [[= -> ->] | H]; [contradiction | apply IH, H].
Qed.

Lemma choose_columns_labels df keep :
  (forall c, In c (choose_columns df keep).1 ->
     In c keep \/ exists b, In (c, b) (choose_columns df keep).2)
  /\ (forall a b, In (a, b) (choose_columns df keep).2 -> In b keep).
Proof.
  induction keep as [|col keep [IH1 IH2]]; cbn [choose_columns].
  - split; [intros c [] | intros a b []].
  - destruct (choose_columns df keep) as [fin ren]. cbn [fst snd] in *.
    destruct (has_column df col); [|destruct (has_column df (col ++ s_unit))];
      cbn [fst snd]; split.
    + intros c [<- | Hc]; [left; left; reflexivity|].
      destruct (IH1 c Hc) as [H | H]; [left; right; exact H | right; exact H].
    + intros a b H. right. eapply IH2, H.
    + intros c [<- | Hc]; [right; exists col; left; reflexivity|].
      destruct (IH1 c Hc) as [H | (b & H)]; [left; right; exact H|].
      right. exists b. right. exact H.
    + intros a b [[= <- <-] | H]; [left; reflexivity | right; eapply IH2, H].
    + intros c Hc. destruct (IH1 c Hc) as [H | H]; [left; right; exact H | right; exact H].
    + intros a b H. right. eapply IH2, H.
Qed.

(** X12. The labels of the over-the-counter table: every column of the
    table [parse_tpex_csv] returns carries one of the fourteen labels of
    [columns_to_keep]; a label with the unit suffix has lost it, and
    every other column of the document is dropped. *)
Theorem parse_tpex_csv_labels (text : pystr) (out : DataFrame) :
  parse_tpex_csv read_csv text = Ok out ->
  Forall (fun c => In c columns_to_keep) (columns out).
Proof.
  unfold parse_tpex_csv, parse_tpex_body.
  destruct (length (text_lines text) <? 2)%nat; [intros [= <-]; constructor|].
  destruct (find_header s_tpex_id s_tpex_name 0 (text_lines text)) as [h|];
    [|intros [= <-]; constructor].
  destruct (read_csv _) as [df0|e]; cbn [mbind result_bind]; [|intros [= <-]; constructor].
  set (df := dropna_all _).
  destruct (drop_totals df s_tpex_id) as [df1|e]; cbn [mbind result_bind];
    [|intros [= <-]; constructor].
  destruct (dropna_subset df1 s_tpex_id) as [df2|e]; cbn [mbind result_bind];
    [|intros [= <-]; constructor].
  destruct (strip_column _ s_id) as [df3|e]; cbn [mbind result_bind];
    [|intros [= <-]; constructor].
  pose proof (choose_columns_labels df3 columns_to_keep) as [L1 L2].
  destruct (choose_columns df3 columns_to_keep) as [fin rmap]. cbn [fst snd] in L1, L2.
  destruct (select_columns df3 fin) as [df4|e] eqn:H4; cbn [mbind result_bind];
    intros [= <-]; [|constructor].
  destruct (rows_select_columns _ _ _ H4) as (idx & Hidx & Hc4 & _).
  cbn [rename_columns columns]. rewrite Hc4, List.map_map.
  apply Forall_forall. intros c Hc. apply list_elem_of_In, in_map_iff in Hc.
  destruct Hc as (p & <- & Hp). destruct (Hidx p Hp) as (c & Hfin & Hcp).
  unfold pystr in *. rewrite Hcp. change (default [] (Some c)) with c.
  destruct (assoc c rmap) as [b|] eqn:Ea.
  - change (In b columns_to_keep). apply assoc_In in Ea. eapply L2, Ea.
  - change (In c columns_to_keep). destruct (L1 c Hfin) as [H | (b & H)]; [exact H|].
    apply assoc_Some in H. destruct H as [v' H]. unfold pystr in *. congruence.
Qed.

(** the coercion loop makes the share-count columns numeric *)
Lemma numeric_columns_numeric cols df out (done : nat -> Prop) :
  numeric_columns to_numeric cols df = Ok out ->
  (forall i r, done i -> In r (rows df) -> numeric_cell (cell_at i r)) ->
  columns out = columns df
  /\ forall i r, In r (rows out) ->
       done i \/ (exists c, columns df !! i = Some c /\ contains s_shares c = true /\ In c cols) ->
       numeric_cell (cell_at i r).
Proof.
  revert df done. induction cols as [|col cols IH]; intros df done; cbn [numeric_columns].
  - intros [= <-] Hdone. split; [reflexivity|].
    intros i r Hr [Hi | (c & _ & _ & [])]. apply Hdone; assumption.
  - destruct (contains s_shares col) eqn:Hcol.
    + unfold getitem. destruct (unique_index col (columns df)) as [j|e] eqn:Ej;
        cbn [mbind result_bind]; [|discriminate].
      apply unique_index_Ok in Ej. rewrite (setitem_existing _ _ _ _ Ej).
      rewrite List.map_map, zip_rows_map. intros Hrec Hdone.
      apply (IH _ (fun i => done i \/ i = j)) in Hrec.
      * cbn [columns] in Hrec. destruct Hrec as [Hc Hrows]. split; [exact Hc|].
        intros i r Hr [Hi | (c & Hic & Hsh & [<- | Hin])]; apply Hrows; auto.
        -- left. right. apply positions_singleton in Ej. destruct Ej as [_ Hu]. apply Hu, Hic.
        -- right. exists c. auto.
      * cbn [rows]. intros i r Hi Hr. apply in_map_iff in Hr. destruct Hr as (r0 & <- & Hr0).
        destruct (decide (i = j)) as [->|Hne].
        -- unfold cell_at. destruct (decide (j < length r0)%nat) as [Hlt|Hge].
           ++ rewrite list_lookup_insert_eq by exact Hlt. cbn [default].
              unfold coerce_numeric. destruct (to_numeric _); exact I.
           ++ rewrite lookup_ge_None_2 by (rewrite length_insert; lia). exact I.
        -- rewrite cell_at_insert_ne by congruence.
           destruct Hi as [Hi | Hi]; [apply Hdone; assumption | contradiction].
    + intros Hrec Hdone. destruct (IH _ _ Hrec Hdone) as [Hc Hrows]. split; [exact Hc|].
      intros i r Hr [Hi | (c & Hic & Hsh & [<- | Hin])]; [apply Hrows; auto | |].
      * rewrite Hcol in Hsh. discriminate.
      * apply Hrows; [exact Hr|]. right. exists c. auto.
Qed.

Lemma shares_column_empty P : shares_column P empty_df.
Proof. intros i c r _ _ []. Qed.

(** X13. The share counts of the exchange parser: in the table
    [parse_twse_csv] returns, every cell under a column whose label
    contains the share-count marker is a number or is missing; text that
    is not a number has become a missing value. *)
Theorem parse_twse_csv_shares_numeric (text name : pystr) (out : DataFrame) :
  parse_twse_csv read_csv csv_reader to_numeric text name = Ok out ->
  shares_column numeric_cell out.
Proof.
  unfold parse_twse_csv.
  destruct (parse_twse_body read_csv csv_reader to_numeric text name) as [df|e] eqn:E;
    intros [= <-]; [|apply shares_column_empty].
  unfold parse_twse_body in E.
  destruct (length (nonblank_lines text) <? 2)%nat.
  { injection E as <-. apply shares_column_empty. }
  destruct (find_header s_id s_name 0 (nonblank_lines text)) as [h|].
  2:{ injection E as <-. apply shares_column_empty. }
  set (branch := if decide (name = s_trust) then _ else _) in E.
  destruct branch as [df0|e]; cbn [mbind result_bind] in E; [|discriminate].
  destruct (drop_totals df0 s_id) as [df1|e]; cbn [mbind result_bind] in E; [|discriminate].
  destruct (dropna_subset df1 s_id) as [df2|e]; cbn [mbind result_bind] in E; [|discriminate].
  destruct (strip_column df2 s_id) as [df3|e]; cbn [mbind result_bind] in E; [|discriminate].
  destruct (numeric_columns_numeric _ _ _ (fun _ => False) E) as [Hc Hrows].
  { intros i r []. }
  intros i c r Hic Hsh Hr. apply Hrows; [exact Hr|]. right. exists c.
  rewrite Hc in Hic. split; [exact Hic|]. split; [exact Hsh|].
  eapply list_elem_of_In, list_elem_of_lookup_2, Hic.
Qed.

End ParserColumns.

Example parse_tpex_sample : tpex_ref text_tpex = Ok out_tpex.
Proof. vm_compute. reflexivity. Qed.

Lemma parse_tpex_csv_labels_witness :
  Forall (fun c => In c columns_to_keep) (columns out_tpex).
Proof.
  apply (parse_tpex_csv_labels read_csv_simple text_tpex out_tpex).
  vm_compute. reflexivity.
Defined.

Lemma parse_twse_csv_shares_numeric_witness : shares_column numeric_cell out_foreign.
Proof.
  apply (parse_twse_csv_shares_numeric read_csv_simple csv_excel to_numeric_int
           text_foreign s_foreign out_foreign).
  vm_compute. reflexivity.
Defined.

(** ** The invariant of the history file *)

Lemma first_write_explicit new :
  history_table new ->
  exists k,
    columns new !! k = Some s_date
    /\ first_write new
       = Ok (mkDF (columns new)
               (sort_by (fun a b => cell_leb (cell_at k a) (cell_at k b))
                  (keep_last (fun x => [cell_at k x]) (rows new)))).
Proof.
  intros (Nd & R & Hin & D).
  destruct (positions_In _ _ Nd Hin) as (k & Hk & Hp). exists k. split; [exact Hk|].
  unfold first_write, drop_duplicates_last. rewrite Hp. cbn [mbind result_bind].
  unfold sort_values. cbn [columns rows]. rewrite Hp.
  rewrite same_kind_dates; [reflexivity|].
  intros c Hc. apply in_map_iff in Hc. destruct Hc as (x & <- & Hx).
  apply (keep_last_In (fun x => List.map (fun i => cell_at i x) [k])) in Hx.
  rewrite <- (date_cell_position _ k x Nd Hk). apply D, Hx.
Qed.

(** rows of one date each, deduplicated and sorted on the date *)
Lemma dated_rows_invariant cols k (L : list (list cell)) :
  NoDup cols -> cols !! k = Some s_date ->
  (forall x, In x L -> length x = length cols /\ exists d, cell_at k x = Ts d) ->
  history_table
    (mkDF cols (sort_by (fun a b => cell_leb (cell_at k a) (cell_at k b))
                  (keep_last (fun x => [cell_at k x]) L)))
  /\ sorted_by_date
       (mkDF cols (sort_by (fun a b => cell_leb (cell_at k a) (cell_at k b))
                     (keep_last (fun x => [cell_at k x]) L)))
  /\ NoDup (List.map (date_cell cols)
              (sort_by (fun a b => cell_leb (cell_at k a) (cell_at k b))
                 (keep_last (fun x => [cell_at k x]) L)))
  /\ forall c,
       In c (List.map (cell_at k)
               (sort_by (fun a b => cell_leb (cell_at k a) (cell_at k b))
                  (keep_last (fun x => [cell_at k x]) L)))
       <-> In c (List.map (cell_at k) L).
Proof.
  intros Nd Hk HL.
  set (le := fun a b => cell_leb (cell_at k a) (cell_at k b)).
  set (key := fun x : list cell => [cell_at k x]).
  assert (forall x, In x (sort_by le (keep_last key L)) -> In x L) as Hin
    by (apply sorted_dedup_In).
  split; [|split; [|split]].
  - split; [exact Nd|]. split; [|split].
    + unfold rectangular. cbn [columns rows]. apply Forall_forall. intros x Hx.
      apply list_elem_of_In, Hin, HL in Hx. tauto.
    + eapply list_elem_of_In, list_elem_of_lookup_2, Hk.
    + cbn [columns rows]. intros x Hx. rewrite (date_cell_position cols k _ Nd Hk).
      apply Hin, HL in Hx. tauto.
  - unfold sorted_by_date. cbn [columns rows].
    eapply StronglySorted_ext; [apply (date_le_position cols k Nd Hk)|].
    apply sort_by_sorted; intros; [apply cell_leb_total | eapply cell_leb_trans; eassumption].
  - pose proof (sorted_dedup_nodup k L) as Hnd. fold le key in Hnd.
    apply NoDup_ListNoDup in Hnd. apply NoDup_ListNoDup.
    apply (NoDup_map_inv (fun c => [c])). rewrite List.map_map.
    erewrite map_ext; [exact Hnd|].
    intros x. unfold key. rewrite (date_cell_position cols k _ Nd Hk). reflexivity.
  - intros c.
    assert (In [c] (List.map key (sort_by le (keep_last key L)))
            <-> In [c] (List.map key L)) as Hkeys.
    { rewrite <- (keep_last_keys key [c] L). split; apply Permutation_in.
      - apply Permutation_map. symmetry. apply sort_by_perm.
      - apply Permutation_map, sort_by_perm. }
    unfold key in Hkeys. rewrite !in_map_iff in Hkeys. rewrite !in_map_iff.
    split; intros (x & <- & Hx).
    + destruct (proj1 Hkeys (ex_intro _ x (conj eq_refl Hx))) as (y & [= Hy] & HyL). eauto.
    + destruct (proj2 Hkeys (ex_intro _ x (conj eq_refl Hx))) as (y & [= Hy] & HyL). eauto.
Qed.

(** what the accumulator leaves in the history file *)
Lemma accumulator_invariant_holds (stock_id stock_dir : pystr) (new_data_df : DataFrame)
  (st : FS) :
  storage_ready st (path_join stock_dir (stock_id ++ s_csv)) ->
  history_table new_data_df ->
  exists F,
    files (update_accumulation_file stock_id new_data_df stock_dir st)
      !! path_join stock_dir (stock_id ++ s_csv) = Some F
    /\ history_table F /\ sorted_by_date F
    /\ NoDup (List.map (date_cell (columns F)) (rows F))
    /\ forall d,
         In (Ts d) (List.map (date_cell (columns F)) (rows F))
         <-> In (Ts d) (List.map (date_cell (columns new_data_df)) (rows new_data_df))
             \/ exists E, files st !! path_join stock_dir (stock_id ++ s_csv) = Some E
                          /\ In (Ts d) (List.map (date_cell (columns E)) (rows E)).
Proof.
  set (acc := path_join stock_dir (stock_id ++ s_csv)).
  intros Hready HN. pose proof Hready as (Hf & Hpar & Hnd & Hhist).
  pose proof HN as (NdN & RN & InN & DN).
  destruct (files st !! acc) as [E|] eqn:HE.
  - pose proof (Hhist E eq_refl) as HEt. pose proof HEt as (NdE & RE & InE & DE).
    destruct (accumulate_explicit E new_data_df HEt HN) as (k & Hk & Hacc).
    set (U := concat_columns (columns E) (columns new_data_df)) in *.
    assert (NoDup U) as NdU by (apply concat_columns_nodup; assumption).
    set (L := List.map (reindex_row (columns E) U) (rows E)
              ++ List.map (reindex_row (columns new_data_df) U) (rows new_data_df)) in *.
    destruct (dated_rows_invariant U k L NdU Hk) as (I1 & I2 & I3 & I4).
    { intros x Hx. destruct (aligned_dates E new_data_df U k HEt HN eq_refl Hk x Hx)
        as (Hlen & y & _ & Hd). auto. }
    eexists. unfold update_accumulation_file.
    rewrite (body_existing _ _ _ _ E _ Hready HE Hacc). cbn [snd files].
    split; [apply lookup_insert_eq|]. split; [exact I1|]. split; [exact I2|].
    split; [exact I3|]. cbn [columns rows]. intros d.
    erewrite (map_ext (date_cell U)); [|intros x; apply (date_cell_position U k x NdU Hk)].
    rewrite I4. unfold L. rewrite List.map_app, in_app_iff, !List.map_map.
    assert (In s_date U) as InU by (apply in_concat_columns_l, InE).
    erewrite (map_ext (fun x => cell_at k (reindex_row (columns E) U x)));
      [|intros x; rewrite <- (date_cell_position U k _ NdU Hk);
        apply date_cell_reindex; assumption].
    erewrite (map_ext (fun x => cell_at k (reindex_row (columns new_data_df) U x)));
      [|intros x; rewrite <- (date_cell_position U k _ NdU Hk);
        apply date_cell_reindex; assumption].
    split.
    + intros [H | H]; [right; exists E; auto | left; exact H].
    + intros [H | (E' & [= <-] & H)]; auto.
  - destruct (first_write_explicit new_data_df HN) as (k & Hk & Hacc).
    destruct (dated_rows_invariant (columns new_data_df) k (rows new_data_df) NdN Hk)
      as (I1 & I2 & I3 & I4).
    { intros x Hx. split.
      - unfold rectangular in RN. rewrite Forall_forall in RN. apply RN, list_elem_of_In, Hx.
      - rewrite <- (date_cell_position _ k x NdN Hk). apply DN, Hx. }
    eexists. unfold update_accumulation_file.
    rewrite (body_absent _ _ _ _ _ Hready HE Hacc). cbn [snd files].
    split; [apply lookup_insert_eq|]. split; [exact I1|]. split; [exact I2|].
    split; [exact I3|]. cbn [columns rows]. intros d.
    assert (forall l, List.map (date_cell (columns new_data_df)) l = List.map (cell_at k) l)
      as Hmap by (intros l; apply map_ext; intros x; apply (date_cell_position _ k x NdN Hk)).
    rewrite !Hmap, I4. split; [auto|]. intros [H | (E' & HE' & _)]; [exact H | discriminate].
Qed.

(** X14. The invariant of the history file: after the accumulator has
    run on a ready storage with a table of dated rows (of one or more
    rows), the history file holds dated rows, one row for every date,
    in ascending order of date, and its dates are those of the old file
    and of the new table. *)
Theorem accumulator_invariant (stock_id stock_dir : pystr) (new_data_df : DataFrame)
  (st : FS) :
  storage_ready st (path_join stock_dir (stock_id ++ s_csv)) ->
  history_table new_data_df ->
  exists F,
    files (update_accumulation_file stock_id new_data_df stock_dir st)
      !! path_join stock_dir (stock_id ++ s_csv) = Some F
    /\ history_table F /\ sorted_by_date F
    /\ NoDup (List.map (date_cell (columns F)) (rows F))
    /\ forall d,
         In (Ts d) (List.map (date_cell (columns F)) (rows F))
         <-> In (Ts d) (List.map (date_cell (columns new_data_df)) (rows new_data_df))
             \/ exists E, files st !! path_join stock_dir (stock_id ++ s_csv) = Some E
                          /\ In (Ts d) (List.map (date_cell (columns E)) (rows E)).
Proof. apply accumulator_invariant_holds. Qed.

Lemma accumulator_invariant_witness :
  exists F,
    files (update_accumulation_file s_2330 new_day3 dir_2330 (storage_2330 []))
      !! path_join dir_2330 (s_2330 ++ s_csv) = Some F
    /\ history_table F /\ sorted_by_date F
    /\ NoDup (List.map (date_cell (columns F)) (rows F))
    /\ forall d,
         In (Ts d) (List.map (date_cell (columns F)) (rows F))
         <-> In (Ts d) (List.map (date_cell (columns new_day3)) (rows new_day3))
             \/ exists E, files (storage_2330 []) !! path_join dir_2330 (s_2330 ++ s_csv)
                          = Some E
                          /\ In (Ts d) (List.map (date_cell (columns E)) (rows E)).
Proof.
  apply (accumulator_invariant s_2330 dir_2330 new_day3 (storage_2330 [])).
  - exact storage_2330_ready.
  - apply history_table_sample; vm_compute; reflexivity.
Defined.

(** X15. A table without the date column: when no history file exists
    and the new table has no column labelled with the date label, the
    accumulator changes nothing (the error is logged). *)
Theorem accumulator_needs_date_column (stock_id stock_dir : pystr) (new_data_df : DataFrame)
  (st : FS) :
  ~ In s_date (columns new_data_df) ->
  path_exists (path_join stock_dir (stock_id ++ s_csv)) st = false ->
  update_accumulation_file stock_id new_data_df stock_dir st = st.
Proof.
  intros Hno Hex. unfold update_accumulation_file, update_accumulation_body.
  rewrite Hex. cbn [mbind result_bind]. unfold drop_duplicates_last.
  destruct (positions s_date (columns new_data_df)) as [|i ps] eqn:Ep; [reflexivity|].
  exfalso. apply Hno.
  assert (In i (positions s_date (columns new_data_df))) as Hi by (rewrite Ep; left; reflexivity).
  apply positions_spec in Hi. eapply list_elem_of_In, list_elem_of_lookup_2, Hi.
Qed.

Lemma accumulator_needs_date_column_witness :
  update_accumulation_file s_2317 trust_sample dir_2330 (storage_2330 []) = storage_2330 [].
Proof.
  apply (accumulator_needs_date_column s_2317 dir_2330 trust_sample (storage_2330 [])).
  - vm_compute. intuition discriminate.
  - vm_compute. reflexivity.
Defined.

(** ** The over-the-counter table of the day *)

Lemma positions_from_app {A} `{EqDecision A} (x : A) l l' k :
  positions_from k x (l ++ l') = positions_from k x l ++ positions_from (k + length l) x l'.
Proof.
  revert k. induction l as [|y l IH]; intros k; cbn [app positions_from length].
  - rewrite Nat.add_0_r. reflexivity.
  - rewrite IH, <- Nat.add_succ_comm. destruct (decide (x = y)); reflexivity.
Qed.

Lemma positions_lt {A} `{EqDecision A} (x : A) l i ps :
  positions x l = i :: ps -> (i < length l)%nat.
Proof.
  intros H. assert (In i (positions x l)) as Hi by (rewrite H; left; reflexivity).
  apply positions_spec in Hi. eapply lookup_lt_Some, Hi.
Qed.

(** [df[col] = scalar] on a table with columns *)
Lemma setitem_scalar_dated df v :
  columns df <> [] -> rectangular df ->
  rectangular (setitem_scalar df s_date v)
  /\ In s_date (columns (setitem_scalar df s_date v))
  /\ forall r, In r (rows (setitem_scalar df s_date v)) ->
       date_cell (columns (setitem_scalar df s_date v)) r = v.
Proof.
  intros Hne R. unfold setitem_scalar, setitem.
  destruct (columns df) as [|c0 cols] eqn:Ec; [contradiction|]. rewrite <- Ec. clear Hne.
  unfold rectangular in R. rewrite Forall_forall in R.
  destruct (positions s_date (columns df)) as [|i ps] eqn:Ep; rewrite zip_rows_map;
    cbn [columns rows].
  - split; [|split].
    + unfold rectangular. cbn [columns rows].
      apply Forall_forall. intros r Hr. apply list_elem_of_In, in_map_iff in Hr.
      destruct Hr as (r0 & <- & Hr0). rewrite !length_app, (R r0) by (apply list_elem_of_In, Hr0).
      reflexivity.
    + apply in_or_app. right. left. reflexivity.
    + intros r Hr. apply in_map_iff in Hr. destruct Hr as (r0 & <- & Hr0).
      unfold date_cell, positions. rewrite positions_from_app.
      fold (positions s_date (columns df)). rewrite Ep. cbn [app positions_from].
      rewrite decide_True by reflexivity. cbn [Nat.add].
      unfold cell_at. rewrite <- (R r0) by (apply list_elem_of_In, Hr0).
      rewrite lookup_app_r by lia. rewrite Nat.sub_diag. reflexivity.
  - pose proof (positions_lt _ _ _ _ Ep) as Hlt. split; [|split].
    + unfold rectangular. cbn [columns rows].
      apply Forall_forall. intros r Hr. apply list_elem_of_In, in_map_iff in Hr.
      destruct Hr as (r0 & <- & Hr0). rewrite length_insert. apply R, list_elem_of_In, Hr0.
    + assert (In i (positions s_date (columns df))) as Hi by (rewrite Ep; left; reflexivity).
      apply positions_spec in Hi. eapply list_elem_of_In, list_elem_of_lookup_2, Hi.
    + intros r Hr. apply in_map_iff in Hr. destruct Hr as (r0 & <- & Hr0).
      unfold date_cell. rewrite Ep. apply cell_at_insert_eq.
      rewrite (R r0) by (apply list_elem_of_In, Hr0). exact Hlt.
Qed.

Section TpexTable.

Variable read_csv : pystr -> result DataFrame.
Variable csv_reader : pystr -> result (list (list pystr)).
Variable to_numeric : pystr -> option Z.
Variable session_get : pystr -> list (pystr * pystr) -> result (list N).
Variable bytes_decode : pystr -> list N -> option pystr.

Lemma parse_tpex_csv_rectangular text out :
  parse_tpex_csv read_csv text = Ok out -> rectangular out.
Proof.
  assert (rectangular empty_df) as Hemp by constructor.
  unfold parse_tpex_csv, parse_tpex_body.
  destruct (length (text_lines text) <? 2)%nat; [intros [= <-]; exact Hemp|].
  destruct (find_header s_tpex_id s_tpex_name 0 (text_lines text)) as [h|];
    [|intros [= <-]; exact Hemp].
  destruct (read_csv _) as [df0|e]; cbn [mbind result_bind]; [|intros [= <-]; exact Hemp].
  set (df := dropna_all _).
  destruct (drop_totals df s_tpex_id) as [df1|e]; cbn [mbind result_bind];
    [|intros [= <-]; exact Hemp].
  destruct (dropna_subset df1 s_tpex_id) as [df2|e]; cbn [mbind result_bind];
    [|intros [= <-]; exact Hemp].
  destruct (strip_column _ s_id) as [df3|e]; cbn [mbind result_bind];
    [|intros [= <-]; exact Hemp].
  destruct (choose_columns df3 columns_to_keep) as [fin rmap].
  destruct (select_columns df3 fin) as [df4|e] eqn:H4; cbn [mbind result_bind];
    intros [= <-]; [|exact Hemp].
  destruct (rows_select_columns _ _ _ H4) as (idx & _ & Hc4 & Hr4).
  unfold rectangular. cbn [rename_columns columns rows]. rewrite Hc4, Hr4.
  apply Forall_forall. intros r Hr. apply list_elem_of_In, in_map_iff in Hr.
  destruct Hr as (r0 & <- & _). rewrite !length_map. reflexivity.
Qed.

(** the loop of [process_day] over the share-count columns *)
Lemma numeric_fill_columns_numbers cols df out (done : nat -> Prop) k v :
  numeric_fill_columns to_numeric cols df = Ok out ->
  rectangular df ->
  (forall i r, done i -> In r (rows df) -> number_cell (cell_at i r)) ->
  (forall c, columns df !! k = Some c -> contains s_shares c = false) ->
  (forall r, In r (rows df) -> cell_at k r = v) ->
  columns out = columns df
  /\ (forall r, In r (rows out) -> cell_at k r = v)
  /\ forall i r, In r (rows out) ->
       done i \/ (exists c, columns df !! i = Some c /\ contains s_shares c = true /\ In c cols) ->
       number_cell (cell_at i r).
Proof.
  revert df done. induction cols as [|col cols IH]; intros df done;
    cbn [numeric_fill_columns].
  - intros [= <-] _ Hdone _ Hv. split; [reflexivity|]. split; [exact Hv|].
    intros i r Hr [Hi | (c & _ & _ & [])]. apply Hdone; assumption.
  - destruct (contains s_shares col) eqn:Hcol.
    + unfold getitem. destruct (unique_index col (columns df)) as [j|e] eqn:Ej;
        cbn [mbind result_bind]; [|discriminate].
      apply unique_index_Ok in Ej. rewrite (setitem_existing _ _ _ _ Ej).
      rewrite List.map_map, zip_rows_map. intros Hrec R Hdone Hk Hv.
      pose proof (positions_lt _ _ _ _ Ej) as Hlt.
      unfold rectangular in R. rewrite Forall_forall in R.
      apply (IH _ (fun i => done i \/ i = j)) in Hrec.
      * cbn [columns] in Hrec. destruct Hrec as (Hc & Hv' & Hrows). split; [exact Hc|].
        split; [exact Hv'|].
        intros i r Hr [Hi | (c & Hic & Hsh & [<- | Hin])]; apply Hrows; auto.
        -- left. right. apply positions_singleton in Ej. destruct Ej as [_ Hu]. apply Hu, Hic.
        -- right. exists c. auto.
      * unfold rectangular. cbn [columns rows]. apply Forall_forall. intros r Hr.
        apply list_elem_of_In, in_map_iff in Hr. destruct Hr as (r0 & <- & Hr0).
        rewrite length_insert. apply R, list_elem_of_In, Hr0.
      * cbn [rows]. intros i r Hi Hr. apply in_map_iff in Hr. destruct Hr as (r0 & <- & Hr0).
        destruct (decide (i = j)) as [->|Hne].
        -- rewrite cell_at_insert_eq by (rewrite (R r0) by (apply list_elem_of_In, Hr0); exact Hlt).
           unfold coerce_numeric. destruct (to_numeric _); eexists; reflexivity.
        -- rewrite cell_at_insert_ne by congruence.
           destruct Hi as [Hi | Hi]; [apply Hdone; assumption | contradiction].
      * exact Hk.
      * cbn [rows]. intros r Hr. apply in_map_iff in Hr. destruct Hr as (r0 & <- & Hr0).
        rewrite cell_at_insert_ne; [apply Hv, Hr0|].
        intros ->. apply positions_singleton in Ej. destruct Ej as [Ej _].
        rewrite (Hk col Ej) in Hcol. discriminate.
    + intros Hrec R Hdone Hk Hv. destruct (IH _ _ Hrec R Hdone Hk Hv) as (Hc & Hv' & Hrows).
      split; [exact Hc|]. split; [exact Hv'|].
      intros i r Hr [Hi | (c & Hic & Hsh & [<- | Hin])]; [apply Hrows; auto | |].
      * rewrite Hcol in Hsh. discriminate.
      * apply Hrows; [exact Hr|]. right. exists c. auto.
Qed.

(** X16. The over-the-counter table of a day: in the second table
    [process_day] works with, every cell under a share-count column is a
    number (zero where the document had no number), and, when the table
    is not empty, every row carries the target date under the date
    label. *)
Theorem market_tables_tpex (target_date : date) (twse_market_df tpex_market_df : DataFrame) :
  market_tables read_csv csv_reader to_numeric session_get bytes_decode target_date
  = Ok (twse_market_df, tpex_market_df) ->
  shares_column number_cell tpex_market_df
  /\ (df_empty tpex_market_df = false ->
      forall r, In r (rows tpex_market_df) ->
        date_cell (columns tpex_market_df) r = Ts target_date).
Proof.
  unfold market_tables.
  destruct (fetch_twse _ _ _ _ _ _ _) as [twse_dfs|e]; cbn [mbind result_bind]; [|discriminate].
  match goal with |- context [match twse_dfs with [] => ?a | _ :: _ => ?b end] =>
    destruct (match twse_dfs with [] => a | _ :: _ => b end) as [tw|e] end;
    cbn [mbind result_bind]; [|discriminate].
  destruct (fetch_text session_get bytes_decode TPEX_SOURCE_URL _) as [content_str|].
  2:{ intros [= _ <-]. split; [apply shares_column_empty | discriminate]. }
  destruct (parse_tpex_csv read_csv content_str) as [m|e] eqn:Hm;
    cbn [mbind result_bind]; [|discriminate].
  pose proof (parse_tpex_csv_rectangular _ _ Hm) as R.
  destruct (df_empty m) eqn:Hemp.
  { intros [= _ <-]. split; [|rewrite Hemp; discriminate].
    intros i c r Hic _ Hr. unfold df_empty in Hemp.
    destruct (columns m); [discriminate Hic|]. destruct (rows m); [destruct Hr | discriminate]. }
  assert (columns m <> []) as Hne.
  { unfold df_empty in Hemp. destruct (columns m); [discriminate | discriminate]. }
  destruct (setitem_scalar_dated m (Ts target_date) Hne R) as (R' & Hin & Hd).
  set (m' := setitem_scalar m s_date (Ts target_date)) in *.
  destruct (positions s_date (columns m')) as [|k ps] eqn:Ep.
  { exfalso. assert (positions s_date (columns m') <> []) as Hp.
    { apply list_elem_of_In, list_elem_of_lookup_1 in Hin. destruct Hin as [j Hj].
      apply positions_spec in Hj. intros E. rewrite E in Hj. destruct Hj. }
    contradiction. }
  destruct (numeric_fill_columns to_numeric (columns m') m') as [out|e] eqn:Hout;
    cbn [mbind result_bind]; [|discriminate].
  intros [= _ <-].
  destruct (numeric_fill_columns_numbers _ _ _ (fun _ => False) k (Ts target_date) Hout R')
    as (Hc & Hv & Hrows).
  - intros i r [].
  - intros c Hkc.
    assert (In k (positions s_date (columns m'))) as Hk by (rewrite Ep; left; reflexivity).
    apply positions_spec in Hk. unfold pystr in *. rewrite Hk in Hkc. injection Hkc as <-.
    reflexivity.
  - intros r Hr. specialize (Hd r Hr). unfold date_cell in Hd. rewrite Ep in Hd. exact Hd.
  - split.
    + intros i c r Hic Hsh Hr. apply Hrows; [exact Hr|]. right. exists c.
      rewrite Hc in Hic. split; [exact Hic|]. split; [exact Hsh|].
      eapply list_elem_of_In, list_elem_of_lookup_2, Hic.
    + intros _ r Hr. unfold date_cell. rewrite Hc, Ep. apply Hv, Hr.
Qed.

End TpexTable.

Lemma market_tables_tpex_witness :
  shares_column number_cell market_tpex
  /\ (df_empty market_tpex = false ->
      forall r, In r (rows market_tpex) -> date_cell (columns market_tpex) r = Ts day2).
Proof.
  apply (market_tables_tpex read_csv_simple csv_excel to_numeric_int session_tpex
           decode_sample day2 empty_df market_tpex).
  vm_compute. reflexivity.
Defined.

(** ** The exchange table of the day *)

Lemma in_zip_rows f (rs : list (list cell)) (s : Series) x :
  In x (zip_rows f rs s) -> exists r v, In r rs /\ x = f r v.
Proof.
  revert s. induction rs as [|r rs IH]; intros [|v s]; cbn [zip_rows In]; try tauto.
  intros [<- | H]; [exists r, v; split; [left|]; reflexivity|].
  destruct (IH s H) as (r' & v' & Hr & Hx). exists r', v'. split; [right; exact Hr | exact Hx].
Qed.

Lemma boolean_index_rows_In (rs : list (list cell)) mask x :
  In x (boolean_index_rows rs mask) -> In x rs.
Proof.
  revert mask. induction rs as [|r rs IH]; intros [|b mask]; cbn [boolean_index_rows In];
    try tauto.
  destruct b; [intros [<- | H]; [left; reflexivity | right; eapply IH, H]|].
  intros H. right. eapply IH, H.
Qed.

Lemma setitem_rectangular df col s : rectangular df -> rectangular (setitem df col s).
Proof.
  intros R. unfold rectangular in R. rewrite Forall_forall in R. unfold setitem.
  destruct (columns df) as [|c0 cols] eqn:Ec.
  - unfold rectangular. cbn [columns rows]. apply Forall_forall. intros x Hx.
    apply list_elem_of_In, in_map_iff in Hx. destruct Hx as (v & <- & _). reflexivity.
  - rewrite <- Ec in R |- *.
    destruct (positions col (columns df)) as [|i ps]; unfold rectangular; cbn [columns rows];
      apply Forall_forall; intros x Hx; apply list_elem_of_In, in_zip_rows in Hx;
      destruct Hx as (r & v & Hr & ->).
    + rewrite !length_app, (R r) by (apply list_elem_of_In, Hr). reflexivity.
    + rewrite length_insert. apply R, list_elem_of_In, Hr.
Qed.

Lemma filter_rectangular cols (p : list cell -> bool) rs :
  rectangular (mkDF cols rs) -> rectangular (mkDF cols (List.filter p rs)).
Proof.
  unfold rectangular. cbn [columns rows]. rewrite !Forall_forall. intros R x Hx.
  apply R. apply list_elem_of_In. apply list_elem_of_In, List.filter_In in Hx. tauto.
Qed.

Lemma merge_dataframes_rectangular dfs out :
  Forall rectangular dfs -> merge_dataframes dfs = Ok out -> rectangular out.
Proof.
  intros Hrect. unfold merge_dataframes. destruct dfs as [|d0 ds].
  { intros [= <-]. constructor. }
  set (valid := List.filter _ (d0 :: ds)).
  assert (Forall rectangular valid) as Hv.
  { apply Forall_forall. intros x Hx. apply list_elem_of_In, List.filter_In in Hx.
    rewrite Forall_forall in Hrect. apply Hrect, list_elem_of_In. tauto. }
  destruct valid as [|first rest]; [intros [= <-]; constructor|].
  destruct (merge_all first rest) as [m|e] eqn:E; cbn [mbind result_bind]; [|discriminate].
  intros [= <-]. rewrite fillna_shares_rows.
  apply Forall_cons in Hv. destruct Hv as [Hf _].
  pose proof (merge_all_rectangular _ _ _ Hf E) as Rm.
  unfold rectangular in *. cbn [columns rows]. rewrite Forall_forall in Rm.
  apply Forall_forall. intros r Hr. apply list_elem_of_In, in_map_iff in Hr.
  destruct Hr as (r0 & <- & Hr0). rewrite length_fillna_shares_row.
  apply Rm, list_elem_of_In, Hr0.
Qed.

Section TwseTable.

Variable read_csv : pystr -> result DataFrame.
Variable csv_reader : pystr -> result (list (list pystr)).
Variable to_numeric : pystr -> option Z.
Variable session_get : pystr -> list (pystr * pystr) -> result (list N).
Variable bytes_decode : pystr -> list N -> option pystr.

(** the table reader gives every row a cell for every column *)
Hypothesis read_csv_rectangular : forall text df, read_csv text = Ok df -> rectangular df.

Lemma assign_from_multi_rectangular mf fields df out :
  rectangular df -> assign_from_multi mf fields df = Ok out -> rectangular out.
Proof.
  revert df. induction fields as [|[o key] fields IH]; intros df R; cbn [assign_from_multi].
  - intros [= <-]. exact R.
  - destruct (getitem_multi mf key) as [s|e]; cbn [mbind result_bind]; [|discriminate].
    apply IH, setitem_rectangular, R.
Qed.

Lemma numeric_columns_rectangular cols df out :
  rectangular df -> numeric_columns to_numeric cols df = Ok out -> rectangular out.
Proof.
  revert df. induction cols as [|col cols IH]; intros df R; cbn [numeric_columns].
  - intros [= <-]. exact R.
  - destruct (contains s_shares col); [|apply IH, R].
    destruct (getitem df col) as [s|e]; cbn [mbind result_bind]; [|discriminate].
    apply IH, setitem_rectangular, R.
Qed.

Lemma parse_twse_csv_rectangular text name out :
  parse_twse_csv read_csv csv_reader to_numeric text name = Ok out -> rectangular out.
Proof.
  assert (rectangular empty_df) as Hemp by constructor.
  unfold parse_twse_csv.
  destruct (parse_twse_body read_csv csv_reader to_numeric text name) as [df|e] eqn:E;
    intros [= <-]; [|exact Hemp].
  unfold parse_twse_body in E.
  destruct (length (nonblank_lines text) <? 2)%nat; [injection E as <-; exact Hemp|].
  destruct (find_header s_id s_name 0 (nonblank_lines text)) as [h|];
    [|injection E as <-; exact Hemp].
  set (branch := if decide (name = s_trust) then _ else _) in E.
  assert (forall df0, branch = Ok df0 -> rectangular df0) as Hb.
  { subst branch. intros df0. destruct (decide (name = s_trust)) as [Ht|Ht].
    - unfold parse_flat. destruct (read_csv _) as [d|e] eqn:Er; cbn [mbind result_bind];
        [|discriminate].
      intros [= <-]. pose proof (read_csv_rectangular _ _ Er) as R.
      unfold rectangular in *. cbn [rename_columns set_columns columns rows].
      rewrite !length_map. exact R.
    - destruct (decide (name = s_foreign \/ name = s_dealer)) as [Hfd|Hfd];
        [|intros [= <-]; exact Hemp].
      unfold parse_two_level.
      destruct (line_at _ h) as [l1|e]; cbn [mbind result_bind]; [|discriminate].
      destruct (first_record csv_reader l1) as [h1|e]; cbn [mbind result_bind]; [|discriminate].
      destruct (line_at _ (h + 1)) as [l2|e]; cbn [mbind result_bind]; [|discriminate].
      destruct (first_record csv_reader l2) as [h2|e]; cbn [mbind result_bind]; [|discriminate].
      destruct (traverse _ _) as [data|e]; cbn [mbind result_bind]; [|discriminate].
      destruct (build_columns [] h1 h2) as [cols|e]; cbn [mbind result_bind]; [|discriminate].
      destruct (make_multi data cols) as [mf|e]; cbn [mbind result_bind]; [|discriminate].
      destruct (assign_from_multi mf key_fields empty_df) as [d|e] eqn:Ek;
        cbn [mbind result_bind]; [|discriminate].
      pose proof (assign_from_multi_rectangular _ _ _ _ Hemp Ek) as Rd.
      destruct (decide (name = s_foreign)) as [Hf|Hf];
        [apply assign_from_multi_rectangular, Rd|].
      destruct (decide (name = s_dealer)) as [Hd|Hd];
        [apply assign_from_multi_rectangular, Rd|].
      intros [= <-]. exact Rd. }
  destruct branch as [df0|e]; cbn [mbind result_bind] in E; [|discriminate].
  specialize (Hb df0 eq_refl).
  unfold drop_totals in E.
  destruct (getitem df0 s_id) as [s0|e]; cbn [mbind result_bind] in E; [|discriminate].
  unfold dropna_subset in E. cbn [columns boolean_index] in E.
  destruct (positions s_id (columns df0)) as [|p ps]; cbn [mbind result_bind] in E;
    [discriminate|].
  unfold strip_column in E.
  destruct (getitem _ s_id) as [s1|e]; cbn [mbind result_bind] in E; [|discriminate].
  eapply numeric_columns_rectangular; [|exact E].
  apply setitem_rectangular, filter_rectangular.
  unfold rectangular in *. cbn [columns rows]. rewrite Forall_forall in Hb.
  apply Forall_forall. intros x Hx. apply Hb.
  apply list_elem_of_In. apply list_elem_of_In in Hx. eapply boolean_index_rows_In, Hx.
Qed.

Lemma fetch_twse_rectangular params sources dfs :
  fetch_twse read_csv csv_reader to_numeric session_get bytes_decode params sources = Ok dfs ->
  Forall rectangular dfs.
Proof.
  revert dfs. induction sources as [|[name url] rest IH]; intros dfs; cbn [fetch_twse].
  - intros [= <-]. constructor.
  - destruct (fetch_text session_get bytes_decode url params) as [content_str|]; [|apply IH].
    destruct (parse_twse_csv read_csv csv_reader to_numeric content_str name) as [df|e] eqn:Ep;
      cbn [mbind result_bind]; [|discriminate].
    destruct (fetch_twse _ _ _ _ _ params rest) as [twse_dfs|e]; cbn [mbind result_bind];
      [|discriminate].
    intros [= <-]. specialize (IH twse_dfs eq_refl).
    destruct (df_empty df); [exact IH|]. constructor; [|exact IH].
    eapply parse_twse_csv_rectangular, Ep.
Qed.

(** X17. The exchange table of a day: when the table reader gives
    rectangular tables, the first table [process_day] works with is
    rectangular and, when it is not empty, every row of it carries the
    target date under the date label. *)
Theorem market_tables_twse_dated (target_date : date)
  (twse_market_df tpex_market_df : DataFrame) :
  market_tables read_csv csv_reader to_numeric session_get bytes_decode target_date
  = Ok (twse_market_df, tpex_market_df) ->
  rectangular twse_market_df
  /\ (df_empty twse_market_df = false ->
      forall r, In r (rows twse_market_df) ->
        date_cell (columns twse_market_df) r = Ts target_date).
Proof.
  unfold market_tables.
  destruct (fetch_twse _ _ _ _ _ _ _) as [twse_dfs|e] eqn:Ef; cbn [mbind result_bind];
    [|discriminate].
  pose proof (fetch_twse_rectangular _ _ _ Ef) as Rdfs.
  assert (forall tw,
            match twse_dfs with
            | [] => Ok empty_df
            | _ :: _ =>
                m ← merge_dataframes twse_dfs;
                Ok (if df_empty m then m else setitem_scalar m s_date (Ts target_date))
            end = Ok tw ->
            rectangular tw
            /\ (df_empty tw = false ->
                forall r, In r (rows tw) -> date_cell (columns tw) r = Ts target_date)) as Htw.
  { intros tw. destruct twse_dfs as [|d ds].
    - intros [= <-]. split; [constructor | discriminate].
    - destruct (merge_dataframes (d :: ds)) as [m|e] eqn:Em; cbn [mbind result_bind];
        [|discriminate].
      pose proof (merge_dataframes_rectangular _ _ Rdfs Em) as Rm.
      destruct (df_empty m) eqn:Hemp; intros [= <-].
      + split; [exact Rm | rewrite Hemp; discriminate].
      + assert (columns m <> []) as Hne.
        { unfold df_empty in Hemp. destruct (columns m); discriminate. }
        destruct (setitem_scalar_dated m (Ts target_date) Hne Rm) as (R' & _ & Hd).
        split; [exact R' | intros _; exact Hd]. }
  match goal with |- context [match twse_dfs with [] => ?a | _ :: _ => ?b end] =>
    destruct (match twse_dfs with [] => a | _ :: _ => b end) as [tw|e] end;
    cbn [mbind result_bind]; [|discriminate].
  specialize (Htw tw eq_refl).
  destruct (fetch_text session_get bytes_decode TPEX_SOURCE_URL _) as [content_str|];
    cbn [mbind result_bind]; [|intros [= <- _]; exact Htw].
  destruct (parse_tpex_csv read_csv content_str) as [m|e]; cbn [mbind result_bind];
    [|discriminate].
  destruct (df_empty m); cbn [mbind result_bind]; [intros [= <- _]; exact Htw|].
  destruct (numeric_fill_columns _ _ _) as [tp|e]; cbn [mbind result_bind]; [|discriminate].
  intros [= <- _]. exact Htw.
Qed.

End TwseTable.

Lemma read_csv_simple_rectangular text df : read_csv_simple text = Ok df -> rectangular df.
Proof.
  unfold read_csv_simple. destruct (csv_excel text) as [recs|e]; cbn [mbind result_bind];
    [|discriminate].
  destruct (List.filter _ recs) as [|header body]; [discriminate|].
  destruct (forallb _ body); [|discriminate].
  intros [= <-]. unfold rectangular. cbn [columns rows]. apply Forall_forall.
  intros r Hr. apply list_elem_of_In, in_map_iff in Hr. destruct Hr as (r0 & <- & _).
  rewrite length_map, length_seq. reflexivity.
Qed.

Example market_tables_sample :
  market_tables read_csv_simple csv_excel to_numeric_int session_sample decode_sample day2
  = Ok (market_sample, empty_df).
Proof. vm_compute. reflexivity. Qed.

Lemma market_tables_twse_dated_witness :
  rectangular market_sample
  /\ (df_empty market_sample = false ->
      forall r, In r (rows market_sample) -> date_cell (columns market_sample) r = Ts day2).
Proof.
  apply (market_tables_twse_dated read_csv_simple csv_excel to_numeric_int session_sample
           decode_sample read_csv_simple_rectangular day2 market_sample empty_df).
  vm_compute. reflexivity.
Defined.

(** ** The header line *)

Lemma find_header_spec tok1 tok2 lines i :
  match find_header tok1 tok2 i lines with
  | Some h =>
      exists j line,
        h = (i + j)%nat /\ lines !! j = Some line
        /\ contains tok1 line = true /\ contains tok2 line = true
        /\ forall j' l, (j' < j)%nat -> lines !! j' = Some l ->
             contains tok1 l && contains tok2 l = false
  | None => forall l, In l lines -> contains tok1 l && contains tok2 l = false
  end.
Proof.
  revert i. induction lines as [|line rest IH]; intros i; cbn [find_header].
  - intros l [].
  - destruct (contains tok1 line && contains tok2 line) eqn:E.
    + exists 0%nat, line. apply andb_true_iff in E. destruct E as [E1 E2].
      split; [lia|]. split; [reflexivity|]. split; [exact E1|]. split; [exact E2|].
      intros j' l Hlt. lia.
    + specialize (IH (S i)). destruct (find_header tok1 tok2 (S i) rest) as [h|].
      * destruct IH as (j & l0 & -> & Hj & H1 & H2 & Hmin). exists (S j), l0.
        split; [lia|]. split; [exact Hj|]. split; [exact H1|]. split; [exact H2|].
        intros [|j'] l Hlt Hl; [injection Hl as <-; exact E|].
        apply (Hmin j' l); [lia | exact Hl].
      * intros l [<- | Hl]; [exact E | apply IH, Hl].
Qed.

(** X18. The header line: the index the parsers take as header row is
    that of the first line that contains both marker tokens; no header
    row is found exactly when no line contains both. *)
Theorem find_header_first (tok1 tok2 : pystr) (lines : list pystr) :
  match find_header tok1 tok2 0 lines with
  | Some h =>
      exists line,
        lines !! h = Some line
        /\ contains tok1 line = true /\ contains tok2 line = true
        /\ forall j l, (j < h)%nat -> lines !! j = Some l ->
             contains tok1 l && contains tok2 l = false
  | None => forall l, In l lines -> contains tok1 l && contains tok2 l = false
  end.
Proof.
  pose proof (find_header_spec tok1 tok2 lines 0) as H.
  destruct (find_header tok1 tok2 0 lines) as [h|]; [|exact H].
  destruct H as (j & line & -> & H). exists line. exact H.
Qed.

(** ** A day reaches the history file *)

Lemma df_empty_false df : df_empty df = false -> columns df <> [] /\ rows df <> [].
Proof. unfold df_empty. destruct (columns df), (rows df); intros H; try discriminate; auto. Qed.

Lemma stock_rows_history market_df stock_id ids :
  history_table market_df -> history_table (stock_rows market_df stock_id ids).
Proof.
  intros (Nd & R & Hin & D). unfold stock_rows, boolean_index.
  split; [exact Nd|]. split; [|split; [exact Hin|]].
  - unfold rectangular in *. cbn [columns rows]. rewrite Forall_forall in R.
    apply Forall_forall. intros x Hx. apply R. apply list_elem_of_In.
    apply list_elem_of_In in Hx. eapply boolean_index_rows_In, Hx.
  - cbn [columns rows]. intros r Hr. apply D. eapply boolean_index_rows_In, Hr.
Qed.

Section RecordsDay.

Variable ROOT_DIR : pystr.
Variable target_date : date.
Variables twse_market_df tpex_market_df : DataFrame.

(** X19. A day reaches the history file: on a storage without faults,
    the directory of the script and the identifier of the security being
    names that [pathlib] joins as they are, for a security whose market
    table holds dated rows with rows for it, whose snapshot of the day
    does not exist yet, with no regular file at its directory or at an
    ancestor of it, and whose history file, if any, holds dated rows,
    one turn of the loop of [process_day] writes the rows of the
    security to the daily snapshot and leaves a history file in
    ascending order of date, with one row for every date, that has a row
    for every date of those rows. *)
Theorem persist_stock_records_day (stock_id market_type : pystr) (ids : Series) (st : FS) :
  faults st = [] ->
  plain_dir ROOT_DIR ->
  plain_name stock_id ->
  stock_id <> strftime_dash target_date ->
  history_table (market_of market_type twse_market_df tpex_market_df) ->
  getitem (market_of market_type twse_market_df tpex_market_df) s_id = Ok ids ->
  df_empty (stock_rows (market_of market_type twse_market_df tpex_market_df) stock_id ids)
  = false ->
  path_exists (daily_file_of ROOT_DIR target_date stock_id market_type) st = false ->
  file_on_path (stock_dir_of ROOT_DIR stock_id market_type) st = false ->
  history_file_of ROOT_DIR stock_id market_type ∉ dirs st ->
  (forall E, files st !! history_file_of ROOT_DIR stock_id market_type = Some E ->
     history_table E) ->
  exists st' F,
    persist_stock ROOT_DIR target_date twse_market_df tpex_market_df stock_id market_type st
    = Ok st'
    /\ files st' !! daily_file_of ROOT_DIR target_date stock_id market_type
       = Some (stock_rows (market_of market_type twse_market_df tpex_market_df) stock_id ids)
    /\ files st' !! history_file_of ROOT_DIR stock_id market_type = Some F
    /\ sorted_by_date F
    /\ NoDup (List.map (date_cell (columns F)) (rows F))
    /\ forall d,
         In (Ts d)
           (List.map
              (date_cell (columns (market_of market_type twse_market_df tpex_market_df)))
              (rows (stock_rows (market_of market_type twse_market_df tpex_market_df)
                       stock_id ids))) ->
         In (Ts d) (List.map (date_cell (columns F)) (rows F)).
Proof.
  intros Hfl _ Hplain Hname Hmarket Hids Hstock Hex Hdir Haccd Hhist.
  pose proof (plain_name_no_slash _ Hplain) as Hslash.
  assert (Forall (fun c => c <> SLASH) (stock_id ++ s_csv)) as Hslash'.
  { apply Forall_app. split; [exact Hslash|].
    repeat (apply List.Forall_cons; [discriminate|]); apply List.Forall_nil. }
  unfold persist_stock. fold (market_of market_type twse_market_df tpex_market_df).
  fold (stock_dir_of ROOT_DIR stock_id market_type).
  set (market_df := market_of market_type twse_market_df tpex_market_df) in *.
  set (stock_dir := stock_dir_of ROOT_DIR stock_id market_type) in *.
  change (path_join stock_dir (strftime_dash target_date ++ s_csv))
    with (daily_file_of ROOT_DIR target_date stock_id market_type).
  set (daily := daily_file_of ROOT_DIR target_date stock_id market_type) in *.
  change (history_file_of ROOT_DIR stock_id market_type)
    with (path_join stock_dir (stock_id ++ s_csv)) in *.
  set (acc := path_join stock_dir (stock_id ++ s_csv)) in *.
  assert (daily <> acc) as Hne.
  { unfold daily, daily_file_of, acc, stock_dir, stock_dir_of.
    apply daily_not_history; [|congruence].
    unfold strftime_dash. rewrite !Forall_app.
    repeat split; try apply zfill_no_slash;
      repeat (apply List.Forall_cons; [discriminate|]); apply List.Forall_nil. }
  assert (df_empty market_df = false) as Hm.
  { destruct (df_empty_false _ Hstock) as [Hc Hr]. unfold stock_rows, boolean_index in Hc, Hr.
    cbn [columns rows] in Hc, Hr. unfold df_empty.
    destruct (columns market_df); [contradiction|].
    destruct (rows market_df); [contradiction | reflexivity]. }
  rewrite Hm, Hids. cbn [mbind result_bind].
  fold (stock_rows market_df stock_id ids). set (stock_df := stock_rows market_df stock_id ids) in *.
  rewrite Hstock, Hex.
  (* the directory *)
  pose proof (mkdir_effect stock_dir st) as (Mf & Md & _ & Mfl & Mok & Mfail).
  pose proof (mkdir_dirs stock_dir st) as Mdirs.
  destruct (mkdir stock_dir st) as [[[]|e] st1] eqn:Em; cbn [fst snd] in *.
  2:{ destruct (Mfail Hfl) as [_ Hx]; [discriminate|]. congruence. }
  assert (forall q, (length stock_dir < length q)%nat -> q ∉ dirs st -> q ∉ dirs st1) as Hnew.
  { intros q Hlen Hq Hin. apply Mdirs in Hin. destruct Hin as [Hin | Hin]; [contradiction | lia]. }
  assert (daily ∉ dirs st1) as Hd1.
  { apply Hnew.
    - unfold daily, daily_file_of. fold (stock_dir_of ROOT_DIR stock_id market_type).
      fold stock_dir. rewrite (path_join_relative _ _ (daily_name_no_slash target_date)).
      rewrite !length_app. cbn [length]. lia.
    - unfold path_exists in Hex. apply orb_false_iff in Hex. destruct Hex as [_ Hex].
      apply bool_decide_eq_false_1 in Hex. exact Hex. }
  assert (acc ∉ dirs st1) as Ha1.
  { apply Hnew; [|exact Haccd]. unfold acc. rewrite (path_join_relative _ _ Hslash').
    rewrite !length_app. cbn [length]. lia. }
  (* the snapshot *)
  pose proof (to_csv_effect stock_df daily st1) as (Tf & _ & Td & _ & Tfl & Tok & Tsucc).
  assert ((to_csv stock_df daily st1).1 = Ok tt) as Hok.
  { apply Tsucc; [auto| |exact Hd1].
    unfold daily, daily_file_of. rewrite parent_path_join by apply daily_name_no_slash.
    apply Mok. reflexivity. }
  destruct (to_csv stock_df daily st1) as [[[]|e] st2] eqn:Et; cbn [fst snd] in *;
    [|discriminate].
  (* the history *)
  assert (storage_ready st2 acc) as Hready.
  { split; [auto|]. rewrite Td. split; [|split; [exact Ha1|]].
    - unfold acc. rewrite parent_path_join; [apply Mok; reflexivity | exact Hslash'].
    - intros E HE. apply Hhist. rewrite <- Mf, <- (Tf acc) by congruence. exact HE. }
  destruct (accumulator_invariant_holds stock_id stock_dir stock_df st2 Hready
              (stock_rows_history _ _ _ Hmarket)) as (F & HF & _ & Hs & Hnd & Hdates).
  pose proof (accumulation_effect stock_id stock_df stock_dir st2) as (Af & _).
  eexists _, F. split; [reflexivity|]. split; [|split; [exact HF|]].
  - rewrite (Af daily Hne). apply Tok. reflexivity.
  - split; [exact Hs|]. split; [exact Hnd|]. intros d Hd. apply Hdates. left. exact Hd.
Qed.

End RecordsDay.

Lemma persist_stock_records_day_witness :
  exists st' F,
    persist_stock root_here day2 market_sample empty_df s_2330 s_listed storage_notes = Ok st'
    /\ files st' !! daily_file_of root_here day2 s_2330 s_listed
       = Some (stock_rows (market_of s_listed market_sample empty_df) s_2330
                 [ Str s_2330; Str s_2317; Str (utf8 "2454") ])
    /\ files st' !! history_file_of root_here s_2330 s_listed = Some F
    /\ sorted_by_date F
    /\ NoDup (List.map (date_cell (columns F)) (rows F))
    /\ forall d,
         In (Ts d)
           (List.map (date_cell (columns (market_of s_listed market_sample empty_df)))
              (rows (stock_rows (market_of s_listed market_sample empty_df) s_2330
                       [ Str s_2330; Str s_2317; Str (utf8 "2454") ]))) ->
         In (Ts d) (List.map (date_cell (columns F)) (rows F)).
Proof.
  apply (persist_stock_records_day root_here day2 market_sample empty_df s_2330 s_listed
           [ Str s_2330; Str s_2317; Str (utf8 "2454") ] storage_notes).
  - reflexivity.
  - exact plain_dir_root_here.
  - exact plain_name_2330.
  - vm_compute. discriminate.
  - apply history_table_sample; vm_compute; reflexivity.
  - vm_compute. reflexivity.
  - vm_compute. reflexivity.
  - vm_compute. reflexivity.
  - vm_compute. reflexivity.
  - apply (bool_decide_eq_false_1 (_ ∈ _)). vm_compute. reflexivity.
  - intros E HE. vm_compute in HE. discriminate.
Defined.
(** ** The accumulator replaces the row of a date *)

(** C2. Accumulator correction (last write wins).  When the history file
    already holds a row of the date of the new row, after the update the
    file has the columns of the old file followed by the new ones of the
    new row, and the one row of that date is the new row and nothing of
    the old one: it carries the cell of the new row under every column
    of the new row and a missing value under every other column, so that
    the old row is in the file only if it is equal to the new one; and
    the file has a row for exactly the dates it had: the row is
    replaced, no row is added. *)
Theorem accumulator_last_write_wins (stock_id stock_dir : pystr) (new_data_df : DataFrame)
  (d : date) (r : list cell) (st : FS) (E : DataFrame) (old : list cell) :
  single_date_row new_data_df d r ->
  storage_ready st (path_join stock_dir (stock_id ++ s_csv)) ->
  files st !! path_join stock_dir (stock_id ++ s_csv) = Some E ->
  In old (rows E) -> date_cell (columns E) old = Ts d ->
  exists F final_row,
    files (update_accumulation_file stock_id new_data_df stock_dir st)
      !! path_join stock_dir (stock_id ++ s_csv) = Some F
    /\ columns F = concat_columns (columns E) (columns new_data_df)
    /\ rows_for_date F d = [final_row]
    /\ length final_row = length (columns F)
    /\ (forall j c, columns new_data_df !! j = Some c ->
          exists k, columns F !! k = Some c /\ cell_at k final_row = cell_at j r)
    /\ (forall k c, columns F !! k = Some c -> ~ In c (columns new_data_df) ->
          cell_at k final_row = NaN)
    /\ (In (reindex_row (columns E) (columns F) old) (rows F) ->
          reindex_row (columns E) (columns F) old = final_row)
    /\ (forall d', In (Ts d') (List.map (date_cell (columns F)) (rows F))
                   <-> In (Ts d') (List.map (date_cell (columns E)) (rows E))).
Proof.
  set (acc := path_join stock_dir (stock_id ++ s_csv)).
  intros Hnew Hready HE Hold Hdold. pose proof Hready as (Hf & Hpar & Hnd & Hhist).
  destruct (accumulate_props E new_data_df d r (Hhist E HE) Hnew)
    as (F & Hacc & Hcols & HF & Hs & Hk & Hrow).
  pose proof Hnew as (HN & Hrows & Hd). pose proof HN as (NdN & _).
  pose proof HF as (NdF & _ & InF & _).
  assert (files (update_accumulation_file stock_id new_data_df stock_dir st) !! acc = Some F)
    as Hfile.
  { unfold update_accumulation_file. rewrite (body_existing _ _ _ _ E F Hready HE Hacc).
    cbn [snd files]. apply lookup_insert_eq. }
  exists F, (reindex_row (columns new_data_df) (columns F) r).
  split; [exact Hfile|]. split; [exact Hcols|]. split; [exact Hrow|].
  split; [unfold reindex_row; apply length_map|].
  split; [|split; [|split]].
  - intros j c Hj.
    assert (In c (columns F)) as Hin.
    { rewrite Hcols. apply in_concat_columns_r.
      eapply list_elem_of_In, list_elem_of_lookup_2, Hj. }
    apply list_elem_of_In, list_elem_of_lookup_1 in Hin. destruct Hin as [k Hk'].
    exists k. split; [exact Hk'|].
    rewrite (cell_at_reindex _ _ _ _ _ Hk'), (positions_nodup c _ j NdN Hj). reflexivity.
  - intros k c Hk' Hc.
    rewrite (cell_at_reindex _ _ _ _ _ Hk'), (positions_nil c _ Hc). reflexivity.
  - intros Hin.
    assert (In (reindex_row (columns E) (columns F) old) (rows_for_date F d)) as Hin'.
    { unfold rows_for_date. apply filter_In. split; [exact Hin|].
      apply bool_decide_eq_true_2. rewrite date_cell_reindex by assumption. exact Hdold. }
    rewrite Hrow in Hin'. destruct Hin' as [<- | []]. reflexivity.
  - intros d'.
    destruct (accumulator_invariant_holds stock_id stock_dir new_data_df st Hready HN)
      as (F' & HF' & _ & _ & _ & Hdates).
    fold acc in HF', Hdates. rewrite Hfile in HF'. injection HF' as <-.
    rewrite Hdates. split.
    + intros [Hin | (E' & HE' & Hin)].
      * rewrite Hrows in Hin. destruct Hin as [Hin | []]. rewrite Hd in Hin.
        injection Hin as <-. rewrite <- Hdold. apply in_map, Hold.
      * rewrite HE in HE'. injection HE' as <-. exact Hin.
    + intros Hin. right. exists E. split; [exact HE | exact Hin].
Qed.

Lemma accumulator_last_write_wins_witness :
  exists F final_row,
    files (update_accumulation_file s_2330 new_day2 dir_2330 (storage_2330 []))
      !! path_join dir_2330 (s_2330 ++ s_csv) = Some F
    /\ columns F = concat_columns (columns history_2330) (columns new_day2)
    /\ rows_for_date F day2 = [final_row]
    /\ length final_row = length (columns F)
    /\ (forall j c, columns new_day2 !! j = Some c ->
          exists k, columns F !! k = Some c /\ cell_at k final_row = cell_at j row_day2)
    /\ (forall k c, columns F !! k = Some c -> ~ In c (columns new_day2) ->
          cell_at k final_row = NaN)
    /\ (In (reindex_row (columns history_2330) (columns F) [ Str s_2330; Num 20; Ts day2 ])
           (rows F) ->
          reindex_row (columns history_2330) (columns F) [ Str s_2330; Num 20; Ts day2 ]
          = final_row)
    /\ (forall d', In (Ts d') (List.map (date_cell (columns F)) (rows F))
                   <-> In (Ts d') (List.map (date_cell (columns history_2330))
                                     (rows history_2330))).
Proof.
  apply (accumulator_last_write_wins s_2330 dir_2330 new_day2 day2 row_day2 (storage_2330 [])
           history_2330 [ Str s_2330; Num 20; Ts day2 ]).
  - exact new_day2_single.
  - exact storage_2330_ready.
  - vm_compute. reflexivity.
  - right. left. reflexivity.
  - vm_compute. reflexivity.
Defined.
(** ** The merger fills the share counts *)

(** C5. Merge zero-fill.  For every list of (rectangular) input tables,
    in the table [merge_dataframes] returns no cell is missing under a
    column whose label contains the share-count marker; and the table is
    the outer join of the tables that have both key columns in which,
    cell by cell, a missing value under such a column has become the
    number zero and every other cell is the one of the join. *)
Theorem merge_zero_fill (dfs : list DataFrame) (out : DataFrame) :
  Forall rectangular dfs ->
  merge_dataframes dfs = Ok out ->
  (forall r i c,
     In r (rows out) -> columns out !! i = Some c -> contains s_shares c = true ->
     exists v, r !! i = Some v /\ isna v = false)
  /\ (forall first rest,
        List.filter (fun df => has_column df s_id && has_column df s_name) dfs = first :: rest ->
        exists joined,
          merge_all first rest = Ok joined
          /\ columns out = columns joined
          /\ Forall2 (fun r0 r =>
                        length r = length r0
                        /\ forall i c v,
                             columns joined !! i = Some c -> r0 !! i = Some v ->
                             r !! i = Some (if contains s_shares c && isna v then Num 0 else v))
               (rows joined) (rows out)).
Proof.
  intros Hrect. unfold merge_dataframes. destruct dfs as [|d0 ds].
  { intros [= <-]. split; [intros r i c [] | intros first rest; discriminate]. }
  set (valid := List.filter _ (d0 :: ds)).
  assert (Forall rectangular valid) as Hv.
  { apply Forall_forall. intros x Hx. apply list_elem_of_In, List.filter_In in Hx.
    rewrite Forall_forall in Hrect. apply Hrect, list_elem_of_In. tauto. }
  destruct valid as [|first rest].
  { intros [= <-]. split; [intros r i c [] | intros first rest; discriminate]. }
  destruct (merge_all first rest) as [m|e] eqn:E; cbn [mbind result_bind]; [|discriminate].
  intros [= <-]. rewrite fillna_shares_rows. cbn [columns rows].
  assert (forall r0 i c v, columns m !! i = Some c -> r0 !! i = Some v ->
            fillna_shares_row (columns m) (columns m) r0 !! i
            = Some (if contains s_shares c && isna v then Num 0 else v)) as Hcell.
  { intros r0 i c v Hc Hr0. rewrite (lookup_fillna_shares_row _ _ _ _ _ _ Hc Hr0).
    rewrite (bool_decide_eq_true_2 (c ∈ columns m)) by (eapply list_elem_of_lookup_2, Hc).
    reflexivity. }
  split.
  - apply Forall_cons in Hv. destruct Hv as [Hf _].
    pose proof (merge_all_rectangular _ _ _ Hf E) as Rm.
    intros r i c Hr Hc Hs. apply in_map_iff in Hr. destruct Hr as (r0 & <- & Hr0).
    unfold rectangular in Rm. rewrite Forall_forall in Rm.
    assert (i < length r0)%nat as Hi.
    { rewrite (Rm r0) by (apply list_elem_of_In, Hr0). eapply lookup_lt_Some, Hc. }
    destruct (lookup_lt_is_Some_2 r0 i Hi) as [v Hv].
    rewrite (Hcell _ _ _ _ Hc Hv). eexists. split; [reflexivity|].
    rewrite Hs. simpl. destruct (isna v) eqn:Hna; [reflexivity | exact Hna].
  - intros first' rest' [= <- <-]. exists m. split; [exact E|]. split; [reflexivity|].
    change (List.map ?f ?l) with (f <$> l). apply Forall2_fmap_r, Forall_Forall2_diag.
    apply Forall_forall. intros r0 _. split; [apply length_fillna_shares_row|].
    intros i c v Hc Hr0. apply (Hcell _ _ _ _ Hc Hr0).
Qed.

Lemma merge_zero_fill_witness :
  (forall r i c,
     In r (rows merged_sample) -> columns merged_sample !! i = Some c ->
     contains s_shares c = true ->
     exists v, r !! i = Some v /\ isna v = false)
  /\ (forall first rest,
        List.filter (fun df => has_column df s_id && has_column df s_name)
          [trust_sample; foreign_sample] = first :: rest ->
        exists joined,
          merge_all first rest = Ok joined
          /\ columns merged_sample = columns joined
          /\ Forall2 (fun r0 r =>
                        length r = length r0
                        /\ forall i c v,
                             columns joined !! i = Some c -> r0 !! i = Some v ->
                             r !! i = Some (if contains s_shares c && isna v then Num 0 else v))
               (rows joined) (rows merged_sample)).
Proof.
  apply (merge_zero_fill [trust_sample; foreign_sample] merged_sample
           samples_rectangular merge_sample).
Defined.

(** on the sample tables: the security that only the foreign table
    reports has a missing trust count after the join, and the number
    zero in the table the merger returns *)
Example merge_zero_fill_sample :
  merge_all trust_sample [foreign_sample]
  = Ok (mkDF (columns merged_sample)
          [ [Str s_2317; Str s_honhai; NaN; Num 7]; [Str s_2330; Str s_tsmc; Num 5; Num (-3)] ])
  /\ merge_dataframes [trust_sample; foreign_sample]
     = Ok (mkDF (columns merged_sample)
             [ [Str s_2317; Str s_honhai; Num 0; Num 7];
               [Str s_2330; Str s_tsmc; Num 5; Num (-3)] ]).
Proof. split; vm_compute; reflexivity. Qed.
